(** * Browser-frame compositor: [scripts/add_browser_frame.py]

    A shallow embedding of the script and of the part of Pillow it calls.
    Image buffers live in a heap of mutable objects, the file system and the
    standard streams are part of the state, and every Pillow call is recorded
    in a call log. *)

From Stdlib Require Import ZArith List Bool String Ascii Lia.
From stdpp Require Import base gmap strings list fin_maps pretty.

Local Open Scope string_scope.
Local Open Scope Z_scope.

(** ** Frame styling constants *)

Definition TITLE_BAR_HEIGHT : Z := 32.
Definition BUTTON_RADIUS : Z := 6.
Definition BUTTON_SPACING : Z := 8.
Definition BUTTON_LEFT_MARGIN : Z := 12.
Definition BUTTON_COLORS : list string := ["#ff5f57"; "#febc2e"; "#28c840"].
Definition CORNER_RADIUS : Z := 10.
Definition SHADOW_OFFSET : Z := 4.
Definition SHADOW_BLUR : Z := 12.
Definition PADDING : Z := 20.
Definition SUPERSAMPLE_SCALE : Z := 3.

(** ** Pixels and buffers *)

(** A pixel of an "RGBA" image: four bytes, straight alpha. *)
Record pixel : Type := Pixel { red : Z; green : Z; blue : Z; alpha : Z }.

Definition byte_range (c : Z) : Prop := 0 <= c <= 255.

Definition valid_pixel (p : pixel) : Prop :=
  byte_range (red p) /\ byte_range (green p) /\
  byte_range (blue p) /\ byte_range (alpha p).

Definition TITLE_BAR_COLOR : Z * Z * Z := (232, 232, 232).
Definition BORDER_COLOR : Z * Z * Z := (200, 200, 200).
Definition SHADOW_COLOR : pixel := Pixel 0 0 0 80.

(** An RGB triple used as ink on an "RGBA" image is opaque. *)
Definition rgb_ink (c : Z * Z * Z) : pixel :=
  let '(r, g, b) := c in Pixel r g b 255.

Definition transparent : pixel := Pixel 0 0 0 0.
Definition white : pixel := Pixel 255 255 255 255.

(** A buffer is read through its pixel-access function; only the pixels
    inside [im_size] are observable. *)
Record Buffer (P : Type) : Type :=
  mkBuffer { im_size : Z * Z; getpixel : Z -> Z -> P }.
Arguments mkBuffer {P} _ _.
Arguments im_size {P} _.
Arguments getpixel {P} _ _ _.

Definition width {P} (b : Buffer P) : Z := fst (im_size b).
Definition height {P} (b : Buffer P) : Z := snd (im_size b).

Definition inside {P} (b : Buffer P) (x y : Z) : bool :=
  (0 <=? x) && (x <? width b) && (0 <=? y) && (y <? height b).

(** The two image modes the script uses. *)
Inductive Image : Type :=
| ImRGBA (b : Buffer pixel)
| ImL (b : Buffer Z).

Definition image_size (im : Image) : Z * Z :=
  match im with ImRGBA b => im_size b | ImL b => im_size b end.

Definition size_eqb (a b : Z * Z) : bool :=
  (fst a =? fst b) && (snd a =? snd b).

Definition box : Type := (Z * Z * Z * Z)%type.

(** [xy[0]], [xy[1]], [xy[2]], [xy[3]] *)
Definition box_x0 (xy : box) : Z := let '(x0, _, _, _) := xy in x0.
Definition box_y0 (xy : box) : Z := let '(_, y0, _, _) := xy in y0.
Definition box_x1 (xy : box) : Z := let '(_, _, x1, _) := xy in x1.
Definition box_y1 (xy : box) : Z := let '(_, _, _, y1) := xy in y1.

(** ** Pillow's pixel arithmetic *)

(** Modelled from the spec: "each composite is a standard over alpha blend"
    (section 4.5).  Pillow is not part of the repository; the integer
    formulas are those of its [ImagingAlphaComposite] and [ImagingPaste]. *)
Definition SHIFTFORDIV255 (a : Z) : Z := Z.shiftr (Z.shiftr a 8 + a) 8.
Definition DIV255 (a : Z) : Z := SHIFTFORDIV255 (a + 128).
Definition BLEND8 (mask in1 in2 : Z) : Z :=
  DIV255 (in1 * (255 - mask) + in2 * mask).
Definition PRECISION_BITS : Z := 7.

(** [over dst src]: one pixel of [Image.alpha_composite(dst, src)]. *)
Definition over (dst src : pixel) : pixel :=
  if alpha src =? 0 then dst
  else
    let blend := alpha dst * (255 - alpha src) in
    let outa255 := alpha src * 255 + blend in
    let coef1 := alpha src * 255 * 255 * Z.shiftl 1 PRECISION_BITS / outa255 in
    let coef2 := 255 * Z.shiftl 1 PRECISION_BITS - coef1 in
    let channel s d :=
      Z.shiftr
        (SHIFTFORDIV255 (s * coef1 + d * coef2 + Z.shiftl 128 PRECISION_BITS))
        PRECISION_BITS in
    Pixel (channel (red src) (red dst))
          (channel (green src) (green dst))
          (channel (blue src) (blue dst))
          (SHIFTFORDIV255 (outa255 + 128)).

(** [blend mask out inp]: one pixel of [paste] through a mask value: every
    band, alpha included, is interpolated between the old and the new
    pixel. *)
Definition blend (mask : Z) (out inp : pixel) : pixel :=
  Pixel (BLEND8 mask (red out) (red inp))
        (BLEND8 mask (green out) (green inp))
        (BLEND8 mask (blue out) (blue inp))
        (BLEND8 mask (alpha out) (alpha inp)).

(** ** The rasteriser interface

    The geometry of Pillow's curved shapes, its text renderer and its two
    filters are parameters of the development. *)

Inductive Font : Type :=
| TrueType (file : string) (size : Z)
| DefaultFont.

Class Raster : Type := {
  (** pixels filled by a rounded rectangle with corner diameter [d] *)
  corner_cover : box -> Z -> bool -> bool -> Z -> Z -> bool;
  (** pixels filled by an ellipse inscribed in a box *)
  ellipse_cover : box -> Z -> Z -> bool;
  (** pixels filled by a line of a given width *)
  line_cover : box -> Z -> Z -> Z -> bool;
  (** bounding box of a text drawn at a position *)
  text_bbox : Z * Z -> string -> Font -> box;
  (** pixels of an image after a text is drawn on it in a given ink *)
  text_draw :
    Z * Z -> string -> Font -> pixel -> (Z -> Z -> pixel) -> Z -> Z -> pixel;
  (** Lanczos resampling to a target size *)
  lanczos : Buffer pixel -> Z * Z -> Z -> Z -> pixel;
  lanczos_L : Buffer Z -> Z * Z -> Z -> Z -> Z;
  (** Gaussian blur of a given radius *)
  gaussian : Z -> Buffer pixel -> Z -> Z -> pixel
}.

(** ** Buffer operations (the values Pillow computes) *)

Definition new_buffer {P} (size : Z * Z) (color : P) : Buffer P :=
  mkBuffer size (fun _ _ => color).

Definition fill_pixel {P} (cover : Z -> Z -> bool) (ink : P)
    (old : Z -> Z -> P) (x y : Z) : P :=
  if cover x y then ink else old x y.

(** Drawing a filled shape overwrites the covered pixels with the ink. *)
Definition fill_shape {P} (cover : Z -> Z -> bool) (ink : P) (b : Buffer P)
  : Buffer P :=
  mkBuffer (im_size b) (fill_pixel cover ink (getpixel b)).

Definition valid_box (xy : box) : bool :=
  let '(x0, y0, x1, y1) := xy in (x0 <=? x1) && (y0 <=? y1).

(** A rectangle includes both of its end points. *)
Definition rectangle_cover (xy : box) (x y : Z) : bool :=
  let '(x0, y0, x1, y1) := xy in
  (x0 <=? x) && (x <=? x1) && (y0 <=? y) && (y <=? y1).

(** Modelled from the spec: "Corner radius of 0 degenerates to a plain
    (non-rounded) rectangle frame" (section 8).  Pillow's
    [ImageDraw.rounded_rectangle] is not part of the repository; the case
    analysis is the one it makes: corners whose diameter reaches the box are
    joined, when all are joined the shape is an ellipse, and with diameter 0
    it is the rectangle of the box.  The curved corners themselves are left
    to the rasteriser. *)
Definition rounded_rectangle_cover `{Raster} (xy : box) (radius : Z)
  : Z -> Z -> bool :=
  let '(x0, y0, x1, y1) := xy in
  let d := radius * 2 in
  let full_x := x1 - x0 - 1 <=? d in
  let d := if full_x then x1 - x0 else d in
  let full_y := y1 - y0 - 1 <=? d in
  let d := if full_y then y1 - y0 else d in
  if full_x && full_y then ellipse_cover xy
  else if d =? 0 then rectangle_cover xy
  else corner_cover xy d full_x full_y.

Definition resize_buffer `{Raster} (b : Buffer pixel) (size : Z * Z)
  : Buffer pixel := mkBuffer size (lanczos b size).

Definition resize_buffer_L `{Raster} (b : Buffer Z) (size : Z * Z)
  : Buffer Z := mkBuffer size (lanczos_L b size).

Definition blur_buffer `{Raster} (radius : Z) (b : Buffer pixel)
  : Buffer pixel := mkBuffer (im_size b) (gaussian radius b).

Definition composite_pixel (dst src : Z -> Z -> pixel) (x y : Z) : pixel :=
  over (dst x y) (src x y).

Definition alpha_composite_buffer (im1 im2 : Buffer pixel) : Buffer pixel :=
  mkBuffer (im_size im1) (composite_pixel (getpixel im1) (getpixel im2)).

(** The region of the destination a paste at [(dx, dy)] touches. *)
Definition paste_region {P Q} (dst : Buffer P) (src : Buffer Q)
    (dx dy x y : Z) : bool :=
  inside dst x y && inside src (x - dx) (y - dy).

Definition paste_pixel (dst : Buffer pixel) (src : Buffer pixel)
    (mask : option (Z -> Z -> Z)) (dx dy x y : Z) : pixel :=
  if paste_region dst src dx dy x y then
    match mask with
    | None => getpixel src (x - dx) (y - dy)
    | Some m =>
        blend (m (x - dx) (y - dy)) (getpixel dst x y)
              (getpixel src (x - dx) (y - dy))
    end
  else getpixel dst x y.

Definition paste_buffer (dst src : Buffer pixel)
    (mask : option (Z -> Z -> Z)) (dx dy : Z) : Buffer pixel :=
  mkBuffer (im_size dst) (paste_pixel dst src mask dx dy).

(** The mask of a paste: an "L" image gives its values, an "RGBA" image its
    alpha band. *)
Definition mask_values (m : Image) : Z -> Z -> Z :=
  match m with
  | ImL b => getpixel b
  | ImRGBA b => fun x y => alpha (getpixel b x y)
  end.

Definition text_buffer `{Raster} (xy : Z * Z) (text : string) (font : Font)
    (ink : pixel) (b : Buffer pixel) : Buffer pixel :=
  mkBuffer (im_size b) (text_draw xy text font ink (getpixel b)).

(** ** State: object heap, file system, streams, call log *)

(** A path is the list of its components, as in [pathlib]. *)
Abbreviation Path := (list string).

Inductive exn : Type :=
| ValueError
| TypeError
| ReferenceError
| FileNotFoundError
| IsADirectoryError
| NotADirectoryError
| FileExistsError
| UnidentifiedImageError
| OSError
| SystemExit (code : Z).

(** [except OSError] also catches the subclasses of [OSError]. *)
Definition is_OSError (e : exn) : bool :=
  match e with
  | FileNotFoundError | IsADirectoryError | NotADirectoryError
  | FileExistsError | UnidentifiedImageError | OSError => true
  | ValueError | TypeError | ReferenceError | SystemExit _ => false
  end.

(** What a file holds: a decodable image (given by its conversion to
    "RGBA"), a font, or anything else. *)
Inductive file : Type :=
| FImage (b : Buffer pixel)
| FFont (data : string)
| FOther.

Inductive node : Type :=
| NDir
| NFile (f : file).

(** Image objects are referred to by their position in the heap. *)
Abbreviation ref := nat.

Inductive ink : Type :=
| InkRGBA (p : pixel)
| InkL (v : Z).

(** One entry of the call log per call into Pillow. *)
Inductive call : Type :=
| Call_open (p : Path)
| Call_convert (im : ref)
| Call_new (size : Z * Z)
| Call_rounded_rectangle (im : ref) (xy : box) (radius : Z)
| Call_rectangle (im : ref) (xy : box)
| Call_ellipse (im : ref) (xy : box)
| Call_line (im : ref) (xy : box) (w : Z)
| Call_truetype (p : Path) (size : Z)
| Call_load_default
| Call_textbbox (text : string)
| Call_text (im : ref) (text : string)
| Call_resize (im : ref) (size : Z * Z)
| Call_GaussianBlur (im : ref) (radius : Z)
| Call_alpha_composite (im1 im2 : ref)
| Call_paste (dst src : ref) (xy : Z * Z) (mask : option ref)
| Call_save (im : ref) (p : Path).

(** The file system is keyed by the path as it is written and holds
    directories and regular files only: links, and file systems that fold
    the case of names, are outside the model. *)
Record state : Type := mkState {
  heap : list Image;
  files : gmap Path node;
  stdout : list string;
  stderr : list string;
  calls : list call
}.

(** ** The monad of the script: state and exceptions *)

Definition M (A : Type) : Type := state -> (exn + A) * state.

Definition ret {A} (a : A) : M A := fun s => (inr a, s).

Definition raise {A} (e : exn) : M A := fun s => (inl e, s).

Definition bind {A B} (m : M A) (k : A -> M B) : M B :=
  fun s =>
    match m s with
    | (inr a, s') => k a s'
    | (inl e, s') => (inl e, s')
    end.

Notation "'let*' x ':=' c1 'in' c2" := (bind c1 (fun x => c2))
  (at level 10, x pattern, c1 at level 100, c2 at level 200).

(** [try: m except OSError: h] *)
Definition try_except_OSError {A} (m h : M A) : M A :=
  fun s =>
    match m s with
    | (inl e, s') => if is_OSError e then h s' else (inl e, s')
    | r => r
    end.

Fixpoint for_each {A} (l : list A) (body : A -> M unit) : M unit :=
  match l with
  | [] => ret tt
  | a :: l' => let* _ := body a in for_each l' body
  end.

Definition log (c : call) : M unit :=
  fun s =>
    (inr tt, mkState (heap s) (files s) (stdout s) (stderr s) (calls s ++ [c])).

Definition alloc (im : Image) : M ref :=
  fun s =>
    (inr (length (heap s)),
     mkState (heap s ++ [im]) (files s) (stdout s) (stderr s) (calls s)).

Definition load (r : ref) : M Image :=
  fun s =>
    match heap s !! r with
    | Some im => (inr im, s)
    | None => (inl ReferenceError, s)
    end.

Definition store (r : ref) (im : Image) : M unit :=
  fun s =>
    (inr tt,
     mkState (<[r := im]> (heap s)) (files s) (stdout s) (stderr s) (calls s)).

Definition load_RGBA (r : ref) : M (Buffer pixel) :=
  let* im := load r in
  match im with
  | ImRGBA b => ret b
  | ImL _ => raise ValueError
  end.

(** The image objects a call creates are local to it: they are dropped when
    the call returns or raises. *)
Definition scoped {A} (m : M A) : M A :=
  fun s =>
    let '(r, s') :=
      m (mkState [] (files s) (stdout s) (stderr s) (calls s)) in
    (r, mkState (heap s) (files s') (stdout s') (stderr s') (calls s')).

Definition print (line : string) : M unit :=
  fun s =>
    (inr tt,
     mkState (heap s) (files s) (stdout s ++ [line]) (stderr s) (calls s)).

Definition print_stderr (line : string) : M unit :=
  fun s =>
    (inr tt,
     mkState (heap s) (files s) (stdout s) (stderr s ++ [line]) (calls s)).

(** ** The file system *)

(** The root of an absolute path is its first component. *)
Definition is_root (c : string) : bool :=
  String.eqb c "/" || String.eqb c "//".

(** [p.parent]: the root is its own parent. *)
Definition parent (p : Path) : Path :=
  match p with
  | [c] => if is_root c then p else []
  | _ => removelast p
  end.

(** [p.name]: the last component; a root has no name. *)
Definition name (p : Path) : string :=
  match p with
  | [c] => if is_root c then "" else c
  | _ => List.last p ""
  end.

Definition joinpath (p : Path) (child : string) : Path := p ++ [child].
(** [str(p)]: no separator follows the root, and the empty path is
    written as a dot. *)
Definition str (p : Path) : string :=
  match p with
  | [] => "."
  | c :: rest =>
      if is_root c then c +:+ String.concat "/" rest
      else String.concat "/" p
  end.





Definition fs_is_dir (fs : gmap Path node) (p : Path) : bool :=
  match p with
  | [] => true
  | _ => match fs !! p with Some NDir => true | _ => false end
  end.

Definition fs_is_file (fs : gmap Path node) (p : Path) : bool :=
  match p with
  | [] => false
  | _ => match fs !! p with Some (NFile _) => true | _ => false end
  end.

Definition is_dir (p : Path) : M bool := fun s => (inr (fs_is_dir (files s) p), s).
Definition is_file (p : Path) : M bool := fun s => (inr (fs_is_file (files s) p), s).

(** All the non-empty prefixes of a path, shortest first. *)
Fixpoint prefixes (p : Path) : list Path :=
  match p with
  | [] => []
  | c :: p' => [c] :: List.map (cons c) (prefixes p')
  end.

(** [mkdir(parents=True, exist_ok=True)] on a file system. *)
Fixpoint fs_mkdir (dirs : list Path) (fs : gmap Path node)
  : exn + gmap Path node :=
  match dirs with
  | [] => inr fs
  | d :: rest =>
      match fs !! d with
      | None => fs_mkdir rest (<[d := NDir]> fs)
      | Some NDir => fs_mkdir rest fs
      | Some (NFile _) =>
          inl (match rest with [] => FileExistsError | _ => NotADirectoryError end)
      end
  end.

Definition mkdir (p : Path) : M unit :=
  fun s =>
    match fs_mkdir (prefixes p) (files s) with
    | inr fs' => (inr tt, mkState (heap s) fs' (stdout s) (stderr s) (calls s))
    | inl e => (inl e, s)
    end.

Fixpoint path_leb (p q : Path) : bool :=
  match p, q with
  | [], _ => true
  | _ :: _, [] => false
  | a :: p', b :: q' =>
      if String.eqb a b then path_leb p' q' else String.leb a b
  end.

Fixpoint insert_sorted (p : Path) (l : list Path) : list Path :=
  match l with
  | [] => [p]
  | q :: l' => if path_leb p q then p :: l else q :: insert_sorted p l'
  end.

Definition sorted (l : list Path) : list Path :=
  List.fold_right insert_sorted [] l.

Definition fs_iterdir (fs : gmap Path node) (d : Path) : list Path :=
  List.filter
    (fun p =>
       bool_decide (p <> []) && bool_decide (p <> d)
       && bool_decide (parent p = d))
    (map_to_list fs).*1.

Definition iterdir (p : Path) : M (list Path) :=
  fun s =>
    if fs_is_dir (files s) p then (inr (fs_iterdir (files s) p), s)
    else (inl NotADirectoryError, s).

(** [PurePath.suffix] and [PurePath.stem]. *)
Fixpoint rfind (c : ascii) (s : string) (i : nat) : option nat :=
  match s with
  | EmptyString => None
  | String a s' =>
      match rfind c s' (S i) with
      | Some j => Some j
      | None => if Ascii.eqb a c then Some i else None
      end
  end.

Definition suffix_index (nm : string) : option nat :=
  match rfind "."%char nm 0 with
  | Some i =>
      if (Nat.ltb 0 i && Nat.ltb i (String.length nm - 1))%nat then Some i
      else None
  | None => None
  end.

Definition suffix (p : Path) : string :=
  match suffix_index (name p) with
  | Some i => substring i (String.length (name p) - i) (name p)
  | None => ""
  end.

Definition stem (p : Path) : string :=
  match suffix_index (name p) with
  | Some i => substring 0 i (name p)
  | None => name p
  end.

Definition lower_ascii (c : ascii) : ascii :=
  let n := nat_of_ascii c in
  if (Nat.leb 65 n && Nat.leb n 90)%nat then ascii_of_nat (n + 32) else c.

Fixpoint lower (s : string) : string :=
  match s with
  | EmptyString => EmptyString
  | String c s' => String (lower_ascii c) (lower s')
  end.

(** ** The Pillow calls of the script *)

Definition new_image (size : Z * Z) (color : ink) : Image :=
  match color with
  | InkRGBA p => ImRGBA (new_buffer size p)
  | InkL v => ImL (new_buffer size v)
  end.

Definition resize_image `{Raster} (im : Image) (size : Z * Z) : Image :=
  match im with
  | ImRGBA b => ImRGBA (resize_buffer b size)
  | ImL b => ImL (resize_buffer_L b size)
  end.

Section Pillow.
Context `{Raster}.

(** [Image.open(path)]: the file must exist and hold an image with at
    least one pixel. *)
Definition Image_open (p : Path) : M ref :=
  let* _ := log (Call_open p) in
  fun s =>
    match files s !! p with
    | None => raise FileNotFoundError s
    | Some NDir => raise IsADirectoryError s
    | Some (NFile (FImage b)) =>
        if (0 <? width b) && (0 <? height b) then alloc (ImRGBA b) s
        else raise UnidentifiedImageError s
    | Some (NFile _) => raise UnidentifiedImageError s
    end.

(** [im.convert("RGBA")] returns a copy. *)
Definition Image_convert_RGBA (im : ref) : M ref :=
  let* _ := log (Call_convert im) in
  let* b := load_RGBA im in
  alloc (ImRGBA b).

Definition Image_new (size : Z * Z) (color : ink) : M ref :=
  let* _ := log (Call_new size) in
  if (fst size <? 0) || (snd size <? 0) then raise ValueError
  else alloc (new_image size color).

(** The coordinates of a drawing call are mathematical integers here.
    Pillow reads an integer coordinate through a single-precision float
    into a C int: it arrives as given up to [MAX_COORDINATE], and the call
    fails far beyond it, which the model leaves out. *)
Definition MAX_COORDINATE : Z := 2 ^ 24.

(** Drawing mutates the image the [ImageDraw] object was made for. *)
Definition draw_shape (im : ref) (cover : Z -> Z -> bool) (fill : ink)
  : M unit :=
  let* i := load im in
  match i, fill with
  | ImRGBA b, InkRGBA p => store im (ImRGBA (fill_shape cover p b))
  | ImL b, InkL v => store im (ImL (fill_shape cover v b))
  | _, _ => raise TypeError
  end.

(** [draw.rounded_rectangle]: the box is checked first; a negative radius
    gives corner boxes with [x1 < x0], which are refused. *)
Definition Draw_rounded_rectangle (im : ref) (xy : box) (radius : Z)
    (fill : ink) : M unit :=
  let* _ := log (Call_rounded_rectangle im xy radius) in
  if valid_box xy then
    if radius <? 0 then raise ValueError
    else draw_shape im (rounded_rectangle_cover xy radius) fill
  else raise ValueError.

Definition Draw_rectangle (im : ref) (xy : box) (fill : ink) : M unit :=
  let* _ := log (Call_rectangle im xy) in
  if valid_box xy then draw_shape im (rectangle_cover xy) fill
  else raise ValueError.

Definition Draw_ellipse (im : ref) (xy : box) (fill : ink) : M unit :=
  let* _ := log (Call_ellipse im xy) in
  if valid_box xy then draw_shape im (ellipse_cover xy) fill
  else raise ValueError.

Definition Draw_line (im : ref) (xy : box) (fill : ink) (w : Z) : M unit :=
  let* _ := log (Call_line im xy w) in
  draw_shape im (line_cover xy w) fill.

Definition ImageFont_truetype (p : Path) (size : Z) : M Font :=
  let* _ := log (Call_truetype p size) in
  fun s =>
    match files s !! p with
    | Some (NFile (FFont data)) => ret (TrueType data size) s
    | _ => raise OSError s
    end.

Definition ImageFont_load_default : M Font :=
  let* _ := log Call_load_default in
  ret DefaultFont.

Definition Draw_textbbox (xy : Z * Z) (text : string) (font : Font) : M box :=
  let* _ := log (Call_textbbox text) in
  ret (text_bbox xy text font).

Definition Draw_text (im : ref) (xy : Z * Z) (text : string) (fill : pixel)
    (font : Font) : M unit :=
  let* _ := log (Call_text im text) in
  let* b := load_RGBA im in
  store im (ImRGBA (text_buffer xy text font fill b)).

(** [im.resize(size, Image.Resampling.LANCZOS)] returns a new image. *)
Definition Image_resize (im : ref) (size : Z * Z) : M ref :=
  let* _ := log (Call_resize im size) in
  let* i := load im in
  if (fst size <? 1) || (snd size <? 1) then raise ValueError
  else alloc (resize_image i size).

(** [im.filter(ImageFilter.GaussianBlur(radius))] returns a new image. *)
Definition Image_filter_GaussianBlur (im : ref) (radius : Z) : M ref :=
  let* _ := log (Call_GaussianBlur im radius) in
  let* b := load_RGBA im in
  alloc (ImRGBA (blur_buffer radius b)).

(** [Image.alpha_composite(im1, im2)] returns a new image; both images are
    "RGBA" and of one size. *)
Definition Image_alpha_composite (im1 im2 : ref) : M ref :=
  let* _ := log (Call_alpha_composite im1 im2) in
  let* b1 := load_RGBA im1 in
  let* b2 := load_RGBA im2 in
  if size_eqb (im_size b1) (im_size b2)
  then alloc (ImRGBA (alpha_composite_buffer b1 b2))
  else raise ValueError.

(** [dst.paste(src, xy, mask)] mutates [dst]; a mask has the size of
    [src]. *)
Definition Image_paste (dst src : ref) (xy : Z * Z) (mask : option ref)
  : M unit :=
  let* _ := log (Call_paste dst src xy mask) in
  let* d := load_RGBA dst in
  let* b := load_RGBA src in
  match mask with
  | None => store dst (ImRGBA (paste_buffer d b None (fst xy) (snd xy)))
  | Some mr =>
      let* m := load mr in
      if size_eqb (image_size m) (im_size b)
      then store dst
             (ImRGBA (paste_buffer d b (Some (mask_values m)) (fst xy) (snd xy)))
      else raise ValueError
  end.

(** [im.save(path, "PNG")]: the encoding is lossless, the file is modelled
    by the buffer it decodes to. *)
Definition Image_save (im : ref) (p : Path) : M unit :=
  let* _ := log (Call_save im p) in
  let* b := load_RGBA im in
  fun s =>
    if fs_is_dir (files s) p then raise IsADirectoryError s
    else if fs_is_dir (files s) (parent p) then
      (inr tt,
       mkState (heap s) (<[p := NFile (FImage b)]> (files s))
               (stdout s) (stderr s) (calls s))
    else raise FileNotFoundError s.

End Pillow.

(** ** The script *)

(** *** [hex_to_rgb] *)

Fixpoint lstrip (c : ascii) (s : string) : string :=
  match s with
  | String a s' => if Ascii.eqb a c then lstrip c s' else s
  | EmptyString => EmptyString
  end.

(** [s.endswith(c)] for a single character. *)
Fixpoint endswith (s : string) (c : ascii) : bool :=
  match s with
  | EmptyString => false
  | String a s' =>
      match s' with
      | EmptyString => Ascii.eqb a c
      | _ => endswith s' c
      end
  end.

(** [s[i:j]] for [0 <= i <= j]. *)
Definition slice (s : string) (i j : nat) : string := substring i (j - i) s.

Definition hex_digit (c : ascii) : option Z :=
  let n := Z.of_nat (nat_of_ascii c) in
  if (48 <=? n) && (n <=? 57) then Some (n - 48)
  else if (97 <=? n) && (n <=? 102) then Some (n - 87)
  else if (65 <=? n) && (n <=? 70) then Some (n - 55)
  else None.

Fixpoint hex_digits (s : string) (acc : Z) : option Z :=
  match s with
  | EmptyString => Some acc
  | String c s' =>
      match hex_digit c with
      | Some v => hex_digits s' (acc * 16 + v)
      | None => None
      end
  end.

(** [int(s, 16)] on a string of hexadecimal digits; the other literals
    Python accepts (sign, blanks, underscores, a [0x] prefix) do not occur
    in the script's palette and are rejected here. *)
Definition int16 (s : string) : exn + Z :=
  match s with
  | EmptyString => inl ValueError
  | _ => match hex_digits s 0 with Some v => inr v | None => inl ValueError end
  end.

Definition parse_hex (hex_color : string) : exn + Z * Z * Z :=
  let hex_color := lstrip "#"%char hex_color in
  match int16 (slice hex_color 0 2) with
  | inl e => inl e
  | inr r =>
      match int16 (slice hex_color 2 4) with
      | inl e => inl e
      | inr g =>
          match int16 (slice hex_color 4 6) with
          | inl e => inl e
          | inr b => inr (r, g, b)
          end
      end
  end.

Definition lift {A} (r : exn + A) : M A :=
  match r with inr a => ret a | inl e => raise e end.

Definition hex_to_rgb (hex_color : string) : M (Z * Z * Z) :=
  lift (parse_hex hex_color).

Fixpoint enumerate_from {A} (i : Z) (l : list A) : list (Z * A) :=
  match l with
  | [] => []
  | a :: l' => (i, a) :: enumerate_from (i + 1) l'
  end.

Definition enumerate {A} (l : list A) : list (Z * A) := enumerate_from 0 l.

(** Python's truth value of [title : str | None]. *)
Definition truth (title : option string) : bool :=
  match title with
  | None => false
  | Some t => negb (String.eqb t "")
  end.

Definition SF_PRO : Path := ["/"; "System"; "Library"; "Fonts"; "SF-Pro-Text-Medium.otf"].
Definition HELVETICA : Path := ["/"; "System"; "Library"; "Fonts"; "Helvetica.ttc"].

Section Script.
Context `{Raster}.

Definition Image_size (im : ref) : M (Z * Z) :=
  let* i := load im in ret (image_size i).

(** *** [create_title_bar_supersampled] *)

Definition create_title_bar_supersampled (width height corner_radius : Z)
    (title : option string) : M ref :=
  let scale := SUPERSAMPLE_SCALE in
  let hi_width := width * scale in
  let hi_height := height * scale in
  let hi_radius := corner_radius * scale in
  let hi_button_radius := BUTTON_RADIUS * scale in
  let hi_button_spacing := BUTTON_SPACING * scale in
  let hi_button_margin := BUTTON_LEFT_MARGIN * scale in
  (* Create high-res title bar *)
  let* title_bar := Image_new (hi_width, hi_height) (InkRGBA transparent) in
  let draw := title_bar in
  (* Draw rounded rectangle for title bar (rounded top, square bottom) *)
  let* _ := Draw_rounded_rectangle draw (0, 0, hi_width, hi_height) hi_radius
              (InkRGBA (rgb_ink TITLE_BAR_COLOR)) in
  (* Square off the bottom corners *)
  let* _ := Draw_rectangle draw (0, hi_height - hi_radius, hi_width, hi_height)
              (InkRGBA (rgb_ink TITLE_BAR_COLOR)) in
  (* Draw traffic light buttons *)
  let button_y := hi_height / 2 in
  let* _ :=
    for_each (enumerate BUTTON_COLORS) (fun '(i, color) =>
      let button_x :=
        hi_button_margin + i * (hi_button_radius * 2 + hi_button_spacing) in
      let* rgb := hex_to_rgb color in
      Draw_ellipse draw
        (button_x - hi_button_radius, button_y - hi_button_radius,
         button_x + hi_button_radius, button_y + hi_button_radius)
        (InkRGBA (rgb_ink rgb))) in
  (* Draw title text if provided *)
  let* _ :=
    if truth title then
      let title := default "" title in
      let* font :=
        try_except_OSError (ImageFont_truetype SF_PRO (13 * scale))
          (try_except_OSError (ImageFont_truetype HELVETICA (13 * scale))
             ImageFont_load_default) in
      let* text_bbox := Draw_textbbox (0, 0) title font in
      let text_width := box_x1 text_bbox - box_x0 text_bbox in
      let text_height := box_y1 text_bbox - box_y0 text_bbox in
      let text_x := (hi_width - text_width) / 2 in
      let text_y := (hi_height - text_height) / 2 in
      Draw_text draw (text_x, text_y) title (Pixel 80 80 80 255) font
    else ret tt in
  (* Draw bottom border line *)
  let* _ := Draw_line draw (0, hi_height - scale, hi_width, hi_height - scale)
              (InkRGBA (rgb_ink BORDER_COLOR)) scale in
  (* Downscale with high-quality resampling *)
  Image_resize title_bar (width, height).

(** *** [create_browser_frame] *)

Definition create_browser_frame (image_path output_path : Path)
    (title : option string) (shadow : bool) (corner_radius : Z) : M Path :=
  scoped (
  (* Load the source image *)
  let* opened := Image_open image_path in
  let* source := Image_convert_RGBA opened in
  let* (src_width, src_height) := Image_size source in
  (* Calculate dimensions *)
  let frame_width := src_width in
  let frame_height := src_height + TITLE_BAR_HEIGHT in
  (* Calculate canvas size (with padding for shadow) *)
  let '(canvas_width, canvas_height, offset_x, offset_y) :=
    if shadow
    then (frame_width + PADDING * 2, frame_height + PADDING * 2,
          PADDING, PADDING)
    else (frame_width, frame_height, 0, 0) in
  (* Create the final canvas with transparency *)
  let* final := Image_new (canvas_width, canvas_height) (InkRGBA transparent) in
  (* Create shadow if enabled (using supersampling for smooth edges) *)
  let* (final, shadow_canvas) :=
    if shadow then
      let scale := SUPERSAMPLE_SCALE in
      let* hi_canvas :=
        Image_new (canvas_width * scale, canvas_height * scale)
          (InkRGBA transparent) in
      let hi_draw := hi_canvas in
      let shadow_rect :=
        ((offset_x + SHADOW_OFFSET) * scale,
         (offset_y + SHADOW_OFFSET) * scale,
         (offset_x + frame_width + SHADOW_OFFSET) * scale,
         (offset_y + frame_height + SHADOW_OFFSET) * scale) in
      let* _ := Draw_rounded_rectangle hi_draw shadow_rect
                  (corner_radius * scale) (InkRGBA SHADOW_COLOR) in
      (* Downscale then blur *)
      let* shadow_canvas :=
        Image_resize hi_canvas (canvas_width, canvas_height) in
      let* shadow_canvas :=
        Image_filter_GaussianBlur shadow_canvas SHADOW_BLUR in
      let* final := Image_alpha_composite final shadow_canvas in
      ret (final, Some shadow_canvas)
    else ret (final, None) in
  (* Create the white content background with rounded corners *)
  let scale := SUPERSAMPLE_SCALE in
  let* hi_bg :=
    Image_new (canvas_width * scale, canvas_height * scale)
      (InkRGBA transparent) in
  let hi_bg_draw := hi_bg in
  let frame_rect_hi :=
    (offset_x * scale, offset_y * scale,
     (offset_x + frame_width) * scale, (offset_y + frame_height) * scale) in
  let* _ := Draw_rounded_rectangle hi_bg_draw frame_rect_hi
              (corner_radius * scale) (InkRGBA white) in
  let* bg_layer := Image_resize hi_bg (canvas_width, canvas_height) in
  let* final := Image_alpha_composite final bg_layer in
  (* Create anti-aliased title bar *)
  let* title_bar :=
    create_title_bar_supersampled frame_width TITLE_BAR_HEIGHT corner_radius
      title in
  (* Paste title bar *)
  let* _ := Image_paste final title_bar (offset_x, offset_y) (Some title_bar) in
  (* Paste the source image into the content area *)
  let content_position := (offset_x, offset_y + TITLE_BAR_HEIGHT) in
  let* _ := Image_paste final source content_position None in
  (* Create rounded corner mask for bottom of content (supersampled) *)
  let* hi_mask :=
    Image_new (canvas_width * scale, canvas_height * scale) (InkL 0) in
  let hi_mask_draw := hi_mask in
  let content_rect_hi :=
    (offset_x * scale, (offset_y + TITLE_BAR_HEIGHT) * scale,
     (offset_x + frame_width) * scale, (offset_y + frame_height) * scale) in
  let* _ := Draw_rounded_rectangle hi_mask_draw content_rect_hi
              (corner_radius * scale) (InkL 255) in
  (* Square off the top *)
  let* _ := Draw_rectangle hi_mask_draw
              (offset_x * scale, (offset_y + TITLE_BAR_HEIGHT) * scale,
               (offset_x + frame_width) * scale,
               (offset_y + TITLE_BAR_HEIGHT + corner_radius) * scale)
              (InkL 255) in
  let* content_mask := Image_resize hi_mask (canvas_width, canvas_height) in
  (* Apply rounded corners to content *)
  let* content_layer :=
    Image_new (canvas_width, canvas_height) (InkRGBA transparent) in
  let* _ := Image_paste content_layer source content_position None in
  (* Composite with mask *)
  let* final_with_content :=
    Image_new (canvas_width, canvas_height) (InkRGBA transparent) in
  (* Re-add shadow *)
  let* final_with_content :=
    match shadow, shadow_canvas with
    | true, Some shadow_canvas =>
        Image_alpha_composite final_with_content shadow_canvas
    | _, _ => ret final_with_content
    end in
  (* Add background *)
  let* final_with_content :=
    Image_alpha_composite final_with_content bg_layer in
  (* Add title bar *)
  let* title_bar_layer :=
    Image_new (canvas_width, canvas_height) (InkRGBA transparent) in
  let* _ := Image_paste title_bar_layer title_bar (offset_x, offset_y)
              (Some title_bar) in
  let* final_with_content :=
    Image_alpha_composite final_with_content title_bar_layer in
  (* Add content with mask *)
  let* _ := Image_paste final_with_content content_layer (0, 0)
              (Some content_mask) in
  (* Save the result *)
  let* _ := mkdir (parent output_path) in
  let* _ := Image_save final_with_content output_path in
  ret output_path).

(** *** [process_batch] *)

Definition image_extensions : list string :=
  [".png"; ".jpg"; ".jpeg"; ".webp"; ".bmp"; ".gif"].

Definition recognized (img_path : Path) : bool :=
  bool_decide (lower (suffix img_path) ∈ image_extensions).

(** The body of the directory loop: one image, its output file, its
    progress line. *)
Definition process_entry (output_path : Path) (sfx : string)
    (title : option string) (shadow : bool) (corner_radius : Z)
    (created_files : list Path) (img_path : Path) : M (list Path) :=
  if recognized img_path then
    let output_file := joinpath output_path (stem img_path +:+ sfx +:+ ".png") in
    let* result :=
      create_browser_frame img_path output_file title shadow corner_radius in
    let created_files := (created_files ++ [result])%list in
    let* _ := print ("Created: " +:+ str result) in
    ret created_files
  else ret created_files.

Fixpoint process_entries (output_path : Path) (sfx : string)
    (title : option string) (shadow : bool) (corner_radius : Z)
    (created_files : list Path) (entries : list Path) : M (list Path) :=
  match entries with
  | [] => ret created_files
  | img_path :: rest =>
      let* created_files :=
        process_entry output_path sfx title shadow corner_radius
          created_files img_path in
      process_entries output_path sfx title shadow corner_radius
        created_files rest
  end.

Definition process_batch (input_path output_path : Path)
    (title : option string) (shadow : bool) (corner_radius : Z)
    (keep_name : bool) : M (list Path) :=
  let created_files := [] in
  let* input_is_file := is_file input_path in
  if input_is_file then
    (* Single file processing *)
    let* output_is_dir := is_dir output_path in
    let output_file :=
      if output_is_dir || endswith (str output_path) "/"
      then
        let sfx := if keep_name then "" else "_framed" in
        joinpath output_path (stem input_path +:+ sfx +:+ ".png")
      else output_path in
    let* result :=
      create_browser_frame input_path output_file title shadow corner_radius in
    let created_files := (created_files ++ [result])%list in
    let* _ := print ("Created: " +:+ str result) in
    ret created_files
  else
    let* input_is_dir := is_dir input_path in
    if input_is_dir then
      (* Batch directory processing *)
      let* _ := mkdir output_path in
      let sfx := if keep_name then "" else "_framed" in
      let* entries := iterdir input_path in
      process_entries output_path sfx title shadow corner_radius
        created_files (sorted entries)
    else
      let* _ := print_stderr ("Error: " +:+ str input_path +:+ " does not exist") in
      raise (SystemExit 1).

End Script.

(** *** [main] *)

(** The namespace [parser.parse_args()] returns. *)
Module Namespace.
Record t : Type := mk {
  input : Path;
  output : Path;
  title : option string;
  no_shadow : bool;
  radius : Z;
  keep_name : bool
}.
End Namespace.

Section Main.
Context `{Raster}.

(** [main].  The command line is parsed by argparse, which is not part of
    the script: [parse_args] stands for [parser.parse_args()] on the parser
    of lines 348-376, which returns the namespace or raises [SystemExit]. *)
Definition main (parse_args : M Namespace.t) : M unit :=
  let* args := parse_args in
  let* created :=
    process_batch (Namespace.input args) (Namespace.output args)
      (Namespace.title args) (negb (Namespace.no_shadow args))
      (Namespace.radius args) (Namespace.keep_name args) in
  print (String "010" "Processed " +:+ pretty (length created) +:+ " image(s)").

End Main.

(** ** A reference rasteriser

    A simple instance of the interface, used to run the script on concrete
    inputs: exact shapes sampled on the pixel grid, resampling by the centre
    of each block, a box blur, a checkerboard for text. *)

Module Reference.

Definition sq (z : Z) : Z := z * z.

Definition nearest (lo hi v : Z) : Z := Z.max lo (Z.min hi v).

Definition corner_cover (xy : box) (d : Z) (full_x full_y : bool) (x y : Z)
  : bool :=
  let '(x0, y0, x1, y1) := xy in
  let r := d / 2 in
  rectangle_cover xy x y &&
  (sq (x - nearest (x0 + r) (x1 - r) x) + sq (y - nearest (y0 + r) (y1 - r) y)
   <=? sq r).

Definition ellipse_cover (xy : box) (x y : Z) : bool :=
  let '(x0, y0, x1, y1) := xy in
  let a := x1 - x0 in
  let b := y1 - y0 in
  sq (2 * x - x0 - x1) * sq b + sq (2 * y - y0 - y1) * sq a <=? sq a * sq b.

Definition line_cover (xy : box) (w x y : Z) : bool :=
  let '(x0, y0, x1, y1) := xy in
  (Z.min x0 x1 <=? x) && (x <=? Z.max x0 x1) &&
  (Z.min y0 y1 - w / 2 <=? y) && (y <=? Z.max y0 y1 + (w - 1) / 2).

Definition font_size (font : Font) : Z :=
  match font with TrueType _ size => size | DefaultFont => 10 end.

Definition text_bbox (xy : Z * Z) (text : string) (font : Font) : box :=
  (fst xy, snd xy,
   fst xy + Z.of_nat (String.length text) * font_size font / 2,
   snd xy + font_size font).

Definition text_cover (xy : Z * Z) (text : string) (font : Font) (x y : Z)
  : Z :=
  if rectangle_cover (text_bbox xy text font) x y && Z.even (x + y)
  then 255 else 0.

Definition text_draw (xy : Z * Z) (text : string) (font : Font) (ink : pixel)
    (old : Z -> Z -> pixel) (x y : Z) : pixel :=
  blend (text_cover xy text font x y) (old x y) ink.

Definition centre (n m i : Z) : Z := (2 * i + 1) * n / (2 * m).

Definition resample {P} (b : Buffer P) (size : Z * Z) (x y : Z) : P :=
  getpixel b (centre (width b) (fst size) x) (centre (height b) (snd size) y).

Definition window (radius c : Z) : list Z :=
  seqZ (c - radius) (2 * radius + 1).

Definition mean (b : Buffer pixel) (band : pixel -> Z) (pts : list (Z * Z))
  : Z :=
  fold_right
    (fun '(x, y) acc =>
       acc + band (getpixel b (nearest 0 (width b - 1) x)
                                (nearest 0 (height b - 1) y)))
    0 pts
  / Z.of_nat (length pts).

Definition box_blur (radius : Z) (b : Buffer pixel) (x y : Z) : pixel :=
  let pts := list_prod (window radius x) (window radius y) in
  Pixel (mean b red pts) (mean b green pts) (mean b blue pts)
        (mean b alpha pts).

#[export] Instance raster : Raster := {
  Spec2Rocq.corner_cover := corner_cover;
  Spec2Rocq.ellipse_cover := ellipse_cover;
  Spec2Rocq.line_cover := line_cover;
  Spec2Rocq.text_bbox := text_bbox;
  Spec2Rocq.text_draw := text_draw;
  lanczos := resample;
  lanczos_L := resample;
  gaussian := box_blur
}.

End Reference.

(** ** Concrete inputs *)

Module Demo.

(** A 12x12 opaque image, and the same image made of transparent pixels. *)
Definition opaque_source : Buffer pixel :=
  mkBuffer (12, 12) (fun _ _ => Pixel 10 20 30 255).

Definition clear_source : Buffer pixel :=
  mkBuffer (12, 12) (fun _ _ => transparent).

(** Two single images and two directories: in [shots] the first image
    cannot be decoded, in [mixed] the second. *)
Definition fs : gmap Path node :=
  {[ ["shots"] := NDir;
     ["shots"; "a.png"] := NFile FOther;
     ["shots"; "b.png"] := NFile (FImage opaque_source);
     ["shots"; "notes.txt"] := NFile FOther;
     ["mixed"] := NDir;
     ["mixed"; "a.png"] := NFile (FImage opaque_source);
     ["mixed"; "b.png"] := NFile FOther;
     ["mixed"; "c.png"] := NFile (FImage opaque_source);
     ["clear.png"] := NFile (FImage clear_source);
     ["in.png"] := NFile (FImage opaque_source) ]}.

Definition start : state := mkState [] fs [] [] [].

(** The image saved at a path, if any. *)
Definition saved (s : state) (p : Path) : option (Buffer pixel) :=
  match files s !! p with
  | Some (NFile (FImage b)) => Some b
  | _ => None
  end.

(** The output of one run from [start], written to [out/o.png], with the
    reference rasteriser. *)
Definition output : Path := ["out"; "o.png"].

Definition render (image : Path) (title : option string) (shadow : bool)
    (corner_radius : Z) : (exn + Path) * option (Buffer pixel) :=
  let r :=
    create_browser_frame (H := Reference.raster) image output title shadow
      corner_radius start in
  (fst r, saved (snd r) output).

(** The file system once [out] is made. *)
Definition fs_out : gmap Path node := <[ ["out"] := NDir ]> fs.

(** A second state with the same images: other files, other streams. *)
Definition later : state :=
  mkState [] (<[ ["notes.txt"] := NFile FOther ]> fs_out)
    ["Created: out/o.png"] [] [Call_open ["in.png"]].

End Demo.

(** ** Further concrete inputs *)

Module Gallery.

(** A directory of two images, a text file and a subdirectory; a single
    image; an output directory that exists; the second font of the
    fallback chain. *)
Definition fs : gmap Path node :=
  {[ HELVETICA := NFile (FFont "Helvetica");
     ["pics"] := NDir;
     ["pics"; "b.JPG"] := NFile (FImage Demo.clear_source);
     ["pics"; "a.png"] := NFile (FImage Demo.opaque_source);
     ["pics"; "notes.txt"] := NFile FOther;
     ["pics"; "raw"] := NDir;
     ["solo.bmp"] := NFile (FImage Demo.opaque_source);
     ["framed"] := NDir ]}.

Definition start : state := mkState [] fs [] [] [].

Definition parse_args (input output : Path) : M Namespace.t :=
  ret (Namespace.mk input output None false CORNER_RADIUS false).

End Gallery.

(** ** The layers as values

    What each stage of [create_browser_frame] computes, as a buffer. *)

Section Layers.
Context `{Raster}.

(** The font the fallback chain of the title bar ends with. *)
Definition resolve_font (fs : gmap Path node) (size : Z) : Font :=
  match fs !! SF_PRO with
  | Some (NFile (FFont data)) => TrueType data size
  | _ =>
      match fs !! HELVETICA with
      | Some (NFile (FFont data)) => TrueType data size
      | _ => DefaultFont
      end
  end.

Definition button_box (hi_height i : Z) : box :=
  let scale := SUPERSAMPLE_SCALE in
  let button_y := hi_height / 2 in
  let button_x :=
    BUTTON_LEFT_MARGIN * scale
    + i * (BUTTON_RADIUS * scale * 2 + BUTTON_SPACING * scale) in
  (button_x - BUTTON_RADIUS * scale, button_y - BUTTON_RADIUS * scale,
   button_x + BUTTON_RADIUS * scale, button_y + BUTTON_RADIUS * scale).

Definition title_text (fs : gmap Path node) (hi_width hi_height : Z)
    (title : option string) (b : Buffer pixel) : Buffer pixel :=
  if truth title then
    let t := default "" title in
    let font := resolve_font fs (13 * SUPERSAMPLE_SCALE) in
    let bbox := text_bbox (0, 0) t font in
    text_buffer
      ((hi_width - (box_x1 bbox - box_x0 bbox)) / 2,
       (hi_height - (box_y1 bbox - box_y0 bbox)) / 2)
      t font (Pixel 80 80 80 255) b
  else b.

(** The title bar before it is downscaled. *)
Definition hi_title_bar (fs : gmap Path node) (width height corner_radius : Z)
    (title : option string) : Buffer pixel :=
  let scale := SUPERSAMPLE_SCALE in
  let hi_width := width * scale in
  let hi_height := height * scale in
  let hi_radius := corner_radius * scale in
  let b := new_buffer (hi_width, hi_height) transparent in
  let b := fill_shape
             (rounded_rectangle_cover (0, 0, hi_width, hi_height) hi_radius)
             (rgb_ink TITLE_BAR_COLOR) b in
  let b := fill_shape
             (rectangle_cover (0, hi_height - hi_radius, hi_width, hi_height))
             (rgb_ink TITLE_BAR_COLOR) b in
  let b := fill_shape (ellipse_cover (button_box hi_height 0))
             (Pixel 255 95 87 255) b in
  let b := fill_shape (ellipse_cover (button_box hi_height (0 + 1)))
             (Pixel 254 188 46 255) b in
  let b := fill_shape (ellipse_cover (button_box hi_height (0 + 1 + 1)))
             (Pixel 40 200 64 255) b in
  let b := title_text fs hi_width hi_height title b in
  fill_shape
    (line_cover (0, hi_height - scale, hi_width, hi_height - scale) scale)
    (rgb_ink BORDER_COLOR) b.

Definition title_bar_buffer (fs : gmap Path node)
    (width height corner_radius : Z) (title : option string) : Buffer pixel :=
  resize_buffer (hi_title_bar fs width height corner_radius title)
    (width, height).

(** Geometry of the frame around a [W] x [H] source. *)
Definition canvas_size (shadow : bool) (W H : Z) : Z * Z :=
  if shadow
  then (W + PADDING * 2, H + TITLE_BAR_HEIGHT + PADDING * 2)
  else (W, H + TITLE_BAR_HEIGHT).

Definition frame_offset (shadow : bool) : Z * Z :=
  if shadow then (PADDING, PADDING) else (0, 0).

Definition hi_size (shadow : bool) (W H : Z) : Z * Z :=
  (fst (canvas_size shadow W H) * SUPERSAMPLE_SCALE,
   snd (canvas_size shadow W H) * SUPERSAMPLE_SCALE).

Definition shadow_rect (W H : Z) : box :=
  let scale := SUPERSAMPLE_SCALE in
  ((PADDING + SHADOW_OFFSET) * scale,
   (PADDING + SHADOW_OFFSET) * scale,
   (PADDING + W + SHADOW_OFFSET) * scale,
   (PADDING + (H + TITLE_BAR_HEIGHT) + SHADOW_OFFSET) * scale).

Definition frame_rect_hi (shadow : bool) (W H : Z) : box :=
  let scale := SUPERSAMPLE_SCALE in
  let '(offset_x, offset_y) := frame_offset shadow in
  (offset_x * scale, offset_y * scale,
   (offset_x + W) * scale, (offset_y + (H + TITLE_BAR_HEIGHT)) * scale).

Definition content_rect_hi (shadow : bool) (W H : Z) : box :=
  let scale := SUPERSAMPLE_SCALE in
  let '(offset_x, offset_y) := frame_offset shadow in
  (offset_x * scale, (offset_y + TITLE_BAR_HEIGHT) * scale,
   (offset_x + W) * scale, (offset_y + (H + TITLE_BAR_HEIGHT)) * scale).

Definition square_top_rect (shadow : bool) (W corner_radius : Z) : box :=
  let scale := SUPERSAMPLE_SCALE in
  let '(offset_x, offset_y) := frame_offset shadow in
  (offset_x * scale, (offset_y + TITLE_BAR_HEIGHT) * scale,
   (offset_x + W) * scale,
   (offset_y + TITLE_BAR_HEIGHT + corner_radius) * scale).

(** The shadow before it is downscaled and blurred, and the shadow layer. *)
Definition hi_shadow (W H corner_radius : Z) : Buffer pixel :=
  fill_shape
    (rounded_rectangle_cover (shadow_rect W H)
       (corner_radius * SUPERSAMPLE_SCALE))
    SHADOW_COLOR (new_buffer (hi_size true W H) transparent).

Definition shadow_layer (W H corner_radius : Z) : Buffer pixel :=
  blur_buffer SHADOW_BLUR
    (resize_buffer (hi_shadow W H corner_radius) (canvas_size true W H)).

(** The white background before it is downscaled, and the background
    layer. *)
Definition hi_bg (shadow : bool) (W H corner_radius : Z) : Buffer pixel :=
  fill_shape
    (rounded_rectangle_cover (frame_rect_hi shadow W H)
       (corner_radius * SUPERSAMPLE_SCALE))
    white (new_buffer (hi_size shadow W H) transparent).

Definition bg_layer (shadow : bool) (W H corner_radius : Z) : Buffer pixel :=
  resize_buffer (hi_bg shadow W H corner_radius) (canvas_size shadow W H).

(** The content mask before it is downscaled, and the content mask. *)
Definition hi_mask (shadow : bool) (W H corner_radius : Z) : Buffer Z :=
  fill_shape (rectangle_cover (square_top_rect shadow W corner_radius)) 255
    (fill_shape
       (rounded_rectangle_cover (content_rect_hi shadow W H)
          (corner_radius * SUPERSAMPLE_SCALE))
       255 (new_buffer (hi_size shadow W H) 0)).

Definition content_mask (shadow : bool) (W H corner_radius : Z) : Buffer Z :=
  resize_buffer_L (hi_mask shadow W H corner_radius) (canvas_size shadow W H).

(** The title bar and the source, each placed on a transparent canvas. *)
Definition title_bar_layer (shadow : bool) (W H : Z) (title_bar : Buffer pixel)
  : Buffer pixel :=
  paste_buffer (new_buffer (canvas_size shadow W H) transparent) title_bar
    (Some (mask_values (ImRGBA title_bar)))
    (fst (frame_offset shadow)) (snd (frame_offset shadow)).

Definition content_layer (shadow : bool) (src : Buffer pixel) : Buffer pixel :=
  paste_buffer
    (new_buffer (canvas_size shadow (width src) (height src)) transparent)
    src None
    (fst (frame_offset shadow)) (snd (frame_offset shadow) + TITLE_BAR_HEIGHT).

(** A layer of the stack: blended over the accumulated result, or blended
    in through a mask. *)
Inductive layer : Type :=
| Over (b : Buffer pixel)
| Through (mask : Buffer Z) (b : Buffer pixel).

Definition apply_layer (acc : Buffer pixel) (l : layer) : Buffer pixel :=
  match l with
  | Over b => alpha_composite_buffer acc b
  | Through m b => paste_buffer acc b (Some (mask_values (ImL m))) 0 0
  end.

Definition composite_all (canvas : Buffer pixel) (layers : list layer)
  : Buffer pixel := fold_left apply_layer layers canvas.

(** The layer stack of section 4.5, in its order. *)
Definition layer_stack (fs : gmap Path node) (src : Buffer pixel)
    (title : option string) (shadow : bool) (corner_radius : Z) : list layer :=
  let W := width src in
  let H := height src in
  ((if shadow then [Over (shadow_layer W H corner_radius)] else [])
   ++ [Over (bg_layer shadow W H corner_radius);
       Over (title_bar_layer shadow W H
               (title_bar_buffer fs W TITLE_BAR_HEIGHT corner_radius title));
       Through (content_mask shadow W H corner_radius)
               (content_layer shadow src)])%list.

Definition final_buffer (fs : gmap Path node) (src : Buffer pixel)
    (title : option string) (shadow : bool) (corner_radius : Z)
  : Buffer pixel :=
  composite_all
    (new_buffer (canvas_size shadow (width src) (height src)) transparent)
    (layer_stack fs src title shadow corner_radius).

End Layers.

(** *** The stack as the spec words it *)

Section SpecLayers.
Context `{Raster}.

(** The last layer as section 4.5 of the spec words it, to be compared
    with the script's own: the spec has every layer, the source included,
    composited by "a standard over alpha blend of the new layer atop the
    accumulated result", the source being "clipped through the content
    mask", "with mask value as blend alpha".  The script's last step is
    [Through], a paste.  Here the content, its alpha scaled by the mask, is
    composited over the accumulated result. *)
Definition spec_masked (mask : Z) (p : pixel) : pixel :=
  Pixel (red p) (green p) (blue p) (DIV255 (alpha p * mask)).

(** The content layer of the spec's wording: every pixel clipped by the
    mask. *)
Definition spec_content_layer (mask : Buffer Z) (content : Buffer pixel)
  : Buffer pixel :=
  mkBuffer (im_size content)
    (fun x y => spec_masked (getpixel mask x y) (getpixel content x y)).

(** The output of the spec's wording: four layers, each composited over
    the result so far. *)
Definition spec_final_buffer (fs : gmap Path node) (src : Buffer pixel)
    (title : option string) (shadow : bool) (corner_radius : Z)
  : Buffer pixel :=
  let W := width src in
  let H := height src in
  composite_all
    (new_buffer (canvas_size shadow W H) transparent)
    ((if shadow then [Over (shadow_layer W H corner_radius)] else [])
     ++ [Over (bg_layer shadow W H corner_radius);
         Over (title_bar_layer shadow W H
                 (title_bar_buffer fs W TITLE_BAR_HEIGHT corner_radius title));
         Over (spec_content_layer (content_mask shadow W H corner_radius)
                 (content_layer shadow src))])%list.

End SpecLayers.

(** *** The second assembly pass alone

    [create_browser_frame] without the statements that build the buffer named
    [final]: the canvas of line 171 and the composites and pastes of lines
    197, 217, 225 and 229.  Everything else is kept as it is. *)

Section SecondPass.
Context `{Raster}.

Definition create_browser_frame_second_pass (image_path output_path : Path)
    (title : option string) (shadow : bool) (corner_radius : Z) : M Path :=
  scoped (
  let* opened := Image_open image_path in
  let* source := Image_convert_RGBA opened in
  let* (src_width, src_height) := Image_size source in
  let frame_width := src_width in
  let frame_height := src_height + TITLE_BAR_HEIGHT in
  let '(canvas_width, canvas_height, offset_x, offset_y) :=
    if shadow
    then (frame_width + PADDING * 2, frame_height + PADDING * 2,
          PADDING, PADDING)
    else (frame_width, frame_height, 0, 0) in
  let* shadow_canvas :=
    if shadow then
      let scale := SUPERSAMPLE_SCALE in
      let* hi_canvas :=
        Image_new (canvas_width * scale, canvas_height * scale)
          (InkRGBA transparent) in
      let hi_draw := hi_canvas in
      let shadow_rect :=
        ((offset_x + SHADOW_OFFSET) * scale,
         (offset_y + SHADOW_OFFSET) * scale,
         (offset_x + frame_width + SHADOW_OFFSET) * scale,
         (offset_y + frame_height + SHADOW_OFFSET) * scale) in
      let* _ := Draw_rounded_rectangle hi_draw shadow_rect
                  (corner_radius * scale) (InkRGBA SHADOW_COLOR) in
      let* shadow_canvas :=
        Image_resize hi_canvas (canvas_width, canvas_height) in
      let* shadow_canvas :=
        Image_filter_GaussianBlur shadow_canvas SHADOW_BLUR in
      ret (Some shadow_canvas)
    else ret None in
  let scale := SUPERSAMPLE_SCALE in
  let* hi_bg :=
    Image_new (canvas_width * scale, canvas_height * scale)
      (InkRGBA transparent) in
  let hi_bg_draw := hi_bg in
  let frame_rect_hi :=
    (offset_x * scale, offset_y * scale,
     (offset_x + frame_width) * scale, (offset_y + frame_height) * scale) in
  let* _ := Draw_rounded_rectangle hi_bg_draw frame_rect_hi
              (corner_radius * scale) (InkRGBA white) in
  let* bg_layer := Image_resize hi_bg (canvas_width, canvas_height) in
  let* title_bar :=
    create_title_bar_supersampled frame_width TITLE_BAR_HEIGHT corner_radius
      title in
  let content_position := (offset_x, offset_y + TITLE_BAR_HEIGHT) in
  let* hi_mask :=
    Image_new (canvas_width * scale, canvas_height * scale) (InkL 0) in
  let hi_mask_draw := hi_mask in
  let content_rect_hi :=
    (offset_x * scale, (offset_y + TITLE_BAR_HEIGHT) * scale,
     (offset_x + frame_width) * scale, (offset_y + frame_height) * scale) in
  let* _ := Draw_rounded_rectangle hi_mask_draw content_rect_hi
              (corner_radius * scale) (InkL 255) in
  let* _ := Draw_rectangle hi_mask_draw
              (offset_x * scale, (offset_y + TITLE_BAR_HEIGHT) * scale,
               (offset_x + frame_width) * scale,
               (offset_y + TITLE_BAR_HEIGHT + corner_radius) * scale)
              (InkL 255) in
  let* content_mask := Image_resize hi_mask (canvas_width, canvas_height) in
  let* content_layer :=
    Image_new (canvas_width, canvas_height) (InkRGBA transparent) in
  let* _ := Image_paste content_layer source content_position None in
  let* final_with_content :=
    Image_new (canvas_width, canvas_height) (InkRGBA transparent) in
  let* final_with_content :=
    match shadow, shadow_canvas with
    | true, Some shadow_canvas =>
        Image_alpha_composite final_with_content shadow_canvas
    | _, _ => ret final_with_content
    end in
  let* final_with_content :=
    Image_alpha_composite final_with_content bg_layer in
  let* title_bar_layer :=
    Image_new (canvas_width, canvas_height) (InkRGBA transparent) in
  let* _ := Image_paste title_bar_layer title_bar (offset_x, offset_y)
              (Some title_bar) in
  let* final_with_content :=
    Image_alpha_composite final_with_content title_bar_layer in
  let* _ := Image_paste final_with_content content_layer (0, 0)
              (Some content_mask) in
  let* _ := mkdir (parent output_path) in
  let* _ := Image_save final_with_content output_path in
  ret output_path).

End SecondPass.

(** ** Observations on a run *)

(** The coordinates the script builds from the radius and from the size of
    the source stay within [MAX_COORDINATE]: the diameter of a corner, which
    a negative radius makes negative, the lower edge of the square corners
    of the content mask, and the sides of the supersampled canvas.  Memory
    for a canvas of that size is taken for granted. *)
Definition radius_in_range (corner_radius : Z) : Prop :=
  - MAX_COORDINATE <= 2 * (corner_radius * SUPERSAMPLE_SCALE) /\
  (PADDING + TITLE_BAR_HEIGHT + corner_radius) * SUPERSAMPLE_SCALE
  <= MAX_COORDINATE.

Definition size_in_range (src : Buffer pixel) : Prop :=
  (width src + PADDING * 2) * SUPERSAMPLE_SCALE <= MAX_COORDINATE /\
  (height src + TITLE_BAR_HEIGHT + PADDING * 2) * SUPERSAMPLE_SCALE
  <= MAX_COORDINATE.

(** What a caller can observe of a run: its result, the file system and the
    two streams. *)
Definition outcome {A} (r : (exn + A) * state)
  : (exn + A) * gmap Path node * list string * list string :=
  (fst r, files (snd r), stdout (snd r), stderr (snd r)).

(** [m] only makes Pillow calls that satisfy [P], whatever the state it
    starts in and whether it returns or raises. *)
Definition calls_only {A} (P : call -> Prop) (m : M A) : Prop :=
  forall s, exists tr, calls (snd (m s)) = (calls s ++ tr)%list /\ Forall P tr.

Definition is_blur (c : call) : bool :=
  match c with Call_GaussianBlur _ _ => true | _ => false end.

Definition is_text (c : call) : bool :=
  match c with
  | Call_text _ _ | Call_textbbox _ | Call_truetype _ _ | Call_load_default =>
      true
  | _ => false
  end.

(** The radius a rounded rectangle was asked for. *)
Definition rounded_with (radius : Z) (c : call) : Prop :=
  match c with
  | Call_rounded_rectangle _ _ r => r = radius
  | _ => True
  end.

(** The call log of the title bar. *)
Definition font_calls (fs : gmap Path node) : list call :=
  Call_truetype SF_PRO (13 * SUPERSAMPLE_SCALE) ::
  match fs !! SF_PRO with
  | Some (NFile (FFont _)) => []
  | _ =>
      Call_truetype HELVETICA (13 * SUPERSAMPLE_SCALE) ::
      match fs !! HELVETICA with
      | Some (NFile (FFont _)) => []
      | _ => [Call_load_default]
      end
  end.

Definition title_bar_calls (fs : gmap Path node) (im : ref)
    (width height corner_radius : Z) (title : option string) : list call :=
  let scale := SUPERSAMPLE_SCALE in
  let hi_width := width * scale in
  let hi_height := height * scale in
  ([Call_new (hi_width, hi_height);
    Call_rounded_rectangle im (0, 0, hi_width, hi_height)
      (corner_radius * scale);
    Call_rectangle im
      (0, hi_height - corner_radius * scale, hi_width, hi_height);
    Call_ellipse im (button_box hi_height 0);
    Call_ellipse im (button_box hi_height (0 + 1));
    Call_ellipse im (button_box hi_height (0 + 1 + 1))]
   ++ (if truth title
       then font_calls fs
            ++ [Call_textbbox (default "" title);
                Call_text im (default "" title)]
       else [])
   ++ [Call_line im (0, hi_height - scale, hi_width, hi_height - scale) scale;
       Call_resize im (width, height)])%list.

(** Heap update, in a form that computes on a list written out. *)
Fixpoint update {A} (i : nat) (y : A) (l : list A) : list A :=
  match l with
  | [] => []
  | x :: l' =>
      match i with
      | O => y :: l'
      | S i' => x :: update i' y l'
      end
  end.

(** The pixels of the content area: where the source image is pasted. *)
Definition in_content (shadow : bool) (src : Buffer pixel) (x y : Z) : bool :=
  let '(offset_x, offset_y) := frame_offset shadow in
  (offset_x <=? x) && (x <? offset_x + width src) &&
  (offset_y + TITLE_BAR_HEIGHT <=? y) &&
  (y <? offset_y + TITLE_BAR_HEIGHT + height src).

(** The end of [create_browser_frame]: make the directories, save, return
    the path. *)
Definition save_output (final_with_content : ref) (output_path : Path)
  : M Path :=
  let* _ := mkdir (parent output_path) in
  let* _ := Image_save final_with_content output_path in
  ret output_path.

(** The source image can be read and the output file can be written:
    [src] is the decoded image at [image_path] and [fs'] is the file system
    once the parent directories of [output_path] are made. *)
Definition ready (s : state) (image_path output_path : Path)
    (src : Buffer pixel) (fs' : gmap Path node) : Prop :=
  files s !! image_path = Some (NFile (FImage src)) /\
  0 < width src /\ 0 < height src /\
  fs_mkdir (prefixes (parent output_path)) (files s) = inr fs' /\
  fs_is_dir fs' output_path = false.

(** The output file of an image of a directory, and its progress line. *)
Definition output_file (output_path : Path) (sfx : string) (img_path : Path)
  : Path :=
  joinpath output_path (stem img_path +:+ sfx +:+ ".png").

Definition created_line (result : Path) : string := "Created: " +:+ str result.

(** What a run of [create_browser_frame] returns and the file system it
    leaves, in the order in which the script can fail. *)
Definition frame_outcome `{Raster} (fs : gmap Path node)
    (image_path output_path : Path) (title : option string) (shadow : bool)
    (corner_radius : Z) : (exn + Path) * gmap Path node :=
  match fs !! image_path with
  | None => (inl FileNotFoundError, fs)
  | Some NDir => (inl IsADirectoryError, fs)
  | Some (NFile (FImage src)) =>
      if (0 <? width src) && (0 <? height src) then
        if corner_radius <? 0 then (inl ValueError, fs)
        else
          match fs_mkdir (prefixes (parent output_path)) fs with
          | inl e => (inl e, fs)
          | inr fs' =>
              if fs_is_dir fs' output_path then (inl IsADirectoryError, fs')
              else
                (inr output_path,
                 <[output_path :=
                     NFile (FImage (final_buffer fs src title shadow
                                      corner_radius))]> fs')
          end
      else (inl UnidentifiedImageError, fs)
  | Some (NFile _) => (inl UnidentifiedImageError, fs)
  end.

(** The files a run may touch through Pillow: it opens [image_path] and the
    two fonts, and saves to [output_path]. *)
Definition frame_call (image_path output_path : Path) (c : call) : Prop :=
  match c with
  | Call_open p => p = image_path
  | Call_truetype p _ => p = SF_PRO \/ p = HELVETICA
  | Call_save _ p => p = output_path
  | _ => True
  end.

Definition batch_call (input_path output_path : Path) (c : call) : Prop :=
  match c with
  | Call_open p =>
      p = input_path \/ (parent p = input_path /\ recognized p = true)
  | Call_truetype p _ => p = SF_PRO \/ p = HELVETICA
  | Call_save _ p => p = output_path \/ parent p = output_path
  | _ => True
  end.

(** * Running the script *)

(** ** One step of a run *)

Lemma run_bind {A B} (m : M A) (k : A -> M B) s a s' r :
  m s = (inr a, s') -> k a s' = r -> bind m k s = r.
Proof. intros Hm Hk. unfold bind. rewrite Hm. exact Hk. Qed.

Lemma run_bind_raise {A B} (m : M A) (k : A -> M B) s e s' :
  m s = (inl e, s') -> bind m k s = (inl e, s').
Proof. intros Hm. unfold bind. rewrite Hm. reflexivity. Qed.

Lemma run_scoped {A} (m : M A) s r s' :
  m (mkState [] (files s) (stdout s) (stderr s) (calls s)) = (r, s') ->
  scoped m s =
  (r, mkState (heap s) (files s') (stdout s') (stderr s') (calls s')).
Proof. intros Hm. unfold scoped. rewrite Hm. reflexivity. Qed.

Lemma insert_update {A} (i : nat) (y : A) (l : list A) :
  <[i := y]> l = update i y l.
Proof.
  revert i. induction l as [|x l IH]; intros [|i]; try reflexivity.
  cbn. f_equal. apply IH.
Qed.

Lemma size_eqb_refl a : size_eqb a a = true.
Proof. unfold size_eqb. rewrite !Z.eqb_refl. reflexivity. Qed.

Section Run.
Context `{Raster}.

Lemma run_Image_new size color s :
  0 <= fst size -> 0 <= snd size ->
  Image_new size color s =
  (inr (length (heap s)),
   mkState (heap s ++ [new_image size color]) (files s) (stdout s) (stderr s)
           (calls s ++ [Call_new size])).
Proof.
  intros Hw Hh. unfold Image_new, bind, log.
  rewrite (proj2 (Z.ltb_ge _ _) Hw), (proj2 (Z.ltb_ge _ _) Hh).
  reflexivity.
Qed.

Lemma run_draw_shape_RGBA im cover p b s :
  heap s !! im = Some (ImRGBA b) ->
  draw_shape im cover (InkRGBA p) s =
  (inr tt,
   mkState (update im (ImRGBA (fill_shape cover p b)) (heap s)) (files s)
           (stdout s) (stderr s) (calls s)).
Proof.
  intros Hb. unfold draw_shape, bind, load. rewrite Hb.
  rewrite <- insert_update. reflexivity.
Qed.

Lemma run_draw_shape_L im cover v b s :
  heap s !! im = Some (ImL b) ->
  draw_shape im cover (InkL v) s =
  (inr tt,
   mkState (update im (ImL (fill_shape cover v b)) (heap s)) (files s)
           (stdout s) (stderr s) (calls s)).
Proof.
  intros Hb. unfold draw_shape, bind, load. rewrite Hb.
  rewrite <- insert_update. reflexivity.
Qed.

Lemma run_Draw_rounded_rectangle im xy radius p b s :
  valid_box xy = true -> 0 <= radius ->
  heap s !! im = Some (ImRGBA b) ->
  Draw_rounded_rectangle im xy radius (InkRGBA p) s =
  (inr tt,
   mkState (update im (ImRGBA (fill_shape (rounded_rectangle_cover xy radius) p b))
              (heap s))
           (files s) (stdout s) (stderr s)
           (calls s ++ [Call_rounded_rectangle im xy radius])).
Proof.
  intros Hxy Hr Hb. unfold Draw_rounded_rectangle, bind at 1, log.
  rewrite Hxy, (proj2 (Z.ltb_ge _ _) Hr).
  rewrite (run_draw_shape_RGBA _ _ _ b) by exact Hb. reflexivity.
Qed.

Lemma run_Draw_rounded_rectangle_L im xy radius v b s :
  valid_box xy = true -> 0 <= radius ->
  heap s !! im = Some (ImL b) ->
  Draw_rounded_rectangle im xy radius (InkL v) s =
  (inr tt,
   mkState (update im (ImL (fill_shape (rounded_rectangle_cover xy radius) v b))
              (heap s))
           (files s) (stdout s) (stderr s)
           (calls s ++ [Call_rounded_rectangle im xy radius])).
Proof.
  intros Hxy Hr Hb. unfold Draw_rounded_rectangle, bind at 1, log.
  rewrite Hxy, (proj2 (Z.ltb_ge _ _) Hr).
  rewrite (run_draw_shape_L _ _ _ b) by exact Hb. reflexivity.
Qed.

Lemma run_Draw_rectangle im xy p b s :
  valid_box xy = true ->
  heap s !! im = Some (ImRGBA b) ->
  Draw_rectangle im xy (InkRGBA p) s =
  (inr tt,
   mkState (update im (ImRGBA (fill_shape (rectangle_cover xy) p b)) (heap s))
           (files s) (stdout s) (stderr s)
           (calls s ++ [Call_rectangle im xy])).
Proof.
  intros Hxy Hb. unfold Draw_rectangle, bind at 1, log. rewrite Hxy.
  rewrite (run_draw_shape_RGBA _ _ _ b) by exact Hb. reflexivity.
Qed.

Lemma run_Draw_rectangle_L im xy v b s :
  valid_box xy = true ->
  heap s !! im = Some (ImL b) ->
  Draw_rectangle im xy (InkL v) s =
  (inr tt,
   mkState (update im (ImL (fill_shape (rectangle_cover xy) v b)) (heap s))
           (files s) (stdout s) (stderr s)
           (calls s ++ [Call_rectangle im xy])).
Proof.
  intros Hxy Hb. unfold Draw_rectangle, bind at 1, log. rewrite Hxy.
  rewrite (run_draw_shape_L _ _ _ b) by exact Hb. reflexivity.
Qed.

Lemma run_Draw_rounded_rectangle_raise im xy radius fill s :
  valid_box xy = true -> radius < 0 ->
  Draw_rounded_rectangle im xy radius fill s =
  (inl ValueError,
   mkState (heap s) (files s) (stdout s) (stderr s)
           (calls s ++ [Call_rounded_rectangle im xy radius])).
Proof.
  intros Hxy Hr. unfold Draw_rounded_rectangle, bind, log.
  rewrite Hxy, (proj2 (Z.ltb_lt _ _) Hr). reflexivity.
Qed.

Lemma run_Draw_rectangle_raise im xy fill s :
  valid_box xy = false ->
  Draw_rectangle im xy fill s =
  (inl ValueError,
   mkState (heap s) (files s) (stdout s) (stderr s)
           (calls s ++ [Call_rectangle im xy])).
Proof.
  intros Hxy. unfold Draw_rectangle, bind at 1, log. rewrite Hxy. reflexivity.
Qed.

Lemma run_Draw_ellipse im xy p b s :
  valid_box xy = true ->
  heap s !! im = Some (ImRGBA b) ->
  Draw_ellipse im xy (InkRGBA p) s =
  (inr tt,
   mkState (update im (ImRGBA (fill_shape (ellipse_cover xy) p b)) (heap s))
           (files s) (stdout s) (stderr s)
           (calls s ++ [Call_ellipse im xy])).
Proof.
  intros Hxy Hb. unfold Draw_ellipse, bind at 1, log. rewrite Hxy.
  rewrite (run_draw_shape_RGBA _ _ _ b) by exact Hb. reflexivity.
Qed.

Lemma run_Draw_line im xy p w b s :
  heap s !! im = Some (ImRGBA b) ->
  Draw_line im xy (InkRGBA p) w s =
  (inr tt,
   mkState (update im (ImRGBA (fill_shape (line_cover xy w) p b)) (heap s))
           (files s) (stdout s) (stderr s)
           (calls s ++ [Call_line im xy w])).
Proof.
  intros Hb. unfold Draw_line, bind at 1, log.
  rewrite (run_draw_shape_RGBA _ _ _ b) by exact Hb. reflexivity.
Qed.

Lemma run_Draw_text im xy text fill font b s :
  heap s !! im = Some (ImRGBA b) ->
  Draw_text im xy text fill font s =
  (inr tt,
   mkState (update im (ImRGBA (text_buffer xy text font fill b)) (heap s))
           (files s) (stdout s) (stderr s)
           (calls s ++ [Call_text im text])).
Proof.
  intros Hb. unfold Draw_text, load_RGBA, bind, log, load. cbn.
  rewrite Hb. rewrite <- insert_update. reflexivity.
Qed.

Lemma run_Image_size im i s :
  heap s !! im = Some i -> Image_size im s = (inr (image_size i), s).
Proof. intros Hi. unfold Image_size, bind, load. rewrite Hi. reflexivity. Qed.

Lemma run_Image_convert_RGBA im b s :
  heap s !! im = Some (ImRGBA b) ->
  Image_convert_RGBA im s =
  (inr (length (heap s)),
   mkState (heap s ++ [ImRGBA b]) (files s) (stdout s) (stderr s)
           (calls s ++ [Call_convert im])).
Proof.
  intros Hb. unfold Image_convert_RGBA, load_RGBA, bind, log, load. cbn.
  rewrite Hb. reflexivity.
Qed.

Lemma run_Image_resize im size i s :
  1 <= fst size -> 1 <= snd size ->
  heap s !! im = Some i ->
  Image_resize im size s =
  (inr (length (heap s)),
   mkState (heap s ++ [resize_image i size]) (files s) (stdout s) (stderr s)
           (calls s ++ [Call_resize im size])).
Proof.
  intros Hw Hh Hi. unfold Image_resize, bind, log, load. cbn. rewrite Hi.
  rewrite (proj2 (Z.ltb_ge _ _) Hw), (proj2 (Z.ltb_ge _ _) Hh).
  reflexivity.
Qed.

Lemma run_Image_filter_GaussianBlur im radius b s :
  heap s !! im = Some (ImRGBA b) ->
  Image_filter_GaussianBlur im radius s =
  (inr (length (heap s)),
   mkState (heap s ++ [ImRGBA (blur_buffer radius b)]) (files s) (stdout s)
           (stderr s) (calls s ++ [Call_GaussianBlur im radius])).
Proof.
  intros Hb. unfold Image_filter_GaussianBlur, load_RGBA, bind, log, load.
  cbn. rewrite Hb. reflexivity.
Qed.

Lemma run_Image_alpha_composite im1 im2 b1 b2 s :
  heap s !! im1 = Some (ImRGBA b1) ->
  heap s !! im2 = Some (ImRGBA b2) ->
  im_size b1 = im_size b2 ->
  Image_alpha_composite im1 im2 s =
  (inr (length (heap s)),
   mkState (heap s ++ [ImRGBA (alpha_composite_buffer b1 b2)]) (files s)
           (stdout s) (stderr s) (calls s ++ [Call_alpha_composite im1 im2])).
Proof.
  intros H1 H2 Hsz. unfold Image_alpha_composite, load_RGBA, bind, log, load.
  cbn. rewrite H1. cbn. rewrite H2. cbn. rewrite Hsz, size_eqb_refl.
  reflexivity.
Qed.

Lemma run_Image_paste dst src xy d b s :
  heap s !! dst = Some (ImRGBA d) ->
  heap s !! src = Some (ImRGBA b) ->
  Image_paste dst src xy None s =
  (inr tt,
   mkState (update dst (ImRGBA (paste_buffer d b None (fst xy) (snd xy))) (heap s))
           (files s) (stdout s) (stderr s)
           (calls s ++ [Call_paste dst src xy None])).
Proof.
  intros Hd Hb. unfold Image_paste, load_RGBA, bind, log, load. cbn.
  rewrite Hd. cbn. rewrite Hb. rewrite <- insert_update. reflexivity.
Qed.

Lemma run_Image_paste_mask dst src xy mr d b m s :
  heap s !! dst = Some (ImRGBA d) ->
  heap s !! src = Some (ImRGBA b) ->
  heap s !! mr = Some m ->
  image_size m = im_size b ->
  Image_paste dst src xy (Some mr) s =
  (inr tt,
   mkState (update dst (ImRGBA (paste_buffer d b (Some (mask_values m))
                               (fst xy) (snd xy))) (heap s))
           (files s) (stdout s) (stderr s)
           (calls s ++ [Call_paste dst src xy (Some mr)])).
Proof.
  intros Hd Hb Hm Hsz. unfold Image_paste, load_RGBA, bind, log, load. cbn.
  rewrite Hd. cbn. rewrite Hb. cbn. rewrite Hm. cbn.
  rewrite Hsz, size_eqb_refl. rewrite <- insert_update. reflexivity.
Qed.

End Run.

Section RunTitle.
Context `{Raster}.

Lemma run_hex_to_rgb c rgb s :
  parse_hex c = inr rgb -> hex_to_rgb c s = (inr rgb, s).
Proof. intros Hc. unfold hex_to_rgb. rewrite Hc. reflexivity. Qed.

Lemma run_font (s : state) :
  try_except_OSError (ImageFont_truetype SF_PRO (13 * SUPERSAMPLE_SCALE))
    (try_except_OSError (ImageFont_truetype HELVETICA (13 * SUPERSAMPLE_SCALE))
       ImageFont_load_default) s =
  (inr (resolve_font (files s) (13 * SUPERSAMPLE_SCALE)),
   mkState (heap s) (files s) (stdout s) (stderr s)
           (calls s ++ font_calls (files s))).
Proof.
  destruct s as [hp fs so se cl].
  unfold try_except_OSError, ImageFont_truetype, ImageFont_load_default,
    resolve_font, font_calls, bind, log, ret, raise.
  cbn [files calls heap stdout stderr].
  destruct (fs !! SF_PRO) as [[|[]]|];
    cbn [is_OSError heap files stdout stderr calls];
    try reflexivity;
    destruct (fs !! HELVETICA) as [[|[]]|];
    cbn [is_OSError heap files stdout stderr calls];
    rewrite <- ?app_assoc; reflexivity.
Qed.

Lemma run_Draw_textbbox xy text font s :
  Draw_textbbox xy text font s =
  (inr (text_bbox xy text font),
   mkState (heap s) (files s) (stdout s) (stderr s)
           (calls s ++ [Call_textbbox text])).
Proof. reflexivity. Qed.

End RunTitle.

Section RunFiles.
Context `{Raster}.

Lemma run_Image_open p b s :
  files s !! p = Some (NFile (FImage b)) ->
  0 < width b -> 0 < height b ->
  Image_open p s =
  (inr (length (heap s)),
   mkState (heap s ++ [ImRGBA b]) (files s) (stdout s) (stderr s)
           (calls s ++ [Call_open p])).
Proof.
  intros Hp Hw Hh. destruct s as [hp fs so se cl].
  cbn [heap files stdout stderr calls] in *.
  unfold Image_open, bind, log. cbn [heap files stdout stderr calls].
  rewrite Hp, (proj2 (Z.ltb_lt _ _) Hw), (proj2 (Z.ltb_lt _ _) Hh).
  reflexivity.
Qed.

Lemma run_mkdir p fs' s :
  fs_mkdir (prefixes p) (files s) = inr fs' ->
  mkdir p s = (inr tt, mkState (heap s) fs' (stdout s) (stderr s) (calls s)).
Proof. intros Hfs. unfold mkdir. rewrite Hfs. reflexivity. Qed.

Lemma run_Image_save im p b s :
  heap s !! im = Some (ImRGBA b) ->
  fs_is_dir (files s) p = false ->
  fs_is_dir (files s) (parent p) = true ->
  Image_save im p s =
  (inr tt,
   mkState (heap s) (<[p := NFile (FImage b)]> (files s)) (stdout s)
           (stderr s) (calls s ++ [Call_save im p])).
Proof.
  intros Hb Hp Hpp. destruct s as [hp fs so se cl].
  cbn [heap files stdout stderr calls] in *.
  unfold Image_save, load_RGBA, bind, log, load, ret.
  cbn [heap files stdout stderr calls]. rewrite Hb.
  cbn [heap files stdout stderr calls]. rewrite Hp, Hpp. reflexivity.
Qed.

End RunFiles.

Lemma lookup_snoc {A} (l : list A) (x : A) :
  ((l ++ [x])%list : list A) !! length l = Some x.
Proof. apply list_lookup_middle. reflexivity. Qed.

Lemma insert_snoc {A} (l : list A) (x y : A) :
  update (length l) y (l ++ [x])%list = (l ++ [y])%list.
Proof.
  induction l as [|a l IH]; [reflexivity|].
  change (a :: update (length l) y (l ++ [x])%list = a :: (l ++ [y])%list).
  f_equal. exact IH.
Qed.

Lemma length_snoc {A} (l : list A) (x : A) : length (l ++ [x])%list = S (length l).
Proof. rewrite length_app. cbn. lia. Qed.

Ltac constants :=
  unfold SUPERSAMPLE_SCALE, PADDING, TITLE_BAR_HEIGHT, SHADOW_OFFSET,
    BUTTON_RADIUS, BUTTON_SPACING, BUTTON_LEFT_MARGIN in *.

Ltac arith := unfold width, height; cbn [fst snd im_size]; constants; lia.

Ltac box_ok :=
  unfold valid_box; apply andb_true_intro; split; apply Z.leb_le; arith.

Ltac simp :=
  cbn [heap files stdout stderr calls length app update fst snd
       image_size im_size new_image resize_image
       for_each enumerate enumerate_from BUTTON_COLORS];
  rewrite ?insert_snoc.

Ltac heap_ok := first [reflexivity | apply lookup_snoc].

Ltac run_op :=
  lazymatch goal with
  | |- Image_new _ _ _ = _ => eapply run_Image_new; [arith | arith]
  | |- Draw_rounded_rectangle _ _ _ (InkRGBA _) _ = _ =>
      eapply run_Draw_rounded_rectangle; [box_ok | arith | heap_ok]
  | |- Draw_rounded_rectangle _ _ _ (InkL _) _ = _ =>
      eapply run_Draw_rounded_rectangle_L; [box_ok | arith | heap_ok]
  | |- Draw_rectangle _ _ (InkRGBA _) _ = _ =>
      eapply run_Draw_rectangle; [box_ok | heap_ok]
  | |- Draw_rectangle _ _ (InkL _) _ = _ =>
      eapply run_Draw_rectangle_L; [box_ok | heap_ok]
  | |- Draw_ellipse _ _ _ _ = _ => eapply run_Draw_ellipse; [box_ok | heap_ok]
  | |- Draw_line _ _ _ _ _ = _ => eapply run_Draw_line; heap_ok
  | |- hex_to_rgb _ _ = _ => eapply run_hex_to_rgb; vm_compute; reflexivity
  | |- try_except_OSError _ _ _ = _ => eapply run_font
  | |- Draw_textbbox _ _ _ _ = _ => eapply run_Draw_textbbox
  | |- Draw_text _ _ _ _ _ _ = _ => eapply run_Draw_text; heap_ok
  | |- Image_open _ _ = _ => eapply run_Image_open; [eassumption | arith | arith]
  | |- mkdir _ _ = _ => eapply run_mkdir; eassumption
  | |- Image_save _ _ _ = _ =>
      eapply run_Image_save; [heap_ok | eassumption | eassumption]
  | |- Image_size _ _ = _ => eapply run_Image_size; heap_ok
  | |- Image_convert_RGBA _ _ = _ => eapply run_Image_convert_RGBA; heap_ok
  | |- Image_resize _ _ _ = _ =>
      eapply run_Image_resize; [arith | arith | heap_ok]
  | |- Image_filter_GaussianBlur _ _ _ = _ =>
      eapply run_Image_filter_GaussianBlur; heap_ok
  | |- Image_alpha_composite _ _ _ = _ =>
      eapply run_Image_alpha_composite; [heap_ok | heap_ok | reflexivity]
  | |- Image_paste _ _ _ None _ = _ =>
      eapply run_Image_paste; [heap_ok | heap_ok]
  | |- Image_paste _ _ _ (Some _) _ = _ =>
      eapply run_Image_paste_mask; [heap_ok | heap_ok | heap_ok | reflexivity]
  end.

Ltac run_with extra :=
  simp;
  lazymatch goal with
  | |- bind _ _ _ = _ => eapply run_bind; [ run_with extra | run_with extra ]
  | |- ret _ _ = _ => reflexivity
  | |- create_title_bar_supersampled _ _ _ _ _ = _ => extra
  | |- _ => run_op
  end.

Ltac run := run_with fail.

Section RunTitleBar.
Context `{Raster}.

Lemma run_create_title_bar_supersampled width height corner_radius title s :
  1 <= width -> 1 <= height -> 0 <= corner_radius ->
  create_title_bar_supersampled width height corner_radius title s =
  (inr (S (length (heap s))),
   mkState
     (heap s ++
      [ImRGBA (hi_title_bar (files s) width height corner_radius title);
       ImRGBA (title_bar_buffer (files s) width height corner_radius title)])
     (files s) (stdout s) (stderr s)
     (calls s
      ++ title_bar_calls (files s) (length (heap s)) width height
           corner_radius title)).
Proof.
  intros Hw Hh Hr. destruct s as [hp fs so se cl].
  unfold create_title_bar_supersampled, title_bar_buffer, hi_title_bar,
    title_text, title_bar_calls, button_box.
  destruct (truth title); (etransitivity; [run|]);
    simp; rewrite ?length_snoc, <- ?app_assoc; reflexivity.
Qed.
End RunTitleBar.

Ltac run_title_bar :=
  eapply run_create_title_bar_supersampled; [arith | arith | arith].

Ltac run_frame := run_with run_title_bar.

(** ** Directories *)

Lemma fs_mkdir_spec dirs : forall fs fs',
  fs_mkdir dirs fs = inr fs' ->
  (forall q n, fs !! q = Some n -> fs' !! q = Some n) /\
  (forall d, In d dirs -> fs' !! d = Some NDir).
Proof.
  induction dirs as [|d rest IH]; intros fs fs' Hmk; cbn in Hmk.
  - injection Hmk as <-. split; [auto | intros d []].
  - destruct (fs !! d) as [[|f]|] eqn:Hd; [| destruct rest; discriminate |].
    + destruct (IH _ _ Hmk) as [Hkeep Hdirs]. split; [exact Hkeep|].
      intros d' [<-|Hin]; [apply Hkeep; exact Hd | apply Hdirs; exact Hin].
    + destruct (IH _ _ Hmk) as [Hkeep Hdirs]. split.
      * intros q n Hq. apply Hkeep. rewrite lookup_insert_ne; [exact Hq|].
        intros ->. congruence.
      * intros d' [<-|Hin]; [| apply Hdirs; exact Hin].
        apply Hkeep. apply lookup_insert_eq.
Qed.

Lemma prefixes_self (p : Path) : p <> [] -> In p (prefixes p).
Proof.
  induction p as [|c p IH]; intros Hne; [congruence|].
  destruct p as [|c' p'].
  - left. reflexivity.
  - right. apply in_map. apply IH. discriminate.
Qed.

Lemma fs_mkdir_is_dir p fs fs' :
  fs_mkdir (prefixes p) fs = inr fs' -> fs_is_dir fs' p = true.
Proof.
  intros Hmk. destruct p as [|c p]; [reflexivity|].
  apply fs_mkdir_spec in Hmk as [_ Hdirs].
  unfold fs_is_dir. rewrite (Hdirs (c :: p)); [reflexivity|].
  apply prefixes_self. discriminate.
Qed.

(** ** A whole run of [create_browser_frame] *)

Ltac finish_run :=
  simp; rewrite <- ?app_assoc; reflexivity.

Section RunFrame.
Context `{Raster}.

Lemma run_create_browser_frame image_path output_path title shadow
    corner_radius src fs' s :
  files s !! image_path = Some (NFile (FImage src)) ->
  0 < width src -> 0 < height src -> 0 <= corner_radius ->
  fs_mkdir (prefixes (parent output_path)) (files s) = inr fs' ->
  fs_is_dir fs' output_path = false ->
  exists tr,
    create_browser_frame image_path output_path title shadow corner_radius s =
    (inr output_path,
     mkState (heap s)
       (<[output_path :=
            NFile (FImage (final_buffer (files s) src title shadow
                             corner_radius))]> fs')
       (stdout s) (stderr s) (calls s ++ tr)).
Proof.
  intros Hsrc Hw Hh Hr Hmk Hout.
  pose proof (fs_mkdir_is_dir _ _ _ Hmk) as Hpar.
  destruct s as [hp fs so se cl]. destruct src as [[W Ht] px].
  unfold width, height in Hw, Hh. cbn [im_size fst snd files] in *.
  unfold create_browser_frame.
  destruct shadow; eexists;
    (etransitivity; [eapply run_scoped; run_frame | finish_run]).
Qed.

Lemma run_create_browser_frame_second_pass image_path output_path title shadow
    corner_radius src fs' s :
  files s !! image_path = Some (NFile (FImage src)) ->
  0 < width src -> 0 < height src -> 0 <= corner_radius ->
  fs_mkdir (prefixes (parent output_path)) (files s) = inr fs' ->
  fs_is_dir fs' output_path = false ->
  exists tr,
    create_browser_frame_second_pass image_path output_path title shadow
      corner_radius s =
    (inr output_path,
     mkState (heap s)
       (<[output_path :=
            NFile (FImage (final_buffer (files s) src title shadow
                             corner_radius))]> fs')
       (stdout s) (stderr s) (calls s ++ tr)).
Proof.
  intros Hsrc Hw Hh Hr Hmk Hout.
  pose proof (fs_mkdir_is_dir _ _ _ Hmk) as Hpar.
  destruct s as [hp fs so se cl]. destruct src as [[W Ht] px].
  unfold width, height in Hw, Hh. cbn [im_size fst snd files] in *.
  unfold create_browser_frame_second_pass.
  destruct shadow; eexists;
    (etransitivity; [eapply run_scoped; run_frame | finish_run]).
Qed.

End RunFrame.

(** ** Pixel arithmetic *)

(** Division by 255 as Pillow does it is exact on the products of bytes. *)
Lemma DIV255_bytes c : byte_range c -> DIV255 (c * 255) = c.
Proof.
  intros Hc. unfold byte_range in Hc. unfold DIV255, SHIFTFORDIV255.
  rewrite !Z.shiftr_div_pow2 by lia. change (2 ^ 8) with 256.
  destruct (Z.le_gt_cases c 128) as [Hlow|Hhigh].
  - replace ((c * 255 + 128) / 256) with c
      by (apply Z.div_unique with (r := 128 - c); lia).
    symmetry. apply Z.div_unique with (r := 128); lia.
  - replace ((c * 255 + 128) / 256) with (c - 1)
      by (apply Z.div_unique with (r := 256 + 128 - c); lia).
    symmetry. apply Z.div_unique with (r := 127); lia.
Qed.

Lemma BLEND8_255 out inp : byte_range inp -> BLEND8 255 out inp = inp.
Proof.
  intros Hi. unfold BLEND8.
  replace (out * (255 - 255) + inp * 255) with (inp * 255) by lia.
  apply DIV255_bytes. exact Hi.
Qed.

Lemma BLEND8_0 out inp : byte_range out -> BLEND8 0 out inp = out.
Proof.
  intros Ho. unfold BLEND8.
  replace (out * (255 - 0) + inp * 0) with (out * 255) by lia.
  apply DIV255_bytes. exact Ho.
Qed.

(** Blending two opaque values gives an opaque value, whatever the mask. *)
Lemma BLEND8_opaque mask : BLEND8 mask 255 255 = 255.
Proof.
  unfold BLEND8.
  replace (255 * (255 - mask) + 255 * mask) with 65025 by lia.
  reflexivity.
Qed.

Lemma blend_255 out inp : valid_pixel inp -> blend 255 out inp = inp.
Proof.
  intros (Hr & Hg & Hb & Ha). destruct inp as [r g b a]. unfold blend.
  cbn [red green blue alpha] in *.
  rewrite !BLEND8_255 by assumption. reflexivity.
Qed.

Lemma blend_0 out inp : valid_pixel out -> blend 0 out inp = out.
Proof.
  intros (Hr & Hg & Hb & Ha). destruct out as [r g b a]. unfold blend.
  cbn [red green blue alpha] in *.
  rewrite !BLEND8_0 by assumption. reflexivity.
Qed.

Lemma alpha_blend_255 out inp :
  alpha inp = 255 -> alpha (blend 255 out inp) = 255.
Proof.
  intros Hi. unfold blend. cbn [alpha]. rewrite Hi. unfold BLEND8.
  replace (alpha out * (255 - 255) + 255 * 255) with 65025 by lia.
  reflexivity.
Qed.

Lemma alpha_blend_clear out :
  alpha (blend 255 out transparent) = 0.
Proof.
  unfold blend, transparent. cbn [alpha]. unfold BLEND8.
  replace (alpha out * (255 - 255) + 0 * 255) with 0 by lia.
  reflexivity.
Qed.

Lemma alpha_blend_opaque mask out inp :
  alpha out = 255 -> alpha inp = 255 -> alpha (blend mask out inp) = 255.
Proof.
  intros Ho Hi. unfold blend. cbn [alpha]. rewrite Ho, Hi.
  apply BLEND8_opaque.
Qed.

(** An opaque layer hides what is under it. *)
Lemma over_opaque dst dst' src :
  alpha src = 255 -> over dst src = over dst' src.
Proof.
  intros Hs. unfold over. rewrite Hs. cbn [Z.eqb].
  replace (alpha dst * (255 - 255)) with 0 by lia.
  replace (alpha dst' * (255 - 255)) with 0 by lia.
  change (255 * 255 + 0) with 65025.
  change (255 * 255 * 255 * Z.shiftl 1 PRECISION_BITS / 65025) with 32640.
  change (255 * Z.shiftl 1 PRECISION_BITS - 32640) with 0.
  rewrite !Z.mul_0_r. reflexivity.
Qed.

(** A layer over an opaque pixel leaves it opaque. *)
(** Over an opaque source pixel nothing of the destination is left. *)
Lemma over_opaque_channel c :
  byte_range c ->
  Z.shiftr
    (SHIFTFORDIV255 (c * 32640 + 0 * 0 + Z.shiftl 128 PRECISION_BITS))
    PRECISION_BITS = c.
Proof.
  intros Hc.
  assert (Hall : forallb
            (fun c =>
               Z.shiftr
                 (SHIFTFORDIV255
                    (c * 32640 + 0 * 0 + Z.shiftl 128 PRECISION_BITS))
                 PRECISION_BITS =? c)
            (seqZ 0 256) = true) by (vm_compute; reflexivity).
  rewrite forallb_forall in Hall. apply Z.eqb_eq, Hall.
  apply list_elem_of_In, elem_of_seqZ. unfold byte_range in Hc. lia.
Qed.

Lemma over_opaque_source dst src :
  valid_pixel src -> alpha src = 255 -> over dst src = src.
Proof.
  intros (Hr & Hg & Hb & _) Hs. rewrite (over_opaque dst transparent src Hs).
  destruct src as [r g b a]. cbn [alpha red green blue] in *. subst a.
  unfold over. cbn [alpha red green blue Z.eqb].
  change (255 * 255 + 0 * (255 - 255)) with 65025.
  change (255 * 255 * 255 * Z.shiftl 1 PRECISION_BITS / 65025) with 32640.
  change (255 * Z.shiftl 1 PRECISION_BITS - 32640) with 0.
  rewrite !over_opaque_channel by assumption. reflexivity.
Qed.

Lemma alpha_over_opaque dst src :
  alpha dst = 255 -> alpha (over dst src) = 255.
Proof.
  intros Hd. unfold over. destruct (alpha src =? 0); [exact Hd|].
  cbn [alpha]. rewrite Hd.
  replace (alpha src * 255 + 255 * (255 - alpha src) + 128) with 65153 by lia.
  reflexivity.
Qed.

Lemma alpha_over_opaque_src dst src :
  alpha src = 255 -> alpha (over dst src) = 255.
Proof.
  intros Hs. unfold over. rewrite Hs. cbn [Z.eqb alpha].
  replace (255 * 255 + alpha dst * (255 - 255) + 128) with 65153 by lia.
  reflexivity.
Qed.

(** ** The calls a computation can make *)

Section CallsOnly.
Context (P : call -> Prop).

Lemma calls_only_quiet {A} (m : M A) :
  (forall s, calls (snd (m s)) = calls s) -> calls_only P m.
Proof.
  intros Hq s. exists []. rewrite Hq, app_nil_r. split; [reflexivity|].
  constructor.
Qed.

Lemma calls_only_ret {A} (a : A) : calls_only P (ret a).
Proof. apply calls_only_quiet. reflexivity. Qed.

Lemma calls_only_raise {A} (e : exn) : calls_only P (@raise A e).
Proof. apply calls_only_quiet. reflexivity. Qed.

Lemma calls_only_log (c : call) : P c -> calls_only P (log c).
Proof.
  intros Hc s. exists [c]. split; [reflexivity|]. constructor; [exact Hc|].
  constructor.
Qed.

Lemma calls_only_bind {A B} (m : M A) (k : A -> M B) :
  calls_only P m -> (forall a, calls_only P (k a)) -> calls_only P (bind m k).
Proof.
  intros Hm Hk s. unfold bind. destruct (Hm s) as (tr & Htr & HP).
  destruct (m s) as [[e|a] s1]; cbn [snd] in *.
  - exists tr. split; assumption.
  - destruct (Hk a s1) as (tr' & Htr' & HP'). exists (tr ++ tr')%list.
    rewrite Htr', Htr, app_assoc. split; [reflexivity|].
    apply Forall_app. split; assumption.
Qed.

Lemma calls_only_try {A} (m h : M A) :
  calls_only P m -> calls_only P h -> calls_only P (try_except_OSError m h).
Proof.
  intros Hm Hh s. unfold try_except_OSError.
  destruct (Hm s) as (tr & Htr & HP).
  destruct (m s) as [[e|a] s1]; cbn [snd] in *.
  - destruct (is_OSError e); cbn [snd].
    + destruct (Hh s1) as (tr' & Htr' & HP'). exists (tr ++ tr')%list.
      rewrite Htr', Htr, app_assoc. split; [reflexivity|].
      apply Forall_app. split; assumption.
    + exists tr. split; assumption.
  - exists tr. split; assumption.
Qed.

Lemma calls_only_scoped {A} (m : M A) : calls_only P m -> calls_only P (scoped m).
Proof.
  intros Hm s. unfold scoped.
  destruct (Hm (mkState [] (files s) (stdout s) (stderr s) (calls s)))
    as (tr & Htr & HP).
  destruct (m _) as [r s1]. cbn [snd calls] in *. exists tr.
  split; assumption.
Qed.

Lemma calls_only_for_each {A} (l : list A) (body : A -> M unit) :
  (forall a, calls_only P (body a)) -> calls_only P (for_each l body).
Proof.
  intros Hb. induction l as [|a l IH]; cbn [for_each].
  - apply calls_only_ret.
  - apply calls_only_bind; [apply Hb | intros _; exact IH].
Qed.

Lemma calls_only_lift {A} (r : exn + A) : calls_only P (lift r).
Proof. destruct r; [apply calls_only_raise | apply calls_only_ret]. Qed.

Lemma calls_only_load r : calls_only P (load r).
Proof.
  apply calls_only_quiet. intros s. unfold load.
  destruct (heap s !! r); reflexivity.
Qed.

Lemma calls_only_load_RGBA r : calls_only P (load_RGBA r).
Proof.
  apply calls_only_bind; [apply calls_only_load|].
  intros [b|b]; [apply calls_only_ret | apply calls_only_raise].
Qed.

Lemma calls_only_store r im : calls_only P (store r im).
Proof. apply calls_only_quiet. reflexivity. Qed.

Lemma calls_only_alloc im : calls_only P (alloc im).
Proof. apply calls_only_quiet. reflexivity. Qed.

Lemma calls_only_mkdir p : calls_only P (mkdir p).
Proof.
  apply calls_only_quiet. intros s. unfold mkdir.
  destruct (fs_mkdir _ _); reflexivity.
Qed.

Lemma calls_only_hex_to_rgb c : calls_only P (hex_to_rgb c).
Proof. apply calls_only_lift. Qed.

End CallsOnly.

Section CallsOnlyPillow.
Context `{Raster} (P : call -> Prop).

Lemma calls_only_draw_shape im cover fill : calls_only P (draw_shape im cover fill).
Proof.
  apply calls_only_bind; [apply calls_only_load|].
  intros [b|b]; destruct fill;
    first [apply calls_only_store | apply calls_only_raise].
Qed.

Lemma calls_only_Image_open p :
  P (Call_open p) -> calls_only P (Image_open p).
Proof.
  intros Hc. apply calls_only_bind; [apply calls_only_log; exact Hc|].
  intros _. apply calls_only_quiet. intros s.
  destruct (files s !! p) as [[|[b| |]]|]; try reflexivity.
  destruct ((0 <? width b) && (0 <? height b)); reflexivity.
Qed.

Lemma calls_only_Image_convert_RGBA im :
  P (Call_convert im) -> calls_only P (Image_convert_RGBA im).
Proof.
  intros Hc. apply calls_only_bind; [apply calls_only_log; exact Hc|].
  intros _. apply calls_only_bind; [apply calls_only_load_RGBA|].
  intros b. apply calls_only_alloc.
Qed.

Lemma calls_only_Image_size im : calls_only P (Image_size im).
Proof.
  apply calls_only_bind; [apply calls_only_load|].
  intros i. apply calls_only_ret.
Qed.

Lemma calls_only_Image_new size color :
  P (Call_new size) -> calls_only P (Image_new size color).
Proof.
  intros Hc. apply calls_only_bind; [apply calls_only_log; exact Hc|].
  intros _. destruct (_ || _); [apply calls_only_raise | apply calls_only_alloc].
Qed.

Lemma calls_only_Draw_rounded_rectangle im xy radius fill :
  P (Call_rounded_rectangle im xy radius) ->
  calls_only P (Draw_rounded_rectangle im xy radius fill).
Proof.
  intros Hc. apply calls_only_bind; [apply calls_only_log; exact Hc|].
  intros _. destruct (valid_box xy); [| apply calls_only_raise].
  destruct (radius <? 0);
    [apply calls_only_raise | apply calls_only_draw_shape].
Qed.

Lemma calls_only_Draw_rectangle im xy fill :
  P (Call_rectangle im xy) -> calls_only P (Draw_rectangle im xy fill).
Proof.
  intros Hc. apply calls_only_bind; [apply calls_only_log; exact Hc|].
  intros _. destruct (valid_box xy);
    [apply calls_only_draw_shape | apply calls_only_raise].
Qed.

Lemma calls_only_Draw_ellipse im xy fill :
  P (Call_ellipse im xy) -> calls_only P (Draw_ellipse im xy fill).
Proof.
  intros Hc. apply calls_only_bind; [apply calls_only_log; exact Hc|].
  intros _. destruct (valid_box xy);
    [apply calls_only_draw_shape | apply calls_only_raise].
Qed.

Lemma calls_only_Draw_line im xy fill w :
  P (Call_line im xy w) -> calls_only P (Draw_line im xy fill w).
Proof.
  intros Hc. apply calls_only_bind; [apply calls_only_log; exact Hc|].
  intros _. apply calls_only_draw_shape.
Qed.

Lemma calls_only_ImageFont_truetype p size :
  P (Call_truetype p size) -> calls_only P (ImageFont_truetype p size).
Proof.
  intros Hc. apply calls_only_bind; [apply calls_only_log; exact Hc|].
  intros _. apply calls_only_quiet. intros s.
  destruct (files s !! p) as [[|[b| |]]|]; reflexivity.
Qed.

Lemma calls_only_ImageFont_load_default :
  P Call_load_default -> calls_only P ImageFont_load_default.
Proof.
  intros Hc. apply calls_only_bind; [apply calls_only_log; exact Hc|].
  intros _. apply calls_only_ret.
Qed.

Lemma calls_only_Draw_textbbox xy text font :
  P (Call_textbbox text) -> calls_only P (Draw_textbbox xy text font).
Proof.
  intros Hc. apply calls_only_bind; [apply calls_only_log; exact Hc|].
  intros _. apply calls_only_ret.
Qed.

Lemma calls_only_Draw_text im xy text fill font :
  P (Call_text im text) -> calls_only P (Draw_text im xy text fill font).
Proof.
  intros Hc. apply calls_only_bind; [apply calls_only_log; exact Hc|].
  intros _. apply calls_only_bind; [apply calls_only_load_RGBA|].
  intros b. apply calls_only_store.
Qed.

Lemma calls_only_Image_resize im size :
  P (Call_resize im size) -> calls_only P (Image_resize im size).
Proof.
  intros Hc. apply calls_only_bind; [apply calls_only_log; exact Hc|].
  intros _. apply calls_only_bind; [apply calls_only_load|].
  intros i. destruct (_ || _); [apply calls_only_raise | apply calls_only_alloc].
Qed.

Lemma calls_only_Image_filter_GaussianBlur im radius :
  P (Call_GaussianBlur im radius) ->
  calls_only P (Image_filter_GaussianBlur im radius).
Proof.
  intros Hc. apply calls_only_bind; [apply calls_only_log; exact Hc|].
  intros _. apply calls_only_bind; [apply calls_only_load_RGBA|].
  intros b. apply calls_only_alloc.
Qed.

Lemma calls_only_Image_alpha_composite im1 im2 :
  P (Call_alpha_composite im1 im2) ->
  calls_only P (Image_alpha_composite im1 im2).
Proof.
  intros Hc. apply calls_only_bind; [apply calls_only_log; exact Hc|].
  intros _. apply calls_only_bind; [apply calls_only_load_RGBA|].
  intros b1. apply calls_only_bind; [apply calls_only_load_RGBA|].
  intros b2. destruct (size_eqb _ _);
    [apply calls_only_alloc | apply calls_only_raise].
Qed.

Lemma calls_only_Image_paste dst src xy mask :
  P (Call_paste dst src xy mask) -> calls_only P (Image_paste dst src xy mask).
Proof.
  intros Hc. apply calls_only_bind; [apply calls_only_log; exact Hc|].
  intros _. apply calls_only_bind; [apply calls_only_load_RGBA|].
  intros d. apply calls_only_bind; [apply calls_only_load_RGBA|].
  intros b. destruct mask as [mr|]; [| apply calls_only_store].
  apply calls_only_bind; [apply calls_only_load|].
  intros m. destruct (size_eqb _ _);
    [apply calls_only_store | apply calls_only_raise].
Qed.

Lemma calls_only_Image_save im p :
  P (Call_save im p) -> calls_only P (Image_save im p).
Proof.
  intros Hc. apply calls_only_bind; [apply calls_only_log; exact Hc|].
  intros _. apply calls_only_bind; [apply calls_only_load_RGBA|].
  intros b. apply calls_only_quiet. intros s.
  destruct (fs_is_dir (files s) p); [reflexivity|].
  destruct (fs_is_dir (files s) (parent p)); reflexivity.
Qed.

End CallsOnlyPillow.

(** Decompose a computation into its calls; [side] proves that a call
    satisfies the predicate. *)
Ltac calls_step side :=
  cbv beta iota zeta;
  lazymatch goal with
  | |- calls_only _ (bind _ _) => apply calls_only_bind; [| intros ?]
  | |- calls_only _ (ret _) => apply calls_only_ret
  | |- calls_only _ (raise _) => apply calls_only_raise
  | |- calls_only _ (scoped _) => apply calls_only_scoped
  | |- calls_only _ (for_each _ _) => apply calls_only_for_each; intros [? ?]
  | |- calls_only _ (try_except_OSError _ _) => apply calls_only_try
  | |- calls_only _ (hex_to_rgb _) => apply calls_only_hex_to_rgb
  | |- calls_only _ (mkdir _) => apply calls_only_mkdir
  | |- calls_only _ (Image_size _) => apply calls_only_Image_size
  | |- calls_only _ (Image_open _) => apply calls_only_Image_open; side
  | |- calls_only _ (Image_convert_RGBA _) =>
      apply calls_only_Image_convert_RGBA; side
  | |- calls_only _ (Image_new _ _) => apply calls_only_Image_new; side
  | |- calls_only _ (Draw_rounded_rectangle _ _ _ _) =>
      apply calls_only_Draw_rounded_rectangle; side
  | |- calls_only _ (Draw_rectangle _ _ _) =>
      apply calls_only_Draw_rectangle; side
  | |- calls_only _ (Draw_ellipse _ _ _) => apply calls_only_Draw_ellipse; side
  | |- calls_only _ (Draw_line _ _ _ _) => apply calls_only_Draw_line; side
  | |- calls_only _ (ImageFont_truetype _ _) =>
      apply calls_only_ImageFont_truetype; side
  | |- calls_only _ ImageFont_load_default =>
      apply calls_only_ImageFont_load_default; side
  | |- calls_only _ (Draw_textbbox _ _ _) =>
      apply calls_only_Draw_textbbox; side
  | |- calls_only _ (Draw_text _ _ _ _ _) => apply calls_only_Draw_text; side
  | |- calls_only _ (Image_resize _ _) => apply calls_only_Image_resize; side
  | |- calls_only _ (Image_filter_GaussianBlur _ _) =>
      apply calls_only_Image_filter_GaussianBlur; side
  | |- calls_only _ (Image_alpha_composite _ _) =>
      apply calls_only_Image_alpha_composite; side
  | |- calls_only _ (Image_paste _ _ _ _) => apply calls_only_Image_paste; side
  | |- calls_only _ (Image_save _ _) => apply calls_only_Image_save; side
  | |- calls_only _ (if ?b then _ else _) => destruct b
  | |- calls_only _ (match ?x with _ => _ end) => destruct x
  end.

Ltac calls_tac side := repeat (calls_step side).

Section CallsOfScript.
Context `{Raster}.

(** Without a title, the title bar makes no call to the text renderer. *)
Lemma title_bar_calls_no_text width height corner_radius title :
  truth title = false ->
  calls_only (fun c => is_text c = false)
    (create_title_bar_supersampled width height corner_radius title).
Proof.
  intros Ht. unfold create_title_bar_supersampled. rewrite Ht.
  calls_tac ltac:(exact eq_refl).
Qed.

Lemma title_bar_calls_no_blur width height corner_radius title :
  calls_only (fun c => is_blur c = false)
    (create_title_bar_supersampled width height corner_radius title).
Proof.
  unfold create_title_bar_supersampled. calls_tac ltac:(exact eq_refl).
Qed.

Lemma title_bar_calls_radius width height corner_radius title :
  calls_only (rounded_with (corner_radius * SUPERSAMPLE_SCALE))
    (create_title_bar_supersampled width height corner_radius title).
Proof.
  unfold create_title_bar_supersampled.
  calls_tac ltac:(first [exact eq_refl | exact I]).
Qed.

Lemma frame_calls_no_blur image_path output_path title corner_radius :
  calls_only (fun c => is_blur c = false)
    (create_browser_frame image_path output_path title false corner_radius).
Proof.
  unfold create_browser_frame.
  repeat first
    [ apply title_bar_calls_no_blur
    | calls_step ltac:(exact eq_refl) ].
Qed.

Lemma frame_calls_radius image_path output_path title shadow corner_radius :
  calls_only (rounded_with (corner_radius * SUPERSAMPLE_SCALE))
    (create_browser_frame image_path output_path title shadow corner_radius).
Proof.
  unfold create_browser_frame.
  repeat first
    [ apply title_bar_calls_radius
    | calls_step ltac:(first [exact eq_refl | exact I]) ].
Qed.

End CallsOfScript.

(** ** Runs that raise, and runs up to the save *)

Lemma run_scoped_raise {A B} (m : M A) (k : A -> M B) s e s' :
  m (mkState [] (files s) (stdout s) (stderr s) (calls s)) = (inl e, s') ->
  scoped (bind m k) s =
  (inl e, mkState (heap s) (files s') (stdout s') (stderr s') (calls s')).
Proof.
  intros Hm. apply run_scoped. apply run_bind_raise. exact Hm.
Qed.

Lemma run_scoped_pending {A} (m : M A) s (r : (exn + A) * state) :
  m (mkState [] (files s) (stdout s) (stderr s) (calls s)) = r ->
  scoped m s =
  (fst r,
   mkState (heap s) (files (snd r)) (stdout (snd r)) (stderr (snd r))
           (calls (snd r))).
Proof. intros Hm. apply run_scoped. rewrite Hm. destruct r; reflexivity. Qed.

Section Pending.
Context `{Raster}.

(** [Image.open] either yields an image with at least one pixel or raises
    and leaves everything but the call log as it was. *)
Lemma Image_open_cases p s :
  (exists b,
     files s !! p = Some (NFile (FImage b)) /\ 0 < width b /\ 0 < height b) \/
  (exists e,
     Image_open p s =
     (inl e,
      mkState (heap s) (files s) (stdout s) (stderr s)
              (calls s ++ [Call_open p]))).
Proof.
  destruct s as [hp fs so se cl]. unfold Image_open, bind, log, raise.
  cbn [heap files stdout stderr calls].
  destruct (fs !! p) as [[|[b| |]]|] eqn:Hp;
    try (right; eexists; reflexivity).
  destruct (0 <? width b) eqn:Hw; [destruct (0 <? height b) eqn:Hh |];
    try (right; eexists; reflexivity).
  left. exists b. apply Z.ltb_lt in Hw, Hh. auto.
Qed.

(** The outcome of the save depends on the heap only through the image
    saved. *)
Lemma save_output_outcome r1 r2 p s1 s2 b :
  files s1 = files s2 -> stdout s1 = stdout s2 -> stderr s1 = stderr s2 ->
  heap s1 !! r1 = Some (ImRGBA b) -> heap s2 !! r2 = Some (ImRGBA b) ->
  outcome (save_output r1 p s1) = outcome (save_output r2 p s2).
Proof.
  intros Hfs Hso Hse H1 H2.
  destruct s1 as [hp1 fs1 so1 se1 cl1], s2 as [hp2 fs2 so2 se2 cl2].
  cbn [heap files stdout stderr] in *. subst fs2 so2 se2.
  unfold outcome, save_output, mkdir, Image_save, load_RGBA, load, log, ret,
    raise, bind.
  cbn [heap files stdout stderr calls].
  destruct (fs_mkdir (prefixes (parent p)) fs1) as [e|fs']; [reflexivity|].
  cbn [heap files stdout stderr calls fst snd]. rewrite H1, H2.
  cbn [heap files stdout stderr calls fst snd].
  destruct (fs_is_dir fs' p); [reflexivity|].
  destruct (fs_is_dir fs' (parent p)); reflexivity.
Qed.

End Pending.

(** Run with a negative radius: the first rounded rectangle raises. *)
Ltac run_raise :=
  simp;
  lazymatch goal with
  | |- bind (Draw_rounded_rectangle _ _ _ _) _ _ = _ =>
      eapply run_bind_raise; eapply run_Draw_rounded_rectangle_raise;
      [box_ok | arith]
  | |- bind _ _ _ = _ =>
      first [ eapply run_bind; [ run | run_raise ]
            | eapply run_bind_raise; run_raise ]
  end.

Ltac run_to_save :=
  simp;
  lazymatch goal with
  | |- bind (mkdir _) _ _ = _ => reflexivity
  | |- bind _ _ _ = _ => eapply run_bind; [ run_frame | run_to_save ]
  end.

Lemma outcome_scoped_pending {A} (r : (exn + A) * state) hp cl :
  outcome
    (fst r,
     mkState hp (files (snd r)) (stdout (snd r)) (stderr (snd r)) cl)
  = outcome r.
Proof. reflexivity. Qed.

Ltac pending :=
  match goal with
  | |- outcome ?x = _ =>
      let E := fresh "E" in
      eassert (E : x = _) by (eapply run_scoped_pending; run_to_save);
      rewrite E; clear E; rewrite outcome_scoped_pending; reflexivity
  end.

Section Pending2.
Context `{Raster}.

(** A negative radius makes both programs raise [ValueError]; nothing is
    written. *)
Lemma frame_negative_radius image_path output_path title shadow corner_radius
    src s :
  files s !! image_path = Some (NFile (FImage src)) ->
  0 < width src -> 0 < height src -> corner_radius < 0 ->
  outcome (create_browser_frame image_path output_path title shadow
             corner_radius s)
  = (inl ValueError, files s, stdout s, stderr s) /\
  outcome (create_browser_frame_second_pass image_path output_path title
             shadow corner_radius s)
  = (inl ValueError, files s, stdout s, stderr s).
Proof.
  intros Hsrc Hw Hh Hr.
  destruct s as [hp fs so se cl]. destruct src as [[W Ht] px].
  unfold width, height in Hw, Hh. cbn [im_size fst snd files] in *.
  unfold create_browser_frame, create_browser_frame_second_pass.
  split; destruct shadow;
    (match goal with
     | |- outcome ?x = _ =>
         let E := fresh "E" in
         eassert (E : x = _) by (eapply run_scoped; run_raise);
         rewrite E; reflexivity
     end).
Qed.

(** With a radius that is not negative each program reaches the save with
    the composite of the layers in hand. *)
Lemma frame_pending image_path output_path title shadow corner_radius src s :
  files s !! image_path = Some (NFile (FImage src)) ->
  0 < width src -> 0 < height src -> 0 <= corner_radius ->
  exists r1 s1,
    outcome (create_browser_frame image_path output_path title shadow
               corner_radius s)
    = outcome (save_output r1 output_path s1) /\
    files s1 = files s /\ stdout s1 = stdout s /\ stderr s1 = stderr s /\
    heap s1 !! r1
    = Some (ImRGBA (final_buffer (files s) src title shadow corner_radius)).
Proof.
  intros Hsrc Hw Hh Hr.
  destruct s as [hp fs so se cl]. destruct src as [[W Ht] px].
  unfold width, height in Hw, Hh. cbn [im_size fst snd files] in *.
  unfold create_browser_frame.
  destruct shadow; do 2 eexists;
    (split; [pending | repeat split; reflexivity]).
Qed.

Lemma second_pass_pending image_path output_path title shadow corner_radius
    src s :
  files s !! image_path = Some (NFile (FImage src)) ->
  0 < width src -> 0 < height src -> 0 <= corner_radius ->
  exists r1 s1,
    outcome (create_browser_frame_second_pass image_path output_path title
               shadow corner_radius s)
    = outcome (save_output r1 output_path s1) /\
    files s1 = files s /\ stdout s1 = stdout s /\ stderr s1 = stderr s /\
    heap s1 !! r1
    = Some (ImRGBA (final_buffer (files s) src title shadow corner_radius)).
Proof.
  intros Hsrc Hw Hh Hr.
  destruct s as [hp fs so se cl]. destruct src as [[W Ht] px].
  unfold width, height in Hw, Hh. cbn [im_size fst snd files] in *.
  unfold create_browser_frame_second_pass.
  destruct shadow; do 2 eexists;
    (split; [pending | repeat split; reflexivity]).
Qed.

End Pending2.

(** * What the script guarantees *)

Section Frame.
Context `{Raster}.

(** The run of [create_browser_frame] on a readable source: it returns the
    output path and the file there holds the composite of the layers. *)
Lemma frame_saved image_path output_path title shadow corner_radius src fs' s :
  ready s image_path output_path src fs' -> 0 <= corner_radius ->
  exists s',
    create_browser_frame image_path output_path title shadow corner_radius s
    = (inr output_path, s') /\
    files s' !! output_path =
    Some (NFile (FImage (final_buffer (files s) src title shadow corner_radius)))
    /\ stdout s' = stdout s /\ stderr s' = stderr s.
Proof.
  intros (Hsrc & Hw & Hh & Hmk & Hout) Hr.
  destruct (run_create_browser_frame image_path output_path title shadow
              corner_radius src fs' s Hsrc Hw Hh Hr Hmk Hout) as [tr Hrun].
  eexists. split; [exact Hrun|]. cbn [files stdout stderr].
  rewrite lookup_insert_eq. auto.
Qed.

Lemma final_buffer_size fs src title shadow corner_radius :
  im_size (final_buffer fs src title shadow corner_radius)
  = canvas_size shadow (width src) (height src).
Proof. destruct shadow; reflexivity. Qed.

(** The last step of the stack, pixel by pixel. *)
Lemma through_pixel (acc content : Buffer pixel) (mask : Buffer Z) x y :
  im_size content = im_size acc ->
  getpixel (apply_layer acc (Through mask content)) x y
  = if inside acc x y
    then blend (getpixel mask x y) (getpixel acc x y) (getpixel content x y)
    else getpixel acc x y.
Proof.
  intros Hsz. cbn [apply_layer paste_buffer getpixel mask_values].
  unfold paste_pixel, paste_region.
  rewrite !Z.sub_0_r.
  replace (inside content x y) with (inside acc x y)
    by (unfold inside, width, height; rewrite Hsz; reflexivity).
  rewrite andb_diag. reflexivity.
Qed.

(** C2. For a source image of width W and height H the saved output has
    width W + 2 x 20 and height H + 32 + 2 x 20 when shadow is enabled, and
    width W and height H + 32 when it is disabled. *)
Theorem canvas_dimensions image_path output_path title shadow corner_radius
    src fs' s :
  ready s image_path output_path src fs' -> 0 <= corner_radius ->
  exists out s',
    create_browser_frame image_path output_path title shadow corner_radius s
    = (inr output_path, s') /\
    files s' !! output_path = Some (NFile (FImage out)) /\
    im_size out =
    if shadow
    then (width src + 2 * 20, height src + 32 + 2 * 20)
    else (width src, height src + 32).
Proof.
  intros Hready Hr.
  destruct (frame_saved image_path output_path title shadow corner_radius
              src fs' s Hready Hr) as (s' & Hrun & Hfile & _).
  eexists. exists s'. split; [exact Hrun|]. split; [exact Hfile|].
  rewrite final_buffer_size. destruct shadow; reflexivity.
Qed.

(** C1, as the code has it.  The saved output is built on a fully
    transparent canvas of canvas size from these layers, in this order.
    The blurred shadow layer when shadow is enabled, the white background
    layer and the title bar layer placed at the frame offset are composited
    over the canvas, each by the over blend: a clear layer pixel keeps the
    pixel below, an opaque one replaces it.  The source image, placed at the
    frame offset plus (0, title bar height) on a transparent layer, is then
    pasted, not composited, through the content mask: inside the canvas
    every band of the output pixel, alpha included, is interpolated between
    the pixel composited so far and the content pixel with the mask value as
    weight.  Where the mask is 0 the pixel composited so far is kept; where
    it is 255 the output pixel is the content pixel, alpha included. *)
Theorem layers_composited_in_order image_path output_path title shadow
    corner_radius src fs' s :
  ready s image_path output_path src fs' -> 0 <= corner_radius ->
  let W := width src in
  let H' := height src in
  let offset := frame_offset shadow in
  let canvas := new_buffer (canvas_size shadow W H') transparent in
  let title_bar :=
    title_bar_buffer (files s) W TITLE_BAR_HEIGHT corner_radius title in
  let under :=
    ((if shadow then [Over (shadow_layer W H' corner_radius)] else [])
     ++ [Over (bg_layer shadow W H' corner_radius);
         Over (title_bar_layer shadow W H' title_bar)])%list in
  let mask := content_mask shadow W H' corner_radius in
  let content := content_layer shadow src in
  let acc := composite_all canvas under in
  let out := composite_all canvas (under ++ [Through mask content]) in
  (exists s',
     create_browser_frame image_path output_path title shadow corner_radius s
     = (inr output_path, s') /\
     files s' !! output_path = Some (NFile (FImage out))) /\
  (forall x y, getpixel canvas x y = transparent) /\
  (forall x y,
     getpixel acc x y
     = over
         (over
            (if shadow
             then over transparent
                    (getpixel (shadow_layer W H' corner_radius) x y)
             else transparent)
            (getpixel (bg_layer shadow W H' corner_radius) x y))
         (getpixel (title_bar_layer shadow W H' title_bar) x y)) /\
  (forall dst p, alpha p = 0 -> over dst p = dst) /\
  (forall dst p, valid_pixel p -> alpha p = 255 -> over dst p = p) /\
  (forall x y,
     getpixel content x y =
     if inside canvas x y
        && inside src (x - fst offset) (y - (snd offset + TITLE_BAR_HEIGHT))
     then getpixel src (x - fst offset) (y - (snd offset + TITLE_BAR_HEIGHT))
     else transparent) /\
  (forall x y, inside out x y = true ->
     getpixel out x y
     = blend (getpixel mask x y) (getpixel acc x y) (getpixel content x y)) /\
  (forall x y, inside out x y = true -> getpixel mask x y = 0 ->
     valid_pixel (getpixel acc x y) -> getpixel out x y = getpixel acc x y) /\
  (forall x y, inside out x y = true -> getpixel mask x y = 255 ->
     valid_pixel (getpixel content x y) ->
     getpixel out x y = getpixel content x y).
Proof.
  intros Hready Hr W H' offset canvas title_bar under mask content acc out.
  assert (Hout : out = apply_layer acc (Through mask content)).
  { unfold out, acc, composite_all. rewrite fold_left_app. reflexivity. }
  assert (Hsz : im_size content = im_size acc).
  { unfold acc, under. destruct shadow; reflexivity. }
  assert (Hin : forall x y, inside out x y = inside acc x y).
  { intros x y. rewrite Hout. reflexivity. }
  assert (Hpx : forall x y, inside out x y = true ->
            getpixel out x y
            = blend (getpixel mask x y) (getpixel acc x y)
                (getpixel content x y)).
  { intros x y Hxy. rewrite Hin in Hxy.
    rewrite Hout, through_pixel by exact Hsz. rewrite Hxy. reflexivity. }
  repeat match goal with |- _ /\ _ => split end.
  - destruct (frame_saved image_path output_path title shadow corner_radius
                src fs' s Hready Hr) as (s' & Hrun & Hfile & _).
    exists s'. split; [exact Hrun|]. rewrite Hfile. do 3 f_equal.
    unfold out, under. destruct shadow; reflexivity.
  - reflexivity.
  - intros x y. unfold acc, under. destruct shadow; reflexivity.
  - intros dst p Hp. unfold over. rewrite Hp. reflexivity.
  - intros dst p Hv Hp. apply over_opaque_source; assumption.
  - reflexivity.
  - exact Hpx.
  - intros x y Hxy Hm Hv. rewrite (Hpx x y Hxy), Hm. apply blend_0. exact Hv.
  - intros x y Hxy Hm Hv. rewrite (Hpx x y Hxy), Hm. apply blend_255. exact Hv.
Qed.

(** The pixels of the content area lie on the canvas and come from the
    source. *)
Lemma in_content_inside shadow (src : Buffer pixel) x y :
  in_content shadow src x y = true ->
  inside (new_buffer (canvas_size shadow (width src) (height src)) transparent)
    x y = true /\
  inside src (x - fst (frame_offset shadow))
    (y - (snd (frame_offset shadow) + TITLE_BAR_HEIGHT)) = true.
Proof.
  unfold in_content, inside, width, height.
  destruct src as [[W H'] px]. destruct shadow;
    cbn [frame_offset canvas_size new_buffer im_size fst snd];
    unfold PADDING, TITLE_BAR_HEIGHT;
    rewrite !andb_true_iff, !Z.leb_le, !Z.ltb_lt; lia.
Qed.

(** The pixel under the content: the layers below it, composited. *)
Lemma alpha_under_opaque_bg (canvas sh bg tl : Buffer pixel) shadow x y :
  alpha (getpixel bg x y) = 255 ->
  alpha (getpixel
           (composite_all canvas
              ((if shadow : bool then [Over sh] else []) ++ [Over bg; Over tl]))
           x y) = 255.
Proof.
  intros Hbg. destruct shadow;
    cbn [composite_all fold_left app apply_layer alpha_composite_buffer
         getpixel];
    unfold composite_pixel;
    apply alpha_over_opaque; apply alpha_over_opaque_src; exact Hbg.
Qed.

(** C3, as the code has it.  In the content area the last step blends the
    source pixel in with all its bands, alpha included: where the content
    mask is 255 the output pixel is the source pixel, so a transparent source
    pixel gives a transparent output pixel and the white backing does not
    show; where the source pixel is fully opaque and the mask or the
    background layer is fully opaque, the output pixel is fully opaque. *)
Theorem content_keeps_the_source_alpha image_path output_path title shadow
    corner_radius src fs' s :
  ready s image_path output_path src fs' -> 0 <= corner_radius ->
  let W := width src in
  let H' := height src in
  let offset := frame_offset shadow in
  let out := final_buffer (files s) src title shadow corner_radius in
  let mask := content_mask shadow W H' corner_radius in
  let bg := bg_layer shadow W H' corner_radius in
  (exists s',
     create_browser_frame image_path output_path title shadow corner_radius s
     = (inr output_path, s') /\
     files s' !! output_path = Some (NFile (FImage out))) /\
  forall x y, in_content shadow src x y = true ->
    let p :=
      getpixel src (x - fst offset) (y - (snd offset + TITLE_BAR_HEIGHT)) in
    (getpixel mask x y = 255 -> valid_pixel p -> getpixel out x y = p) /\
    (getpixel mask x y = 255 -> p = transparent ->
     alpha (getpixel out x y) = 0) /\
    (alpha p = 255 ->
     getpixel mask x y = 255 \/ alpha (getpixel bg x y) = 255 ->
     alpha (getpixel out x y) = 255).
Proof.
  intros Hready Hr W H' offset out mask bg. split.
  - destruct (frame_saved image_path output_path title shadow corner_radius
                src fs' s Hready Hr) as (s' & Hrun & Hfile & _).
    exists s'. split; assumption.
  - intros x y Hxy p. destruct (in_content_inside _ _ _ _ Hxy) as [Hcv Hsrc].
    set (under :=
           ((if shadow then [Over (shadow_layer W H' corner_radius)] else [])
            ++ [Over bg;
                Over (title_bar_layer shadow W H'
                        (title_bar_buffer (files s) W TITLE_BAR_HEIGHT
                           corner_radius title))])%list).
    set (canvas := new_buffer (canvas_size shadow W H') transparent).
    set (acc := composite_all canvas under).
    assert (Hout : out = apply_layer acc (Through mask (content_layer shadow src))).
    { unfold out, final_buffer, layer_stack, acc, under, canvas, composite_all.
      destruct shadow; reflexivity. }
    assert (Hsz : im_size (content_layer shadow src) = im_size acc).
    { unfold acc, under. destruct shadow; reflexivity. }
    assert (Hacc : inside acc x y = true).
    { replace (inside acc x y) with (inside canvas x y); [exact Hcv|].
      unfold acc, under. destruct shadow; reflexivity. }
    assert (Hcontent : getpixel (content_layer shadow src) x y = p).
    { unfold content_layer. cbn [paste_buffer getpixel].
      unfold paste_pixel, paste_region.
      rewrite Hcv, Hsrc. reflexivity. }
    assert (Hpx : getpixel out x y
                  = blend (getpixel mask x y) (getpixel acc x y) p).
    { rewrite Hout, through_pixel by exact Hsz. rewrite Hacc, Hcontent.
      reflexivity. }
    rewrite Hpx. split; [| split].
    + intros Hm Hv. rewrite Hm. apply blend_255. exact Hv.
    + intros Hm Hp. rewrite Hm, Hp. apply alpha_blend_clear.
    + intros Ha [Hm|Hbg].
      * rewrite Hm. apply alpha_blend_255. exact Ha.
      * apply alpha_blend_opaque; [| exact Ha].
        unfold acc, under. apply alpha_under_opaque_bg. exact Hbg.
Qed.

(** Where the background is opaque, the shadow under it does not show. *)
Lemma shadow_hidden (canvas sh bg tl content : Buffer pixel) (mask : Buffer Z)
    x y :
  alpha (getpixel bg x y) = 255 ->
  getpixel
    (composite_all canvas [Over sh; Over bg; Over tl; Through mask content])
    x y
  = getpixel (composite_all canvas [Over bg; Over tl; Through mask content])
      x y.
Proof.
  intros Hbg.
  cbn [composite_all fold_left apply_layer alpha_composite_buffer paste_buffer
       getpixel im_size mask_values].
  unfold paste_pixel, paste_region, inside, width, height.
  cbn [alpha_composite_buffer im_size getpixel]. unfold composite_pixel.
  rewrite (over_opaque (over (getpixel canvas x y) (getpixel sh x y))
             (getpixel canvas x y) (getpixel bg x y) Hbg).
  reflexivity.
Qed.

(** The pixel the three upper layers give on a canvas. *)
Lemma stack_pixel (canvas bg tl content : Buffer pixel) (mask : Buffer Z) x y :
  im_size content = im_size canvas ->
  inside canvas x y = true ->
  getpixel (composite_all canvas [Over bg; Over tl; Through mask content]) x y
  = blend (getpixel mask x y)
      (over (over (getpixel canvas x y) (getpixel bg x y)) (getpixel tl x y))
      (getpixel content x y).
Proof.
  intros Hsz Hin.
  change (composite_all canvas [Over bg; Over tl; Through mask content])
    with (apply_layer (composite_all canvas [Over bg; Over tl])
            (Through mask content)).
  rewrite through_pixel by exact Hsz.
  change (inside (composite_all canvas [Over bg; Over tl]) x y)
    with (inside canvas x y).
  rewrite Hin. reflexivity.
Qed.

(** A pixel of the frame rectangle lies on both canvases. *)
Lemma frame_pixel_inside W H' x y :
  0 <= x < W -> 0 <= y < H' + TITLE_BAR_HEIGHT ->
  inside (new_buffer (canvas_size true W H') transparent)
    (x + PADDING) (y + PADDING) = true /\
  inside (new_buffer (canvas_size false W H') transparent) x y = true.
Proof.
  intros Hx Hy. unfold inside, width, height.
  cbn [canvas_size new_buffer im_size fst snd].
  unfold PADDING, TITLE_BAR_HEIGHT in *.
  rewrite !andb_true_iff, !Z.leb_le, !Z.ltb_lt. lia.
Qed.

(** The title bar and the content are placed alike on both canvases. *)
Lemma title_bar_layer_translate W H' (title_bar : Buffer pixel) x y :
  0 <= x < W -> 0 <= y < H' + TITLE_BAR_HEIGHT ->
  getpixel (title_bar_layer true W H' title_bar) (x + PADDING) (y + PADDING)
  = getpixel (title_bar_layer false W H' title_bar) x y.
Proof.
  intros Hx Hy. destruct (frame_pixel_inside W H' x y Hx Hy) as [Hon Hoff].
  unfold title_bar_layer. cbn [paste_buffer getpixel frame_offset fst snd].
  unfold paste_pixel, paste_region. rewrite Hon, Hoff.
  rewrite !Z.add_simpl_r, !Z.sub_0_r. reflexivity.
Qed.

Lemma content_layer_translate (src : Buffer pixel) x y :
  0 <= x < width src -> 0 <= y < height src + TITLE_BAR_HEIGHT ->
  getpixel (content_layer true src) (x + PADDING) (y + PADDING)
  = getpixel (content_layer false src) x y.
Proof.
  intros Hx Hy.
  destruct (frame_pixel_inside (width src) (height src) x y Hx Hy)
    as [Hon Hoff].
  unfold content_layer. cbn [paste_buffer getpixel frame_offset fst snd].
  unfold paste_pixel, paste_region. rewrite Hon, Hoff.
  rewrite !Z.add_simpl_r, !Z.sub_0_r.
  replace (y + PADDING - (PADDING + TITLE_BAR_HEIGHT))
    with (y - (0 + TITLE_BAR_HEIGHT)) by lia.
  reflexivity.
Qed.

(** C5, as the code has it.  With shadow disabled no blur is ever called
    and the output is the composite of the background, the title bar and the
    masked content alone.  With shadow enabled the output equals, at every
    pixel where the background layer is fully opaque, the composite of the
    same layers without the shadow; and it equals the output with shadow
    disabled, translated by the padding, at every pixel of the frame
    rectangle where the background is fully opaque and where the resampled
    background and mask of the two canvases agree. *)
Theorem shadow_only_under_the_background image_path output_path title
    corner_radius src fs' s :
  ready s image_path output_path src fs' -> 0 <= corner_radius ->
  let W := width src in
  let H' := height src in
  let title_bar :=
    title_bar_buffer (files s) W TITLE_BAR_HEIGHT corner_radius title in
  let bg shadow := bg_layer shadow W H' corner_radius in
  let mask shadow := content_mask shadow W H' corner_radius in
  let stack shadow :=
    [Over (bg shadow);
     Over (title_bar_layer shadow W H' title_bar);
     Through (mask shadow) (content_layer shadow src)] in
  let canvas shadow := new_buffer (canvas_size shadow W H') transparent in
  let off := composite_all (canvas false) (stack false) in
  (calls_only (fun c => is_blur c = false)
     (create_browser_frame image_path output_path title false corner_radius)
   /\ exists s',
        create_browser_frame image_path output_path title false corner_radius s
        = (inr output_path, s') /\
        files s' !! output_path = Some (NFile (FImage off)))
  /\
  exists on s',
    create_browser_frame image_path output_path title true corner_radius s
    = (inr output_path, s') /\
    files s' !! output_path = Some (NFile (FImage on)) /\
    (forall x y,
       alpha (getpixel (bg true) x y) = 255 ->
       getpixel on x y
       = getpixel (composite_all (canvas true) (stack true)) x y) /\
    (forall x y,
       0 <= x < W -> 0 <= y < H' + TITLE_BAR_HEIGHT ->
       getpixel (bg true) (x + PADDING) (y + PADDING) = getpixel (bg false) x y ->
       getpixel (mask true) (x + PADDING) (y + PADDING)
       = getpixel (mask false) x y ->
       alpha (getpixel (bg false) x y) = 255 ->
       getpixel on (x + PADDING) (y + PADDING) = getpixel off x y).
Proof.
  intros Hready Hr W H' title_bar bg mask stack canvas off. split; [split|].
  - apply frame_calls_no_blur.
  - destruct (frame_saved image_path output_path title false corner_radius
                src fs' s Hready Hr) as (s' & Hrun & Hfile & _).
    exists s'. split; [exact Hrun | exact Hfile].
  - destruct (frame_saved image_path output_path title true corner_radius
                src fs' s Hready Hr) as (s' & Hrun & Hfile & _).
    eexists. exists s'. split; [exact Hrun|]. split; [exact Hfile|]. split.
    + intros x y Hbg. apply shadow_hidden. exact Hbg.
    + subst off stack canvas mask bg title_bar W H'. cbv beta.
      intros x y Hx Hy Hbg Hmask Hopaque.
      destruct (frame_pixel_inside _ _ x y Hx Hy) as [Hon Hoff].
      etransitivity.
      { apply shadow_hidden. rewrite Hbg. exact Hopaque. }
      rewrite !stack_pixel by (reflexivity || assumption).
      rewrite Hbg, Hmask.
      rewrite (title_bar_layer_translate _ _ _ x y Hx Hy).
      rewrite (content_layer_translate src x y Hx Hy).
      reflexivity.
Qed.

(** C6, as the code has it.  With a corner radius that is not negative,
    also one that exceeds half the frame, and coordinates that stay in
    range, rendering succeeds and saves a complete image of canvas size.
    The script does not clamp the radius: every rounded rectangle is asked
    for with the radius as given, times the supersampling factor.  A
    negative radius in range makes rendering raise [ValueError]; nothing is
    saved. *)
Theorem radius_is_drawn_as_given image_path output_path title shadow
    corner_radius src fs' s :
  ready s image_path output_path src fs' ->
  (0 <= corner_radius -> radius_in_range corner_radius -> size_in_range src ->
   exists out s',
     create_browser_frame image_path output_path title shadow corner_radius s
     = (inr output_path, s') /\
     files s' !! output_path = Some (NFile (FImage out)) /\
     im_size out = canvas_size shadow (width src) (height src)) /\
  calls_only (rounded_with (corner_radius * SUPERSAMPLE_SCALE))
    (create_browser_frame image_path output_path title shadow corner_radius) /\
  (corner_radius < 0 -> radius_in_range corner_radius -> size_in_range src ->
   outcome (create_browser_frame image_path output_path title shadow
              corner_radius s)
   = (inl ValueError, files s, stdout s, stderr s)).
Proof.
  intros Hready. split; [| split; [apply frame_calls_radius |]].
  - intros Hr _ _.
    destruct (frame_saved image_path output_path title shadow corner_radius
                src fs' s Hready Hr) as (s' & Hrun & Hfile & _).
    eexists. exists s'. split; [exact Hrun|]. split; [exact Hfile|].
    apply final_buffer_size.
  - intros Hr _ _. destruct Hready as (Hsrc & Hw & Hh & _).
    apply (frame_negative_radius image_path output_path title shadow
             corner_radius src s Hsrc Hw Hh Hr).
Qed.

(** The output depends on the file system only through the font the title
    is drawn with. *)
Lemma final_buffer_fonts fs1 fs2 src title shadow corner_radius :
  (forall size, resolve_font fs1 size = resolve_font fs2 size) ->
  final_buffer fs1 src title shadow corner_radius
  = final_buffer fs2 src title shadow corner_radius.
Proof.
  intros Hfont.
  unfold final_buffer, layer_stack, title_bar_buffer, hi_title_bar, title_text.
  rewrite Hfont. reflexivity.
Qed.

(** C7. Two runs on the same source image and the same configuration, from
    any two states that resolve the title font alike, save the same
    buffer. *)
Theorem rendering_is_deterministic image_path output_path title shadow
    corner_radius src fs1' fs2' s1 s2 :
  ready s1 image_path output_path src fs1' ->
  ready s2 image_path output_path src fs2' ->
  0 <= corner_radius ->
  (forall size, resolve_font (files s1) size = resolve_font (files s2) size) ->
  exists out s1' s2',
    create_browser_frame image_path output_path title shadow corner_radius s1
    = (inr output_path, s1') /\
    create_browser_frame image_path output_path title shadow corner_radius s2
    = (inr output_path, s2') /\
    files s1' !! output_path = Some (NFile (FImage out)) /\
    files s2' !! output_path = Some (NFile (FImage out)).
Proof.
  intros Hready1 Hready2 Hr Hfont.
  destruct (frame_saved image_path output_path title shadow corner_radius
              src fs1' s1 Hready1 Hr) as (s1' & Hrun1 & Hfile1 & _).
  destruct (frame_saved image_path output_path title shadow corner_radius
              src fs2' s2 Hready2 Hr) as (s2' & Hrun2 & Hfile2 & _).
  eexists. exists s1', s2'. split; [exact Hrun1|]. split; [exact Hrun2|].
  split; [exact Hfile1|]. rewrite Hfile2.
  rewrite (final_buffer_fonts (files s1) (files s2)) by exact Hfont.
  reflexivity.
Qed.

(** With radius 0 a rounded rectangle is the rectangle of its box. *)
Lemma rounded_rectangle_plain x0 y0 x1 y1 :
  1 < x1 - x0 -> 1 < y1 - y0 ->
  rounded_rectangle_cover (x0, y0, x1, y1) (0 * SUPERSAMPLE_SCALE)
  = rectangle_cover (x0, y0, x1, y1).
Proof.
  intros Hx Hy. unfold rounded_rectangle_cover.
  change (0 * SUPERSAMPLE_SCALE * 2) with 0.
  rewrite (proj2 (Z.leb_gt (x1 - x0 - 1) 0)) by lia.
  rewrite (proj2 (Z.leb_gt (y1 - y0 - 1) 0)) by lia.
  reflexivity.
Qed.

(** C8. With corner radius 0 rendering succeeds, and each of the four
    rounded rectangles the script draws (shadow, background, content mask,
    title bar) fills exactly the plain rectangle of its box. *)
Theorem zero_radius_is_a_plain_rectangle image_path output_path title shadow
    src fs' s :
  ready s image_path output_path src fs' ->
  let W := width src in
  let H' := height src in
  let title_rect : box :=
    (0, 0, W * SUPERSAMPLE_SCALE, TITLE_BAR_HEIGHT * SUPERSAMPLE_SCALE) in
  (exists s',
     create_browser_frame image_path output_path title shadow 0 s
     = (inr output_path, s') /\
     files s' !! output_path
     = Some (NFile (FImage (final_buffer (files s) src title shadow 0)))) /\
  rounded_rectangle_cover (shadow_rect W H') (0 * SUPERSAMPLE_SCALE)
  = rectangle_cover (shadow_rect W H') /\
  rounded_rectangle_cover (frame_rect_hi shadow W H') (0 * SUPERSAMPLE_SCALE)
  = rectangle_cover (frame_rect_hi shadow W H') /\
  rounded_rectangle_cover (content_rect_hi shadow W H') (0 * SUPERSAMPLE_SCALE)
  = rectangle_cover (content_rect_hi shadow W H') /\
  rounded_rectangle_cover title_rect (0 * SUPERSAMPLE_SCALE)
  = rectangle_cover title_rect /\
  hi_shadow W H' 0
  = fill_shape (rectangle_cover (shadow_rect W H')) SHADOW_COLOR
      (new_buffer (hi_size true W H') transparent) /\
  hi_bg shadow W H' 0
  = fill_shape (rectangle_cover (frame_rect_hi shadow W H')) white
      (new_buffer (hi_size shadow W H') transparent) /\
  hi_mask shadow W H' 0
  = fill_shape (rectangle_cover (square_top_rect shadow W 0)) 255
      (fill_shape (rectangle_cover (content_rect_hi shadow W H')) 255
         (new_buffer (hi_size shadow W H') 0)).
Proof.
  intros Hready W H' title_rect.
  pose proof Hready as (_ & Hw & Hh & _). fold W in Hw. fold H' in Hh.
  assert (Hshadow : rounded_rectangle_cover (shadow_rect W H')
                      (0 * SUPERSAMPLE_SCALE)
                    = rectangle_cover (shadow_rect W H')).
  { unfold shadow_rect. apply rounded_rectangle_plain;
      unfold PADDING, SHADOW_OFFSET, SUPERSAMPLE_SCALE, TITLE_BAR_HEIGHT; lia. }
  assert (Hframe : rounded_rectangle_cover (frame_rect_hi shadow W H')
                     (0 * SUPERSAMPLE_SCALE)
                   = rectangle_cover (frame_rect_hi shadow W H')).
  { unfold frame_rect_hi. destruct shadow; cbn [frame_offset];
      apply rounded_rectangle_plain;
      unfold PADDING, SUPERSAMPLE_SCALE, TITLE_BAR_HEIGHT; lia. }
  assert (Hcontent : rounded_rectangle_cover (content_rect_hi shadow W H')
                       (0 * SUPERSAMPLE_SCALE)
                     = rectangle_cover (content_rect_hi shadow W H')).
  { unfold content_rect_hi. destruct shadow; cbn [frame_offset];
      apply rounded_rectangle_plain;
      unfold PADDING, SUPERSAMPLE_SCALE, TITLE_BAR_HEIGHT; lia. }
  split; [| split; [| split; [| split; [| split; [| split; [| split]]]]]].
  - destruct (frame_saved image_path output_path title shadow 0 src fs' s
                Hready (Z.le_refl 0)) as (s' & Hrun & Hfile & _).
    exists s'. split; assumption.
  - exact Hshadow.
  - exact Hframe.
  - exact Hcontent.
  - unfold title_rect. apply rounded_rectangle_plain;
      unfold SUPERSAMPLE_SCALE, TITLE_BAR_HEIGHT; lia.
  - unfold hi_shadow. rewrite Hshadow. reflexivity.
  - unfold hi_bg. rewrite Hframe. reflexivity.
  - unfold hi_mask. rewrite Hcontent. reflexivity.
Qed.

End Frame.

(** ** The first assembly pass *)

Section FirstPass.
Context `{Raster}.

(** C9. The first assembly pass has no effect: from every state and for
    every input, [create_browser_frame] and the second pass alone give the
    same result, the same files (so the same saved output) and the same
    streams. *)
Theorem first_pass_has_no_effect image_path output_path title shadow
    corner_radius s :
  outcome (create_browser_frame image_path output_path title shadow
             corner_radius s)
  = outcome (create_browser_frame_second_pass image_path output_path title
               shadow corner_radius s).
Proof.
  destruct (Image_open_cases image_path
              (mkState [] (files s) (stdout s) (stderr s) (calls s)))
    as [(src & Hsrc & Hw & Hh) | (e & Hopen)].
  - cbn [files] in Hsrc.
    destruct (Z.lt_ge_cases corner_radius 0) as [Hneg|Hpos].
    + destruct (frame_negative_radius image_path output_path title shadow
                  corner_radius src s Hsrc Hw Hh Hneg) as [-> ->].
      reflexivity.
    + destruct (frame_pending image_path output_path title shadow
                  corner_radius src s Hsrc Hw Hh Hpos)
        as (r1 & s1 & -> & Hfs1 & Hso1 & Hse1 & Hr1).
      destruct (second_pass_pending image_path output_path title shadow
                  corner_radius src s Hsrc Hw Hh Hpos)
        as (r2 & s2 & -> & Hfs2 & Hso2 & Hse2 & Hr2).
      eapply save_output_outcome; [congruence | congruence | congruence | |];
        eassumption.
  - unfold create_browser_frame, create_browser_frame_second_pass.
    rewrite !(run_scoped_raise _ _ _ _ _ Hopen). reflexivity.
Qed.

End FirstPass.

(** ** The title bar and its title *)

Section TitleBar.
Context `{Raster}.

(** C10. An empty title is treated as no title: the title bar computation
    and the title bar it produces are the same for [Some ""] and [None], and
    no call to the text renderer is made. *)
Theorem empty_title_is_no_title width height corner_radius :
  create_title_bar_supersampled width height corner_radius (Some "")
  = create_title_bar_supersampled width height corner_radius None /\
  (forall fs,
     title_bar_buffer fs width height corner_radius (Some "")
     = title_bar_buffer fs width height corner_radius None) /\
  calls_only (fun c => is_text c = false)
    (create_title_bar_supersampled width height corner_radius (Some "")).
Proof.
  split; [reflexivity | split; [reflexivity |]].
  apply title_bar_calls_no_text. reflexivity.
Qed.

End TitleBar.

(** ** The batch *)

Section Batch.
Context `{Raster}.

(** The loop goes through the entries in order and stops at the first one
    that raises. *)
Lemma process_entries_app output_path sfx title shadow corner_radius l1 :
  forall l2 created s,
    process_entries output_path sfx title shadow corner_radius created
      (l1 ++ l2) s
    = match process_entries output_path sfx title shadow corner_radius
              created l1 s with
      | (inr created', s1) =>
          process_entries output_path sfx title shadow corner_radius created'
            l2 s1
      | (inl e, s1) => (inl e, s1)
      end.
Proof.
  induction l1 as [|p l1 IH]; intros l2 created s; [reflexivity|].
  cbn [process_entries app]. unfold bind.
  destruct (process_entry output_path sfx title shadow corner_radius created
              p s) as [[e|created'] s1]; [reflexivity|].
  apply IH.
Qed.

(** A file that holds no image makes [create_browser_frame] raise at once. *)
Lemma undecodable_raises image_path output_path title shadow corner_radius s :
  files s !! image_path = Some (NFile FOther) ->
  create_browser_frame image_path output_path title shadow corner_radius s
  = (inl UnidentifiedImageError,
     mkState (heap s) (files s) (stdout s) (stderr s)
             (calls s ++ [Call_open image_path])).
Proof.
  intros Hp. unfold create_browser_frame.
  rewrite (run_scoped_raise _ _ s UnidentifiedImageError
             (mkState [] (files s) (stdout s) (stderr s)
                (calls s ++ [Call_open image_path]))); [reflexivity|].
  unfold Image_open, bind, log, raise. cbn [files]. rewrite Hp. reflexivity.
Qed.

(** C4, as the code has it.  In a directory the images are processed in
    sorted order until the first recognized file that cannot be decoded:
    there the decode error leaves [process_batch], the images after it are
    not processed, and nothing is written or printed for it or for them. *)
Theorem batch_stops_at_first_undecodable (input_path output_path : Path)
    (title : option string) (shadow : bool) (corner_radius : Z)
    (keep_name : bool) (fs1 : gmap Path node) (before : list Path)
    (bad : Path) (rest created : list Path) (s : state) :
  let loop :=
    process_entries output_path (if keep_name then "" else "_framed") title
      shadow corner_radius [] before
      (mkState (heap s) fs1 (stdout s) (stderr s) (calls s)) in
  fs_is_file (files s) input_path = false ->
  fs_is_dir (files s) input_path = true ->
  fs_mkdir (prefixes output_path) (files s) = inr fs1 ->
  sorted (fs_iterdir fs1 input_path) = (before ++ bad :: rest)%list ->
  fst loop = inr created ->
  recognized bad = true ->
  files (snd loop) !! bad = Some (NFile FOther) ->
  exists s2,
    process_batch input_path output_path title shadow corner_radius keep_name s
    = (inl UnidentifiedImageError, s2) /\
    files s2 = files (snd loop) /\ stdout s2 = stdout (snd loop) /\
    stderr s2 = stderr (snd loop).
Proof.
  intros loop Hfile Hdir Hmk Hsorted Hdone Hrec Hbad.
  assert (Hdir1 : fs_is_dir fs1 input_path = true).
  { destruct input_path as [|c p]; [reflexivity|].
    unfold fs_is_dir in *. destruct (files s !! (c :: p)) as [[|f]|] eqn:Hp;
      try discriminate.
    destruct (fs_mkdir_spec _ _ _ Hmk) as [Hkeep _].
    rewrite (Hkeep _ _ Hp). reflexivity. }
  unfold process_batch, bind, is_file, is_dir, mkdir, iterdir.
  rewrite Hfile, Hdir, Hmk. cbn [files]. rewrite Hdir1, Hsorted.
  rewrite process_entries_app. fold loop.
  destruct loop as [result s1]. cbn [fst snd] in *. subst result.
  cbn [process_entries]. unfold bind, process_entry. rewrite Hrec.
  unfold bind. rewrite undecodable_raises by exact Hbad.
  eexists. split; [reflexivity|]. cbn [files stdout stderr]. auto.
Qed.

End Batch.

(** * Further properties of the script *)

(** ** Paths and directories *)

Lemma fs_mkdir_existing dirs : forall fs,
  (forall d, In d dirs -> fs !! d = Some NDir) -> fs_mkdir dirs fs = inr fs.
Proof.
  induction dirs as [|d rest IH]; intros fs Hd; [reflexivity|].
  cbn. rewrite (Hd d (or_introl eq_refl)). apply IH.
  intros d' Hin. apply Hd. right. exact Hin.
Qed.

Lemma prefixes_snoc (q : Path) (c : string) :
  prefixes (q ++ [c]) = (prefixes q ++ [q ++ [c]])%list.
Proof.
  induction q as [|a q IH]; [reflexivity|].
  cbn [prefixes app]. rewrite IH, map_app. reflexivity.
Qed.

(** Directories that exist are passed over. *)
Lemma fs_mkdir_skip dirs1 dirs2 fs :
  (forall d, In d dirs1 -> fs !! d = Some NDir) ->
  fs_mkdir (dirs1 ++ dirs2) fs = fs_mkdir dirs2 fs.
Proof.
  induction dirs1 as [|d rest IH]; intros Hd; [reflexivity|].
  cbn [app fs_mkdir]. rewrite (Hd d (or_introl eq_refl)). apply IH.
  intros d' Hin. apply Hd. right. exact Hin.
Qed.

Lemma prefixes_length (p q : Path) :
  In q (prefixes p) -> (length q <= length p)%nat.
Proof.
  revert q. induction p as [|c p IH]; intros q; cbn [prefixes]; [intros []|].
  intros [<-|Hin]; [cbn; lia|].
  apply in_map_iff in Hin as (q' & <- & Hq'). apply IH in Hq'. cbn. lia.
Qed.

Lemma parent_snoc (q : Path) (c : string) :
  q <> [] \/ is_root c = false -> parent (q ++ [c]) = q.
Proof.
  intros Hqc. unfold parent.
  destruct q as [|a [|b q]].
  - destruct Hqc as [Hq|Hc]; [congruence|]. cbn. rewrite Hc. reflexivity.
  - reflexivity.
  - cbn [app]. apply (removelast_last (a :: b :: q) c).
Qed.

(** A path is its own parent (the empty path, a root) or its parent is
    the path without its last component. *)
Lemma parent_cases (p : Path) :
  parent p = p \/ exists q c, p = (q ++ [c])%list /\ parent p = q.
Proof.
  destruct p as [|a p] using rev_ind; [left; reflexivity|].
  clear IHp. destruct p as [|b p].
  - cbn. destruct (is_root a) eqn:Ha; [left; reflexivity|].
    right. exists [], a. split; reflexivity.
  - right. exists (b :: p), a. split; [reflexivity|].
    apply parent_snoc. left. discriminate.
Qed.

Lemma joinpath_not_prefix (p : Path) (child : string) :
  ~ In (joinpath p child) (prefixes p).
Proof.
  intros Hin. apply prefixes_length in Hin. unfold joinpath in Hin.
  rewrite length_app in Hin. cbn in Hin. lia.
Qed.

(** A path that is not a directory once the directories above it are made
    is not one of them. *)
Lemma output_not_above fs fs' (p : Path) :
  fs_mkdir (prefixes (parent p)) fs = inr fs' ->
  fs_is_dir fs' p = false -> ~ In p (prefixes (parent p)).
Proof.
  intros Hmk Hout Hin. destruct (fs_mkdir_spec _ _ _ Hmk) as [_ Hdirs].
  destruct p as [|c p]; [discriminate Hout|].
  unfold fs_is_dir in Hout. rewrite (Hdirs _ Hin) in Hout. discriminate Hout.
Qed.


Lemma insert_sorted_In (p : Path) (l : list Path) (q : Path) :
  In q (insert_sorted p l) <-> q = p \/ In q l.
Proof.
  induction l as [|a l IH]; cbn [insert_sorted].
  - cbn. intuition.
  - destruct (path_leb p a); cbn [In]; [intuition|].
    rewrite IH. intuition.
Qed.

Lemma sorted_In (l : list Path) (q : Path) : In q (sorted l) <-> In q l.
Proof.
  unfold sorted. induction l as [|a l IH]; cbn [fold_right]; [reflexivity|].
  rewrite insert_sorted_In, IH. cbn. intuition.
Qed.

Lemma fs_iterdir_In (fs : gmap Path node) (d e : Path) :
  In e (fs_iterdir fs d) ->
  e <> [] /\ parent e = d /\ exists n, fs !! e = Some n.
Proof.
  unfold fs_iterdir. intros Hin. apply filter_In in Hin as [Hin Hb].
  apply andb_true_iff in Hb as [Hb H2].
  apply andb_true_iff in Hb as [H1 _].
  apply bool_decide_eq_true in H1, H2. split; [exact H1|]. split; [exact H2|].
  apply list_elem_of_In, list_elem_of_fmap in Hin as ([e' n] & -> & Hin).
  exists n. apply elem_of_map_to_list in Hin. exact Hin.
Qed.

Lemma fs_is_dir_insert_file fs (p q : Path) f :
  fs_is_dir fs p = false -> fs_is_dir (<[q := NFile f]> fs) p = false.
Proof.
  destruct p as [|c p]; [discriminate|]. unfold fs_is_dir.
  destruct (decide (c :: p = q)) as [<-|Hne].
  - rewrite lookup_insert_eq. reflexivity.
  - rewrite lookup_insert_ne by congruence. auto.
Qed.

Lemma fs_is_dir_kept fs fs' dirs (p : Path) :
  fs_mkdir dirs fs = inr fs' -> fs_is_dir fs p = true -> fs_is_dir fs' p = true.
Proof.
  intros Hmk. destruct p as [|c p]; [reflexivity|]. unfold fs_is_dir.
  destruct (fs !! (c :: p)) as [[|f]|] eqn:Hp; try discriminate.
  destruct (fs_mkdir_spec _ _ _ Hmk) as [Hkeep _].
  rewrite (Hkeep _ _ Hp). reflexivity.
Qed.

(** ** Strings and names *)

Lemma append_cons (x : ascii) (a b : string) :
  String x a +:+ b = String x (a +:+ b).
Proof. reflexivity. Qed.

Lemma append_empty (b : string) : "" +:+ b = b.
Proof. reflexivity. Qed.

Lemma append_assoc (a b c : string) : (a +:+ b) +:+ c = a +:+ (b +:+ c).
Proof.
  induction a as [|x a IH]; [reflexivity|].
  rewrite !append_cons, IH. reflexivity.
Qed.

Ltac peel H s :=
  repeat (destruct s as [|? s];
          rewrite ?append_cons, ?append_empty in H;
          [discriminate H | injection H as _ H]).

(** Paths are written and split as [pathlib] does on POSIX. *)
Lemma path_spelling :
  str ["/"; "tmp"; "a.png"] = "/tmp/a.png" /\ str ["/"] = "/" /\
  str [] = "." /\ str ["pics"; "a.png"] = "pics/a.png" /\
  parent ["/"] = ["/"] /\ parent ["/"; "tmp"] = ["/"] /\
  parent ["a.png"] = [] /\ parent [] = [] /\
  name ["/"] = "" /\ name ["pics"; "a.png"] = "a.png".
Proof. repeat split. Qed.

Lemma png_is_not_root (s : string) : is_root (s +:+ ".png") = false.
Proof.
  unfold is_root. apply orb_false_iff.
  split; apply String.eqb_neq; intros E;
    destruct s as [|? [|? [|? s]]];
    rewrite ?append_cons, ?append_empty in E; discriminate E.
Qed.

(** The parent of a file made with [output_path / (stem + suffix + .png)]
    is [output_path]. *)
Lemma parent_png (p : Path) (a b : string) :
  parent (joinpath p (a +:+ b +:+ ".png")) = p.
Proof.
  unfold joinpath. apply parent_snoc. right.
  rewrite <- append_assoc. apply png_is_not_root.
Qed.

Lemma png_is_not_SF_PRO (s : string) : s +:+ ".png" <> "SF-Pro-Text-Medium.otf".
Proof.
  intros E. peel E s. destruct s; discriminate E.
Qed.

Lemma png_is_not_HELVETICA (s : string) : s +:+ ".png" <> "Helvetica.ttc".
Proof.
  intros E. peel E s. destruct s; discriminate E.
Qed.

Lemma output_file_not_a_font output_path sfx img_path :
  output_file output_path sfx img_path <> SF_PRO /\
  output_file output_path sfx img_path <> HELVETICA.
Proof.
  unfold output_file, joinpath, SF_PRO, HELVETICA.
  rewrite <- append_assoc.
  split; intros E.
  - change ["/"; "System"; "Library"; "Fonts"; "SF-Pro-Text-Medium.otf"]
      with (["/"; "System"; "Library"; "Fonts"] ++ ["SF-Pro-Text-Medium.otf"])%list
      in E.
    apply app_inj_tail in E as [_ E]. exact (png_is_not_SF_PRO _ E).
  - change ["/"; "System"; "Library"; "Fonts"; "Helvetica.ttc"]
      with (["/"; "System"; "Library"; "Fonts"] ++ ["Helvetica.ttc"])%list in E.
    apply app_inj_tail in E as [_ E]. exact (png_is_not_HELVETICA _ E).
Qed.

Lemma substring_0_0 s : substring 0 0 s = "".
Proof. destruct s; reflexivity. Qed.

Lemma length_append (a b : string) :
  String.length (a +:+ b) = (String.length a + String.length b)%nat.
Proof.
  induction a as [|x a IH]; [reflexivity|].
  rewrite append_cons. cbn [String.length]. rewrite IH. reflexivity.
Qed.

Lemma rfind_bounds c s : forall i j,
  rfind c s i = Some j -> (i <= j < i + String.length s)%nat.
Proof.
  induction s as [|a s IH]; intros i j; cbn [rfind String.length];
    [discriminate|].
  destruct (rfind c s (S i)) as [k|] eqn:Hk.
  - intros [= <-]. apply IH in Hk. lia.
  - destruct (Ascii.eqb a c); [| discriminate]. intros [= <-]. lia.
Qed.

Lemma rfind_append c a b : forall i,
  rfind c (a +:+ b) i
  = match rfind c b (i + String.length a) with
    | Some j => Some j
    | None => rfind c a i
    end.
Proof.
  induction a as [|x a IH]; intros i.
  - rewrite append_empty. cbn [String.length rfind]. rewrite Nat.add_0_r.
    destruct (rfind c b i); reflexivity.
  - rewrite append_cons. cbn [rfind String.length]. rewrite IH.
    replace (S i + String.length a)%nat with (i + S (String.length a))%nat
      by lia.
    destruct (rfind c b _); reflexivity.
Qed.

Lemma substring_append_l (a b : string) :
  substring 0 (String.length a) (a +:+ b) = a.
Proof.
  induction a as [|x a IH]; [apply substring_0_0|].
  rewrite append_cons. cbn [String.length substring]. rewrite IH. reflexivity.
Qed.

Lemma substring_all (b : string) : substring 0 (String.length b) b = b.
Proof.
  induction b as [|x b IH]; [reflexivity|].
  cbn [String.length substring]. rewrite IH. reflexivity.
Qed.

Lemma substring_append_r (a b : string) :
  substring (String.length a) (String.length b) (a +:+ b) = b.
Proof.
  induction a as [|x a IH]; [apply substring_all|].
  rewrite append_cons. cbn [String.length substring]. exact IH.
Qed.

Lemma substring_split (s : string) : forall i,
  (i <= String.length s)%nat ->
  substring 0 i s +:+ substring i (String.length s - i) s = s.
Proof.
  induction s as [|x s IH]; intros [|i] Hi; cbn [String.length] in *;
    try reflexivity; try lia.
  - cbn [substring Nat.sub]. rewrite append_empty, substring_all. reflexivity.
  - cbn [substring Nat.sub]. rewrite append_cons, IH by lia. reflexivity.
Qed.

Lemma eqb_lower_dot (c : ascii) :
  Ascii.eqb (lower_ascii c) "." = Ascii.eqb c ".".
Proof. destruct c as [[] [] [] [] [] [] [] []]; vm_compute; reflexivity. Qed.

Lemma rfind_lower (s : string) : forall i,
  rfind "." (lower s) i = rfind "." s i.
Proof.
  induction s as [|a s IH]; intros i; [reflexivity|].
  cbn [lower rfind]. rewrite IH, eqb_lower_dot. reflexivity.
Qed.

Lemma length_lower (s : string) : String.length (lower s) = String.length s.
Proof.
  induction s as [|a s IH]; [reflexivity|].
  cbn [lower String.length]. rewrite IH. reflexivity.
Qed.

(** An extension of the list, in any letter case, is a dot followed by
    letters. *)
Lemma extension_shape (ext : string) :
  lower ext ∈ image_extensions ->
  (forall i, rfind "." ext i = Some i) /\ (2 <= String.length ext)%nat.
Proof.
  intros Hin. rewrite <- length_lower.
  assert (Hr : forall i, rfind "." (lower ext) i = Some i);
    [| split; [intros i; rewrite <- rfind_lower; apply Hr |]];
    apply list_elem_of_In in Hin; unfold image_extensions in Hin;
    cbn [In] in Hin;
    repeat (destruct Hin as [<-|Hin]; [try reflexivity; cbn; lia |]);
    destruct Hin.
Qed.

Lemma suffix_index_append (st ext : string) :
  st <> "" -> lower ext ∈ image_extensions ->
  suffix_index (st +:+ ext) = Some (String.length st).
Proof.
  intros Hst Hext. destruct (extension_shape ext Hext) as [Hr Hlen].
  unfold suffix_index. rewrite rfind_append, Hr. cbn [Nat.add].
  rewrite length_append.
  assert (0 < String.length st)%nat by (destruct st; [congruence | cbn; lia]).
  replace (Nat.ltb 0 (String.length st)) with true
    by (symmetry; apply Nat.ltb_lt; lia).
  replace (Nat.ltb (String.length st)
             (String.length st + String.length ext - 1)) with true
    by (symmetry; apply Nat.ltb_lt; lia).
  reflexivity.
Qed.

(** ** [hex_to_rgb] *)

Lemma hex_digit_range c d : hex_digit c = Some d -> 0 <= d <= 15.
Proof.
  unfold hex_digit. set (n := Z.of_nat (nat_of_ascii c)).
  destruct ((48 <=? n) && (n <=? 57)) eqn:H1;
    [| destruct ((97 <=? n) && (n <=? 102)) eqn:H2;
       [| destruct ((65 <=? n) && (n <=? 70)) eqn:H3; [| discriminate]]];
    intros [= <-];
    match goal with
    | E : (_ && _) = true |- _ =>
        apply andb_true_iff in E as [?%Z.leb_le ?%Z.leb_le]
    end; lia.
Qed.

Lemma hex_digit_not_hash c d : hex_digit c = Some d -> Ascii.eqb c "#" = false.
Proof.
  intros Hd. destruct (Ascii.eqb c "#") eqn:Hc; [| reflexivity].
  apply Ascii.eqb_eq in Hc. subst c. discriminate Hd.
Qed.

Lemma int16_two c1 c2 d1 d2 :
  hex_digit c1 = Some d1 -> hex_digit c2 = Some d2 ->
  int16 (String c1 (String c2 "")) = inr (16 * d1 + d2).
Proof.
  intros H1 H2. unfold int16. cbn [hex_digits]. rewrite H1, H2.
  f_equal. lia.
Qed.

Lemma int16_error s e : int16 s = inl e -> e = ValueError.
Proof.
  unfold int16. destruct s; [intros [= <-]; reflexivity|].
  destruct (hex_digits _ _); [discriminate|]. intros [= <-]. reflexivity.
Qed.

Lemma lstrip_hashes (n : nat) (t : string) :
  lstrip "#" (string_of_list_ascii (repeat "#"%char n) +:+ t) = lstrip "#" t.
Proof.
  induction n as [|n IH]; [reflexivity|].
  cbn [repeat string_of_list_ascii]. rewrite append_cons.
  cbn [lstrip]. rewrite Ascii.eqb_refl. exact IH.
Qed.

(** X1. A colour written as six hexadecimal digits, in either letter
    case, is read as three bytes: each pair of digits gives one component,
    16 times the first digit plus the second, between 0 and 255.  Leading
    [#] characters are dropped, however many (none, one or [n] of them), and
    whatever follows the sixth digit is ignored.  The state is not
    touched. *)
Theorem hex_to_rgb_reads_three_bytes (c1 c2 c3 c4 c5 c6 : ascii)
    (d1 d2 d3 d4 d5 d6 : Z) (rest : string) (s : state) :
  hex_digit c1 = Some d1 -> hex_digit c2 = Some d2 ->
  hex_digit c3 = Some d3 -> hex_digit c4 = Some d4 ->
  hex_digit c5 = Some d5 -> hex_digit c6 = Some d6 ->
  let digits :=
    String c1 (String c2 (String c3 (String c4 (String c5 (String c6 rest))))) in
  let rgb := (16 * d1 + d2, 16 * d3 + d4, 16 * d5 + d6) in
  (forall n : nat,
     hex_to_rgb (string_of_list_ascii (repeat "#"%char n) +:+ digits) s
     = (inr rgb, s)) /\
  byte_range (16 * d1 + d2) /\ byte_range (16 * d3 + d4) /\
  byte_range (16 * d5 + d6).
Proof.
  intros H1 H2 H3 H4 H5 H6 digits rgb.
  assert (Hrun : forall n : nat,
            hex_to_rgb (string_of_list_ascii (repeat "#"%char n) +:+ digits) s
            = (inr rgb, s)).
  { intros n. unfold hex_to_rgb, parse_hex. rewrite lstrip_hashes.
    unfold digits. cbn [lstrip].
    rewrite (hex_digit_not_hash _ _ H1). cbn [slice Nat.sub substring].
    rewrite substring_0_0.
    rewrite (int16_two _ _ _ _ H1 H2), (int16_two _ _ _ _ H3 H4),
      (int16_two _ _ _ _ H5 H6).
    reflexivity. }
  apply hex_digit_range in H1, H2, H3, H4, H5, H6.
  unfold byte_range. repeat split; try exact Hrun; lia.
Qed.

(** X2. A colour with fewer than five characters after its leading [#]
    characters raises [ValueError]: the shorthand [#fff] is not accepted. *)
Theorem hex_to_rgb_short_string (hex_color : string) (s : state) :
  (String.length (lstrip "#" hex_color) < 5)%nat ->
  hex_to_rgb hex_color s = (inl ValueError, s).
Proof.
  intros Hlen. unfold hex_to_rgb, parse_hex.
  set (body := lstrip "#" hex_color) in *.
  assert (Hblue : int16 (slice body 4 6) = inl ValueError).
  { do 5 (destruct body as [|? body]; [reflexivity|]).
    cbn [String.length] in Hlen. lia. }
  rewrite Hblue.
  destruct (int16 (slice body 0 2)) as [e|r] eqn:Hr;
    [rewrite (int16_error _ _ Hr); reflexivity|].
  destruct (int16 (slice body 2 4)) as [e|g] eqn:Hg;
    [rewrite (int16_error _ _ Hg); reflexivity|].
  reflexivity.
Qed.

(** X3. The length of a colour is not checked: with five digits the
    first two pairs give red and green and the last digit alone gives
    blue. *)
Theorem hex_to_rgb_five_digits (c1 c2 c3 c4 c5 : ascii) (d1 d2 d3 d4 d5 : Z)
    (s : state) :
  hex_digit c1 = Some d1 -> hex_digit c2 = Some d2 ->
  hex_digit c3 = Some d3 -> hex_digit c4 = Some d4 ->
  hex_digit c5 = Some d5 ->
  hex_to_rgb (String "#" (String c1 (String c2 (String c3 (String c4
                (String c5 ""))))))
    s
  = (inr (16 * d1 + d2, 16 * d3 + d4, d5), s).
Proof.
  intros H1 H2 H3 H4 H5. unfold hex_to_rgb, parse_hex. cbn [lstrip].
  change (Ascii.eqb "#" "#") with true. cbv iota.
  cbn [lstrip]. rewrite (hex_digit_not_hash _ _ H1).
  cbn [slice Nat.sub substring].
  rewrite (int16_two _ _ _ _ H1 H2), (int16_two _ _ _ _ H3 H4).
  unfold int16. cbn [hex_digits]. rewrite H5. reflexivity.
Qed.

(** ** The title bar *)

Section TitleBarRuns.
Context `{Raster}.

(** X4. The font lookup of the title bar never raises.  SF Pro is tried
    first; Helvetica is tried only when SF Pro cannot be loaded; the default
    font is taken only when neither can.  The files and the streams are left
    as they were. *)
Theorem font_fallback_never_fails (s : state) :
  let size := 13 * SUPERSAMPLE_SCALE in
  let is_font (p : Path) (data : string) :=
    files s !! p = Some (NFile (FFont data)) in
  try_except_OSError (ImageFont_truetype SF_PRO size)
    (try_except_OSError (ImageFont_truetype HELVETICA size)
       ImageFont_load_default) s
  = (inr (resolve_font (files s) size),
     mkState (heap s) (files s) (stdout s) (stderr s)
       (calls s ++ font_calls (files s))) /\
  (forall data, is_font SF_PRO data ->
     resolve_font (files s) size = TrueType data size /\
     font_calls (files s) = [Call_truetype SF_PRO size]) /\
  (forall data,
     (forall d, ~ is_font SF_PRO d) -> is_font HELVETICA data ->
     resolve_font (files s) size = TrueType data size /\
     font_calls (files s)
     = [Call_truetype SF_PRO size; Call_truetype HELVETICA size]) /\
  ((forall d, ~ is_font SF_PRO d) -> (forall d, ~ is_font HELVETICA d) ->
   resolve_font (files s) size = DefaultFont /\
   font_calls (files s)
   = [Call_truetype SF_PRO size; Call_truetype HELVETICA size;
      Call_load_default]).
Proof.
  intros size is_font. subst is_font. cbv beta.
  split; [apply run_font|].
  unfold resolve_font, font_calls. fold size.
  split; [intros data ->; split; reflexivity|].
  split.
  - intros data Hsf ->.
    destruct (files s !! SF_PRO) as [[|[b|d|]]|] eqn:E;
      try (split; reflexivity).
    destruct (Hsf d eq_refl).
  - intros Hsf Hhv.
    destruct (files s !! SF_PRO) as [[|[b|d|]]|] eqn:E;
      try (destruct (Hsf d eq_refl));
      destruct (files s !! HELVETICA) as [[|[b'|d'|]]|] eqn:E';
      try (destruct (Hhv d' eq_refl)); split; reflexivity.
Qed.

(** X5. For a width and a height of at least one pixel and a radius that
    is not negative, all three with supersampled coordinates in range,
    [create_title_bar_supersampled] returns a new "RGBA"
    image of exactly the requested size, whatever the title and whether or
    not a font file exists.  It allocates two images (the supersampled bar
    and the result), changes no image that existed, and touches neither the
    files nor the streams. *)
Theorem title_bar_has_the_requested_size (width height corner_radius : Z)
    (title : option string) (s : state) :
  1 <= width -> 1 <= height -> 0 <= corner_radius ->
  width * SUPERSAMPLE_SCALE <= MAX_COORDINATE ->
  height * SUPERSAMPLE_SCALE <= MAX_COORDINATE ->
  radius_in_range corner_radius ->
  exists r b s',
    create_title_bar_supersampled width height corner_radius title s
    = (inr r, s') /\
    heap s' !! r = Some (ImRGBA b) /\
    im_size b = (width, height) /\
    b = title_bar_buffer (files s) width height corner_radius title /\
    (forall i im, heap s !! i = Some im -> heap s' !! i = Some im) /\
    length (heap s') = (length (heap s) + 2)%nat /\
    files s' = files s /\ stdout s' = stdout s /\ stderr s' = stderr s.
Proof.
  intros Hw Hh Hr _ _ _.
  eexists _, _, _. split.
  { apply run_create_title_bar_supersampled; assumption. }
  cbn [heap files stdout stderr].
  split.
  { change [ImRGBA (hi_title_bar (files s) width height corner_radius title);
            ImRGBA (title_bar_buffer (files s) width height corner_radius
                      title)]
      with ([ImRGBA (hi_title_bar (files s) width height corner_radius title)]
            ++ [ImRGBA (title_bar_buffer (files s) width height corner_radius
                          title)])%list.
    rewrite app_assoc.
    replace (S (length (heap s)))
      with (length (heap s
                    ++ [ImRGBA (hi_title_bar (files s) width height
                                  corner_radius title)])%list)
      by (rewrite length_app; cbn; lia).
    apply lookup_snoc. }
  split; [reflexivity|]. split; [reflexivity|].
  split; [intros i im Hi; apply lookup_app_l_Some; exact Hi|].
  split; [rewrite length_app; reflexivity|].
  repeat split.
Qed.

End TitleBarRuns.

(** ** Every run of [create_browser_frame] *)

Lemma scoped_heap {A} (m : M A) s : heap (snd (scoped m s)) = heap s.
Proof. unfold scoped. destruct (m _). reflexivity. Qed.

Section SaveOutput.
Context `{Raster}.

(** The end of a run: the directories are made, then the image is written
    unless [output_path] is a directory. *)
Lemma save_output_run r p s b :
  heap s !! r = Some (ImRGBA b) ->
  outcome (save_output r p s)
  = match fs_mkdir (prefixes (parent p)) (files s) with
    | inl e => (inl e, files s, stdout s, stderr s)
    | inr fs' =>
        if fs_is_dir fs' p
        then (inl IsADirectoryError, fs', stdout s, stderr s)
        else (inr p, <[p := NFile (FImage b)]> fs', stdout s, stderr s)
    end.
Proof.
  intros Hb. destruct s as [hp fs so se cl]. cbn [heap files stdout stderr] in *.
  unfold outcome, save_output, mkdir, Image_save, load_RGBA, load, log, ret,
    raise, bind.
  cbn [heap files stdout stderr calls].
  destruct (fs_mkdir (prefixes (parent p)) fs) as [e|fs'] eqn:Hmk;
    [reflexivity|].
  cbn [heap files stdout stderr calls fst snd]. rewrite Hb.
  cbn [heap files stdout stderr calls fst snd].
  destruct (fs_is_dir fs' p); [reflexivity|].
  rewrite (fs_mkdir_is_dir _ _ _ Hmk). reflexivity.
Qed.

Lemma Image_open_raises p s :
  (forall b, files s !! p = Some (NFile (FImage b)) ->
             (0 <? width b) && (0 <? height b) = false) ->
  Image_open p s =
  (inl match files s !! p with
       | None => FileNotFoundError
       | Some NDir => IsADirectoryError
       | Some (NFile _) => UnidentifiedImageError
       end,
   mkState (heap s) (files s) (stdout s) (stderr s) (calls s ++ [Call_open p])).
Proof.
  intros Hbad. destruct s as [hp fs so se cl]. unfold Image_open, bind, log, raise.
  cbn [heap files stdout stderr calls] in *.
  destruct (fs !! p) as [[|[b| |]]|] eqn:Hp; try reflexivity.
  rewrite (Hbad b eq_refl). reflexivity.
Qed.

Lemma create_browser_frame_outcome image_path output_path title shadow
    corner_radius s :
  outcome (create_browser_frame image_path output_path title shadow
             corner_radius s)
  = (fst (frame_outcome (files s) image_path output_path title shadow
            corner_radius),
     snd (frame_outcome (files s) image_path output_path title shadow
            corner_radius),
     stdout s, stderr s).
Proof.
  unfold frame_outcome.
  destruct (Image_open_cases image_path
              (mkState [] (files s) (stdout s) (stderr s) (calls s)))
    as [(src & Hsrc & Hw & Hh) | (e & Hopen)].
  - cbn [files] in Hsrc. rewrite Hsrc.
    rewrite (proj2 (Z.ltb_lt _ _) Hw), (proj2 (Z.ltb_lt _ _) Hh). cbn [andb].
    destruct (Z.ltb_spec corner_radius 0) as [Hneg|Hpos].
    + destruct (frame_negative_radius image_path output_path title shadow
                  corner_radius src s Hsrc Hw Hh Hneg) as [-> _].
      reflexivity.
    + destruct (frame_pending image_path output_path title shadow
                  corner_radius src s Hsrc Hw Hh Hpos)
        as (r1 & s1 & -> & Hfs1 & Hso1 & Hse1 & Hr1).
      rewrite (save_output_run _ _ _ _ Hr1), Hfs1, Hso1, Hse1.
      destruct (fs_mkdir _ _) as [e|fs']; [reflexivity|].
      destruct (fs_is_dir fs' output_path); reflexivity.
  - unfold create_browser_frame.
    rewrite (run_scoped_raise _ _ _ _ _ Hopen). unfold outcome.
    cbn [fst snd files stdout stderr].
    assert (Hbad : forall b, files s !! image_path = Some (NFile (FImage b)) ->
                             (0 <? width b) && (0 <? height b) = false).
    { intros b Hb. revert Hopen. unfold Image_open, bind, log, raise.
      cbn [heap files stdout stderr calls]. rewrite Hb.
      destruct ((0 <? width b) && (0 <? height b)); [discriminate | reflexivity]. }
    pose proof (Image_open_raises image_path
                  (mkState [] (files s) (stdout s) (stderr s) (calls s)) Hbad)
      as Hraise.
    rewrite Hopen in Hraise. injection Hraise as He. subst e.
    cbn [files].
    destruct (files s !! image_path) as [[|[b| |]]|] eqn:Hp; try reflexivity.
    rewrite (Hbad b eq_refl). reflexivity.
Qed.

End SaveOutput.

Section FrameRuns.
Context `{Raster}.

(** The two ways a run can end: it raises, with the file system as it was
    or with the parent directories of the output made, or it writes the
    composite to the output file. *)
Lemma frame_outcome_cases fs image_path output_path title shadow corner_radius :
  let fo :=
    frame_outcome fs image_path output_path title shadow corner_radius in
  (exists e,
     fst fo = inl e /\
     (snd fo = fs \/
      fs_mkdir (prefixes (parent output_path)) fs = inr (snd fo))) \/
  (exists src fs',
     fs !! image_path = Some (NFile (FImage src)) /\
     0 < width src /\ 0 < height src /\ 0 <= corner_radius /\
     fs_mkdir (prefixes (parent output_path)) fs = inr fs' /\
     fs_is_dir fs' output_path = false /\
     fo = (inr output_path,
           <[output_path :=
               NFile (FImage (final_buffer fs src title shadow
                                corner_radius))]> fs')).
Proof.
  unfold frame_outcome.
  destruct (fs !! image_path) as [[|[src| |]]|] eqn:Hsrc;
    try (left; eexists; split; [reflexivity | left; reflexivity]).
  destruct (0 <? width src) eqn:Hw; [destruct (0 <? height src) eqn:Hh |];
    cbn [andb];
    try (left; eexists; split; [reflexivity | left; reflexivity]).
  destruct (Z.ltb_spec corner_radius 0) as [Hneg|Hpos];
    [left; eexists; split; [reflexivity | left; reflexivity] |].
  destruct (fs_mkdir (prefixes (parent output_path)) fs) as [e|fs'] eqn:Hmk;
    [left; eexists; split; [reflexivity | left; reflexivity] |].
  destruct (fs_is_dir fs' output_path) eqn:Hout;
    [left; eexists; split; [reflexivity | right; reflexivity] |].
  right. exists src, fs'. apply Z.ltb_lt in Hw, Hh. repeat split; auto.
Qed.

(** A run of [create_browser_frame], whole: the heap is as before, the
    streams are untouched, and the result and the files are those of
    [frame_outcome]. *)
Lemma create_browser_frame_run image_path output_path title shadow
    corner_radius s :
  exists tr,
    create_browser_frame image_path output_path title shadow corner_radius s
    = (fst (frame_outcome (files s) image_path output_path title shadow
              corner_radius),
       mkState (heap s)
         (snd (frame_outcome (files s) image_path output_path title shadow
                 corner_radius))
         (stdout s) (stderr s) (calls s ++ tr)).
Proof.
  pose proof (create_browser_frame_outcome image_path output_path title shadow
                corner_radius s) as Hout.
  destruct (frame_calls_radius image_path output_path title shadow
              corner_radius s) as (tr & Htr & _).
  pose proof (scoped_heap
                (A := Path)) as Hheap.
  exists tr. unfold outcome in Hout.
  assert (Hhp : heap (snd (create_browser_frame image_path output_path title
                             shadow corner_radius s)) = heap s)
    by apply scoped_heap.
  destruct (create_browser_frame image_path output_path title shadow
              corner_radius s) as [r [hp fs so se cl]].
  cbn [fst snd heap files stdout stderr calls] in *.
  injection Hout as -> -> -> ->. subst hp cl. reflexivity.
Qed.

(** X6. Every run of [create_browser_frame] whose coordinates are in
    range, from every state: what it returns and the files it leaves are
    those of [frame_outcome], and it prints nothing.  It raises
    [FileNotFoundError], [IsADirectoryError] or [UnidentifiedImageError]
    when the source cannot be opened, before anything else; [ValueError] for
    a negative radius, before any directory is made; the error of [mkdir]
    when the parent of the output cannot be made; [IsADirectoryError] when
    the output path is a directory; otherwise it writes the composite of the
    layers and returns the output path. *)
Theorem create_browser_frame_fails_in_order image_path output_path title
    shadow corner_radius s :
  radius_in_range corner_radius ->
  (forall src, files s !! image_path = Some (NFile (FImage src)) ->
               size_in_range src) ->
  outcome (create_browser_frame image_path output_path title shadow
             corner_radius s)
  = (fst (frame_outcome (files s) image_path output_path title shadow
            corner_radius),
     snd (frame_outcome (files s) image_path output_path title shadow
            corner_radius),
     stdout s, stderr s).
Proof.
  intros _ _.
  destruct (create_browser_frame_run image_path output_path title shadow
              corner_radius s) as [tr ->].
  reflexivity.
Qed.


(** X8. Framing is not idempotent: a run that writes its output, followed
    by a run on that output in place, succeeds, and the second image is the
    frame of the first one; its canvas is that of a source of the size of the
    first output. *)
Theorem framing_twice_adds_two_frames image_path output_path title1 title2
    shadow1 shadow2 radius1 radius2 src fs' s :
  ready s image_path output_path src fs' ->
  0 <= radius1 -> 0 <= radius2 ->
  exists s1 s2 once twice,
    create_browser_frame image_path output_path title1 shadow1 radius1 s
    = (inr output_path, s1) /\
    files s1 !! output_path = Some (NFile (FImage once)) /\
    create_browser_frame output_path output_path title2 shadow2 radius2 s1
    = (inr output_path, s2) /\
    files s2 !! output_path = Some (NFile (FImage twice)) /\
    twice = final_buffer (files s1) once title2 shadow2 radius2 /\
    im_size once = canvas_size shadow1 (width src) (height src) /\
    im_size twice = canvas_size shadow2 (width once) (height once).
Proof.
  intros (Hsrc & Hw & Hh & Hmk & Hout) Hr1 Hr2.
  destruct (run_create_browser_frame image_path output_path title1 shadow1
              radius1 src fs' s Hsrc Hw Hh Hr1 Hmk Hout) as [tr1 Hrun1].
  set (once := final_buffer (files s) src title1 shadow1 radius1) in *.
  set (s1 := mkState (heap s) (<[output_path := NFile (FImage once)]> fs')
                     (stdout s) (stderr s) (calls s ++ tr1)) in *.
  assert (Hsize : im_size once = canvas_size shadow1 (width src) (height src))
    by apply final_buffer_size.
  assert (Hfile1 : files s1 !! output_path = Some (NFile (FImage once)))
    by apply lookup_insert_eq.
  assert (Hmk1 : fs_mkdir (prefixes (parent output_path)) (files s1)
                 = inr (files s1)).
  { apply fs_mkdir_existing. intros d Hd. cbn [s1 files].
    rewrite lookup_insert_ne
      by (intros <-; exact (output_not_above _ _ _ Hmk Hout Hd)).
    destruct (fs_mkdir_spec _ _ _ Hmk) as [_ Hdirs]. apply Hdirs. exact Hd. }
  assert (Hout1 : fs_is_dir (files s1) output_path = false).
  { destruct output_path as [|c p]; [discriminate Hout|].
    unfold fs_is_dir. rewrite Hfile1. reflexivity. }
  assert (Hpos : 0 < width once /\ 0 < height once).
  { unfold width at 1, height at 1. rewrite Hsize.
    destruct shadow1; cbn [canvas_size fst snd];
      unfold PADDING, TITLE_BAR_HEIGHT; lia. }
  destruct Hpos as [Hw1 Hh1].
  destruct (run_create_browser_frame output_path output_path title2 shadow2
              radius2 once (files s1) s1 Hfile1 Hw1 Hh1 Hr2 Hmk1 Hout1)
    as [tr2 Hrun2].
  eexists s1, _, once, _. split; [exact Hrun1|]. split; [exact Hfile1|].
  split; [exact Hrun2|]. cbn [files].
  split; [apply lookup_insert_eq|]. split; [reflexivity|].
  split; [exact Hsize | apply final_buffer_size].
Qed.

End FrameRuns.

(** ** [process_batch] *)

(** X9. A file is recognized by the last extension of its name, in any
    letter case.  A name made of a non-empty stem followed by one of the six
    extensions, in upper or lower case, is recognized, and [stem] and
    [suffix] split it there.  Conversely a recognized path has a non-empty
    stem, and its name is the stem followed by a suffix that is, in lower
    case, one of the six extensions. *)
Theorem recognized_by_last_extension :
  (forall (p : Path) (st ext : string),
     name p = st +:+ ext -> st <> "" -> lower ext ∈ image_extensions ->
     recognized p = true /\ stem p = st /\ suffix p = ext) /\
  (forall p : Path,
     recognized p = true ->
     name p = stem p +:+ suffix p /\ stem p <> "" /\
     lower (suffix p) ∈ image_extensions).
Proof.
  split.
  - intros p st ext Hname Hst Hext.
    assert (Hsuffix : suffix p = ext).
    { unfold suffix. rewrite Hname, (suffix_index_append st ext Hst Hext).
      rewrite length_append.
      replace (String.length st + String.length ext - String.length st)%nat
        with (String.length ext) by lia.
      apply substring_append_r. }
    split; [| split; [| exact Hsuffix]].
    + unfold recognized. rewrite Hsuffix. apply bool_decide_eq_true. exact Hext.
    + unfold stem. rewrite Hname, (suffix_index_append st ext Hst Hext).
      apply substring_append_l.
  - intros p Hrec. unfold recognized in Hrec.
    apply bool_decide_eq_true in Hrec. split; [| split; [| exact Hrec]].
    + unfold stem, suffix in *.
      destruct (suffix_index (name p)) as [i|] eqn:Hi.
      * unfold suffix_index in Hi.
        destruct (rfind "." (name p) 0) as [j|] eqn:Hj; [| discriminate].
        destruct (Nat.ltb 0 j && Nat.ltb j (String.length (name p) - 1))%nat
          eqn:Hb; [| discriminate].
        injection Hi as <-. apply rfind_bounds in Hj.
        symmetry. apply substring_split. lia.
      * exfalso. apply list_elem_of_In in Hrec. cbn in Hrec.
        repeat (destruct Hrec as [Hrec|Hrec]; [discriminate Hrec|]).
        exact Hrec.
    + unfold stem, suffix in *.
      destruct (suffix_index (name p)) as [i|] eqn:Hi.
      * unfold suffix_index in Hi.
        destruct (rfind "." (name p) 0) as [j|] eqn:Hj; [| discriminate].
        destruct (Nat.ltb 0 j && Nat.ltb j (String.length (name p) - 1))%nat
          eqn:Hb; [| discriminate].
        injection Hi as <-. apply andb_true_iff in Hb as [Hb _].
        apply Nat.ltb_lt in Hb. apply rfind_bounds in Hj.
        destruct j as [|j]; [lia|].
        destruct (name p) as [|c nm]; [cbn in Hj; lia|]. discriminate.
      * exfalso. apply list_elem_of_In in Hrec. cbn in Hrec.
        repeat (destruct Hrec as [Hrec|Hrec]; [discriminate Hrec|]).
        exact Hrec.
Qed.

Section BatchRun.
Context `{Raster}.
Variables (output_path : Path) (sfx : string) (title : option string)
  (shadow : bool) (corner_radius : Z).
Hypothesis Hradius : 0 <= corner_radius.

Lemma resolve_font_insert_output fs img_path n size :
  resolve_font (<[output_file output_path sfx img_path := n]> fs) size
  = resolve_font fs size.
Proof.
  destruct (output_file_not_a_font output_path sfx img_path) as [H1 H2].
  unfold resolve_font. rewrite !lookup_insert_ne by assumption. reflexivity.
Qed.

(** One turn of the loop on a recognized image that can be read. *)
Lemma process_entry_run created img_path src s :
  recognized img_path = true ->
  (forall d, In d (prefixes output_path) -> files s !! d = Some NDir) ->
  files s !! img_path = Some (NFile (FImage src)) ->
  0 < width src -> 0 < height src ->
  fs_is_dir (files s) (output_file output_path sfx img_path) = false ->
  exists tr,
    process_entry output_path sfx title shadow corner_radius created img_path s
    = (inr (created ++ [output_file output_path sfx img_path])%list,
       mkState (heap s)
         (<[output_file output_path sfx img_path :=
              NFile (FImage (final_buffer (files s) src title shadow
                               corner_radius))]> (files s))
         (stdout s ++ [created_line (output_file output_path sfx img_path)])
         (stderr s) (calls s ++ tr)).
Proof.
  intros Hrec Hdirs Hsrc Hw Hh Hout.
  destruct (run_create_browser_frame img_path
              (output_file output_path sfx img_path) title shadow
              corner_radius src (files s) s Hsrc Hw Hh Hradius)
    as [tr Hrun]; [| exact Hout |].
  { unfold output_file. rewrite parent_png.
    apply fs_mkdir_existing. exact Hdirs. }
  exists tr. unfold process_entry. rewrite Hrec.
  fold (output_file output_path sfx img_path).
  unfold bind. rewrite Hrun. reflexivity.
Qed.

Lemma process_entries_run (todo : list Path) : forall created s,
  (forall d, In d (prefixes output_path) -> files s !! d = Some NDir) ->
  (forall e, In e todo -> recognized e = true ->
     (exists src, files s !! e = Some (NFile (FImage src)) /\
                  0 < width src /\ 0 < height src) /\
     fs_is_dir (files s) (output_file output_path sfx e) = false) ->
  (forall e e', In e todo -> e <> output_file output_path sfx e') ->
  let outputs := map (output_file output_path sfx) (List.filter recognized todo) in
  exists s',
    process_entries output_path sfx title shadow corner_radius created todo s
    = (inr (created ++ outputs)%list, s') /\
    heap s' = heap s /\
    stdout s' = (stdout s ++ map created_line outputs)%list /\
    stderr s' = stderr s /\
    (forall q, ~ In q outputs -> files s' !! q = files s !! q) /\
    (forall e, In e (List.filter recognized todo) ->
       exists e' src,
         In e' (List.filter recognized todo) /\
         output_file output_path sfx e' = output_file output_path sfx e /\
         files s !! e' = Some (NFile (FImage src)) /\
         files s' !! output_file output_path sfx e
         = Some (NFile (FImage (final_buffer (files s) src title shadow
                                  corner_radius)))).
Proof.
  induction todo as [|a rest IH]; intros created s Hdirs Hready Hapart outputs.
  - exists s. subst outputs. cbn. rewrite !app_nil_r.
    repeat split; try reflexivity. intros e [].
  - subst outputs. cbn [List.filter process_entries].
    destruct (recognized a) eqn:Hrec.
    + destruct (Hready a (or_introl eq_refl) Hrec)
        as [(src & Hsrc & Hw & Hh) Hout].
      destruct (process_entry_run created a src s Hrec Hdirs Hsrc Hw Hh Hout)
        as [tr Hstep].
      unfold bind. rewrite Hstep.
      set (out_a := output_file output_path sfx a) in *.
      set (img_a := NFile (FImage (final_buffer (files s) src title shadow
                                     corner_radius))) in *.
      set (s1 := mkState _ _ _ _ _).
      assert (Hkeep : forall q, q <> out_a -> files s1 !! q = files s !! q).
      { intros q Hq. cbn [s1 files]. apply lookup_insert_ne. congruence. }
      destruct (IH (created ++ [out_a])%list s1) as (s' & Hrun & Hheap & Hso
                                                      & Hse & Hrest & Himg).
      * intros d Hd. rewrite Hkeep; [apply Hdirs; exact Hd|].
        intros ->. exact (joinpath_not_prefix _ _ Hd).
      * intros e He Hrece.
        destruct (Hready e (or_intror He) Hrece) as [(srce & Hsrce & Hwe) Houte].
        split.
        -- exists srce. rewrite Hkeep; [auto|]. apply Hapart. right. exact He.
        -- cbn [s1 files]. apply fs_is_dir_insert_file. exact Houte.
      * intros e e' He. apply Hapart. right. exact He.
      * exists s'. cbn [map]. fold out_a.
        split; [rewrite Hrun, <- app_assoc; reflexivity|].
        split; [rewrite Hheap; reflexivity|].
        split; [rewrite Hso; cbn [s1 stdout map]; rewrite <- app_assoc;
                reflexivity|].
        split; [rewrite Hse; reflexivity|].
        assert (Hfont : forall b,
                  final_buffer (files s1) b title shadow corner_radius
                  = final_buffer (files s) b title shadow corner_radius).
        { intros b. apply final_buffer_fonts. intros size.
          apply resolve_font_insert_output. }
        assert (Hlater : forall e, In e (List.filter recognized rest) ->
                  exists e' src',
                    In e' (a :: List.filter recognized rest) /\
                    output_file output_path sfx e'
                    = output_file output_path sfx e /\
                    files s !! e' = Some (NFile (FImage src')) /\
                    files s' !! output_file output_path sfx e
                    = Some (NFile (FImage (final_buffer (files s) src' title
                                             shadow corner_radius)))).
        { intros e He. destruct (Himg e He) as (e' & src' & He' & Hsame & Hs' & Hf).
          exists e', src'. split; [right; exact He'|]. split; [exact Hsame|].
          split.
          - rewrite <- Hkeep; [exact Hs'|]. apply Hapart. right.
            apply filter_In in He' as [He' _]. exact He'.
          - rewrite Hf, Hfont. reflexivity. }
        split.
        -- intros q Hq. rewrite Hrest; [apply Hkeep|]; intros Hin; apply Hq.
           ++ left. symmetry. exact Hin.
           ++ right. exact Hin.
        -- intros e [<-|He]; [| apply Hlater; exact He].
           destruct (in_dec (List.list_eq_dec String.string_dec) out_a
                       (map (output_file output_path sfx)
                          (List.filter recognized rest))) as [Hagain|Honce].
           ++ apply in_map_iff in Hagain as (e'' & Hsame & He'').
              destruct (Hlater e'' He'') as (e' & src' & He' & Hsame' & Hs' & Hf).
              exists e', src'. split; [exact He'|].
              split; [rewrite Hsame'; exact Hsame|]. split; [exact Hs'|].
              fold out_a. rewrite <- Hsame. exact Hf.
           ++ exists a, src. split; [left; reflexivity|].
              split; [reflexivity|]. split; [exact Hsrc|].
              fold out_a. rewrite (Hrest _ Honce). cbn [s1 files].
              apply lookup_insert_eq.
    + unfold bind, process_entry. rewrite Hrec. cbn [ret].
      apply IH; [exact Hdirs | | ].
      * intros e He. apply Hready. right. exact He.
      * intros e e' He. apply Hapart. right. exact He.
Qed.

End BatchRun.

Section BatchRuns.
Context `{Raster}.

(** X10. When the input path is neither a file nor a directory,
    [process_batch] writes the line [Error: <input> does not exist] to the
    standard error and raises [SystemExit 1]; so does [main].  Nothing is
    printed on the standard output, no file or directory is made (not even
    the output directory) and Pillow is not called. *)
Theorem missing_input_exits_with_status_1 (input_path output_path : Path)
    (title : option string) (no_shadow : bool) (corner_radius : Z)
    (keep_name : bool) (parse_args : M Namespace.t) (s0 s : state) :
  fs_is_file (files s) input_path = false ->
  fs_is_dir (files s) input_path = false ->
  parse_args s0
  = (inr (Namespace.mk input_path output_path title no_shadow corner_radius
            keep_name), s) ->
  let s' :=
    mkState (heap s) (files s) (stdout s)
      (stderr s ++ ["Error: " +:+ str input_path +:+ " does not exist"])
      (calls s) in
  process_batch input_path output_path title (negb no_shadow) corner_radius
    keep_name s = (inl (SystemExit 1), s') /\
  main parse_args s0 = (inl (SystemExit 1), s').
Proof.
  intros Hfile Hdir Hparse s'.
  assert (Hbatch : process_batch input_path output_path title (negb no_shadow)
                     corner_radius keep_name s = (inl (SystemExit 1), s')).
  { unfold process_batch, bind, is_file, is_dir.
    rewrite Hfile, Hdir. reflexivity. }
  split; [exact Hbatch|].
  unfold main, bind. rewrite Hparse. cbn [Namespace.input Namespace.output
    Namespace.title Namespace.no_shadow Namespace.radius Namespace.keep_name].
  rewrite Hbatch. reflexivity.
Qed.

(** X11. For a single input file that can be read, with coordinates in
    range: when the output path is an existing directory, or is written with
    a final separator as only a root is, the image is written inside it as
    [<stem>_framed.png], or [<stem>.png] with [keep_name]; otherwise it is
    written to the output path itself, whatever its name and whatever
    [keep_name].  The extension of the input is not looked at.  The result is
    the one-element list of that path, and one line [Created: <path>] is
    printed. *)
Theorem single_file_output_name (input_path output_path : Path)
    (title : option string) (shadow : bool) (corner_radius : Z)
    (keep_name : bool) (src : Buffer pixel) (fs' : gmap Path node)
    (s : state) :
  let output_file :=
    if fs_is_dir (files s) output_path || endswith (str output_path) "/"
    then joinpath output_path
           (stem input_path +:+ (if keep_name then "" else "_framed")
            +:+ ".png")
    else output_path in
  fs_is_file (files s) input_path = true ->
  ready s input_path output_file src fs' ->
  0 <= corner_radius ->
  radius_in_range corner_radius -> size_in_range src ->
  exists s',
    process_batch input_path output_path title shadow corner_radius keep_name s
    = (inr [output_file], s') /\
    files s' !! output_file
    = Some (NFile (FImage (final_buffer (files s) src title shadow
                             corner_radius))) /\
    stdout s' = (stdout s ++ ["Created: " +:+ str output_file])%list /\
    stderr s' = stderr s.
Proof.
  intros output_file Hfile (Hsrc & Hw & Hh & Hmk & Hout) Hr _ _.
  destruct (run_create_browser_frame input_path output_file title shadow
              corner_radius src fs' s Hsrc Hw Hh Hr Hmk Hout) as [tr Hrun].
  unfold process_batch, bind, is_file, is_dir. rewrite Hfile.
  fold output_file. rewrite Hrun. eexists. split; [reflexivity|].
  cbn [files stdout stderr]. split; [apply lookup_insert_eq|].
  split; reflexivity.
Qed.

(** A directory whose recognized entries can all be read: every one of
    them is framed, in sorted order. *)
Lemma process_batch_directory (input_path output_path : Path)
    (title : option string) (shadow : bool) (corner_radius : Z)
    (keep_name : bool) (fs1 : gmap Path node) (s : state) :
  let sfx := if keep_name then "" else "_framed" in
  let images := List.filter recognized (sorted (fs_iterdir fs1 input_path)) in
  let outputs := map (output_file output_path sfx) images in
  fs_is_file (files s) input_path = false ->
  fs_is_dir (files s) input_path = true ->
  fs_mkdir (prefixes output_path) (files s) = inr fs1 ->
  input_path <> output_path ->
  0 <= corner_radius ->
  (forall e, In e images ->
     (exists src, fs1 !! e = Some (NFile (FImage src)) /\
                  0 < width src /\ 0 < height src) /\
     fs_is_dir fs1 (output_file output_path sfx e) = false) ->
  exists s',
    process_batch input_path output_path title shadow corner_radius keep_name s
    = (inr outputs, s') /\
    heap s' = heap s /\
    stdout s' = (stdout s ++ map created_line outputs)%list /\
    stderr s' = stderr s /\
    (forall q, ~ In q outputs -> files s' !! q = fs1 !! q) /\
    (forall e, In e images ->
       exists e' src,
         In e' images /\
         output_file output_path sfx e' = output_file output_path sfx e /\
         fs1 !! e' = Some (NFile (FImage src)) /\
         files s' !! output_file output_path sfx e
         = Some (NFile (FImage (final_buffer fs1 src title shadow
                                  corner_radius)))).
Proof.
  intros sfx images outputs Hfile Hdir Hmk Hne Hr Hready.
  pose proof (fs_is_dir_kept _ _ _ _ Hmk Hdir) as Hdir1.
  set (s1 := mkState (heap s) fs1 (stdout s) (stderr s) (calls s)).
  destruct (process_entries_run output_path sfx title shadow corner_radius Hr
              (sorted (fs_iterdir fs1 input_path)) [] s1)
    as (s' & Hrun & Hrest).
  - destruct (fs_mkdir_spec _ _ _ Hmk) as [_ Hdirs]. exact Hdirs.
  - intros e He Hrec. apply Hready. apply filter_In. split; assumption.
  - intros e e' He ->. apply sorted_In, fs_iterdir_In in He as (_ & Hpar & _).
    unfold output_file in Hpar. rewrite parent_png in Hpar.
    apply Hne. symmetry. exact Hpar.
  - exists s'. split; [| exact Hrest].
    unfold process_batch, bind, is_file, is_dir, mkdir, iterdir.
    rewrite Hfile, Hdir, Hmk. cbn [files]. rewrite Hdir1.
    exact Hrun.
Qed.


Lemma frame_outcome_returns fs (image_path output_path : Path) title shadow
    corner_radius (p : Path) :
  fst (frame_outcome fs image_path output_path title shadow corner_radius)
  = inr p -> p = output_path.
Proof.
  destruct (frame_outcome_cases fs image_path output_path title shadow
              corner_radius)
    as [(e & He & _) | (src & fs' & _ & _ & _ & _ & _ & _ & Hfo)].
  - rewrite He. discriminate.
  - rewrite Hfo. intros [= <-]. reflexivity.
Qed.

(** Whatever happens, the loop prints one line per path it adds to the
    list, and nothing else. *)
Lemma process_entries_prints (output_path : Path) (sfx : string)
    (title : option string) (shadow : bool) (corner_radius : Z)
    (todo : list Path) : forall (created : list Path) (s : state),
  let r :=
    process_entries output_path sfx title shadow corner_radius created todo s in
  exists new,
    stdout (snd r) = (stdout s ++ map created_line new)%list /\
    stderr (snd r) = stderr s /\
    forall l, fst r = inr l -> l = (created ++ new)%list.
Proof.
  induction todo as [|a rest IH]; intros created s; cbn zeta.
  - exists []. cbn. rewrite !app_nil_r. split; [reflexivity|].
    split; [reflexivity|]. intros l [= <-]. reflexivity.
  - cbn [process_entries]. unfold bind at 1, process_entry.
    destruct (recognized a).
    + destruct (create_browser_frame_run a
                  (joinpath output_path (stem a +:+ sfx +:+ ".png")) title
                  shadow corner_radius s) as [tr Hrun].
      unfold bind. rewrite Hrun.
      destruct (fst (frame_outcome _ _ _ _ _ _)) as [e|p] eqn:Hres.
      * exists []. cbn. rewrite app_nil_r. split; [reflexivity|].
        split; [reflexivity | discriminate].
      * apply frame_outcome_returns in Hres. subst p.
        cbn [print ret heap files stdout stderr calls].
        match goal with
        | |- context [process_entries _ _ _ _ _ ?c rest ?s1] =>
            destruct (IH c s1) as (new & Hso & Hse & Hres)
        end.
        exists (joinpath output_path (stem a +:+ sfx +:+ ".png") :: new).
        rewrite Hso, Hse. cbn [stdout stderr map].
        rewrite <- app_assoc. split; [reflexivity|]. split; [reflexivity|].
        intros l Hl. rewrite (Hres l Hl), <- app_assoc. reflexivity.
    + cbn [ret]. apply IH.
Qed.

Lemma process_batch_prints (input_path output_path : Path)
    (title : option string) (shadow : bool) (corner_radius : Z)
    (keep_name : bool) (s : state) :
  let r :=
    process_batch input_path output_path title shadow corner_radius keep_name
      s in
  exists created,
    stdout (snd r) = (stdout s ++ map created_line created)%list /\
    forall l, fst r = inr l -> l = created.
Proof.
  cbn zeta. unfold process_batch, bind, is_file, is_dir.
  destruct (fs_is_file (files s) input_path).
  - match goal with
    | |- context [create_browser_frame input_path ?o _ _ _ s] =>
        destruct (create_browser_frame_run input_path o title shadow
                    corner_radius s) as [tr Hrun];
        rewrite Hrun;
        destruct (fst (frame_outcome (files s) input_path o title shadow
                         corner_radius)) as [e|p] eqn:Hres
    end.
    + exists []. cbn. rewrite app_nil_r. split; [reflexivity | discriminate].
    + exists [p]. cbn. split; [reflexivity|]. intros l [= <-]. reflexivity.
  - destruct (fs_is_dir (files s) input_path).
    + unfold mkdir. destruct (fs_mkdir (prefixes output_path) (files s))
        as [e|fs1].
      * exists []. cbn. rewrite app_nil_r. split; [reflexivity | discriminate].
      * unfold iterdir. cbn [files].
        destruct (fs_is_dir fs1 input_path).
        -- match goal with
           | |- context [process_entries _ ?sfx _ _ _ [] ?todo ?s1] =>
               destruct (process_entries_prints output_path sfx title shadow
                           corner_radius todo [] s1) as (new & Hso & _ & Hres)
           end.
           exists new. split; [exact Hso | exact Hres].
        -- exists []. cbn. rewrite app_nil_r.
           split; [reflexivity | discriminate].
    + exists []. cbn. rewrite app_nil_r. split; [reflexivity | discriminate].
Qed.

(** X13. For an input directory, when the output path is an existing
    regular file whose parent directories exist, [process_batch] raises
    [FileExistsError] before it reads any image: the state is unchanged. *)
Theorem output_directory_is_a_file (input_path output_path : Path)
    (title : option string) (shadow : bool) (corner_radius : Z)
    (keep_name : bool) (f : file) (s : state) :
  fs_is_file (files s) input_path = false ->
  fs_is_dir (files s) input_path = true ->
  output_path <> [] ->
  (forall d, In d (prefixes (parent output_path)) -> files s !! d = Some NDir) ->
  files s !! output_path = Some (NFile f) ->
  process_batch input_path output_path title shadow corner_radius keep_name s
  = (inl FileExistsError, s).
Proof.
  intros Hfile Hdir Hne Hdirs Hout.
  assert (Hmk : fs_mkdir (prefixes output_path) (files s)
                = inl FileExistsError).
  { destruct (parent_cases output_path) as [Hroot|(q & c & -> & Hq)].
    - destruct (@exists_last _ output_path Hne) as (q & c & ->).
      rewrite Hroot in Hdirs.
      rewrite (Hdirs (q ++ [c])%list) in Hout; [discriminate Hout|].
      rewrite prefixes_snoc. apply in_or_app. right. left. reflexivity.
    - rewrite Hq in Hdirs.
      rewrite prefixes_snoc, fs_mkdir_skip by exact Hdirs.
      cbn [fs_mkdir]. rewrite Hout. reflexivity. }
  unfold process_batch, bind, is_file, is_dir, mkdir.
  rewrite Hfile, Hdir, Hmk. reflexivity.
Qed.
End BatchRuns.

Lemma calls_only_weaken {A} (P Q : call -> Prop) (m : M A) :
  (forall c, P c -> Q c) -> calls_only P m -> calls_only Q m.
Proof.
  intros HPQ Hm s. destruct (Hm s) as (tr & Htr & HP). exists tr.
  split; [exact Htr|]. eapply Forall_impl; [exact HP | exact HPQ].
Qed.

Section CallsOfBatch.
Context `{Raster}.

Ltac frame_side :=
  first [exact eq_refl | exact I | left; reflexivity | right; reflexivity].

Lemma title_bar_calls_files (image_path output_path : Path) width height
    corner_radius title :
  calls_only (frame_call image_path output_path)
    (create_title_bar_supersampled width height corner_radius title).
Proof.
  unfold create_title_bar_supersampled. calls_tac frame_side.
Qed.

Lemma frame_calls_files (image_path output_path : Path) title shadow
    corner_radius :
  calls_only (frame_call image_path output_path)
    (create_browser_frame image_path output_path title shadow corner_radius).
Proof.
  unfold create_browser_frame.
  repeat first
    [ apply title_bar_calls_files
    | calls_step frame_side ].
Qed.

Lemma process_entry_calls (input_path output_path : Path) sfx title shadow
    corner_radius created (img_path : Path) :
  parent img_path = input_path ->
  calls_only (batch_call input_path output_path)
    (process_entry output_path sfx title shadow corner_radius created
       img_path).
Proof.
  intros Hpar. unfold process_entry.
  destruct (recognized img_path) eqn:Hrec; [| apply calls_only_ret].
  apply calls_only_bind.
  - eapply calls_only_weaken; [| apply frame_calls_files].
    intros [] Hc; cbn [frame_call batch_call] in *; auto.
    + right. subst. split; [reflexivity | assumption].
    + right. subst. apply parent_png.
  - intros result. apply calls_only_bind; [| intros _; apply calls_only_ret].
    apply calls_only_quiet. reflexivity.
Qed.

Lemma process_entries_calls (input_path output_path : Path) sfx title shadow
    corner_radius (todo : list Path) : forall created,
  (forall e, In e todo -> parent e = input_path) ->
  calls_only (batch_call input_path output_path)
    (process_entries output_path sfx title shadow corner_radius created todo).
Proof.
  induction todo as [|a rest IH]; intros created Hpar; cbn [process_entries].
  - apply calls_only_ret.
  - apply calls_only_bind.
    + apply process_entry_calls. apply Hpar. left. reflexivity.
    + intros created'. apply IH. intros e He. apply Hpar. right. exact He.
Qed.

(** X14. Whatever the state, [process_batch] opens no image but the
    input file itself or a recognized entry of the input directory, loads no
    font but the two of the fallback chain, and saves to no path but the
    output path or a file directly inside it. *)
Theorem batch_opens_only_recognized_images (input_path output_path : Path)
    (title : option string) (shadow : bool) (corner_radius : Z)
    (keep_name : bool) :
  calls_only (batch_call input_path output_path)
    (process_batch input_path output_path title shadow corner_radius
       keep_name).
Proof.
  intros s. unfold process_batch, bind at 1, is_file.
  destruct (fs_is_file (files s) input_path).
  - unfold bind at 1, is_dir.
    match goal with
    | |- context [bind (create_browser_frame input_path ?o _ _ _) ?k s] =>
        assert (Hc : calls_only (batch_call input_path output_path)
                       (bind (create_browser_frame input_path o title shadow
                                corner_radius) k))
    end.
    { apply calls_only_bind.
      - eapply calls_only_weaken; [| apply frame_calls_files].
        intros [] Hc; cbn [frame_call batch_call] in *; auto.
        destruct (fs_is_dir (files s) output_path
                  || endswith (str output_path) "/");
          subst; [right; apply parent_png | left; reflexivity].
      - intros result. apply calls_only_bind; [| intros _; apply calls_only_ret].
        apply calls_only_quiet. reflexivity. }
    apply Hc.
  - unfold bind at 1, is_dir.
    destruct (fs_is_dir (files s) input_path).
    + unfold bind at 1, mkdir.
      destruct (fs_mkdir (prefixes output_path) (files s)) as [e|fs1].
      * exists []. rewrite app_nil_r. split; [reflexivity | constructor].
      * unfold bind at 1, iterdir. cbn [files].
        destruct (fs_is_dir fs1 input_path).
        -- match goal with
           | |- context [process_entries _ ?sfx _ _ _ [] ?todo ?s1] =>
               destruct (process_entries_calls input_path output_path sfx
                           title shadow corner_radius todo [] ) with (s := s1)
                 as (tr & Htr & HP)
           end.
           ++ intros e He. apply sorted_In, fs_iterdir_In in He as (_ & Hp & _).
              exact Hp.
           ++ exists tr. split; [exact Htr | exact HP].
        -- exists []. rewrite app_nil_r. split; [reflexivity | constructor].
    + exists []. rewrite app_nil_r. split; [reflexivity | constructor].
Qed.

End CallsOfBatch.


Section Untouched.
Context `{Raster}.




End Untouched.

(** ** [main] *)

Section MainRuns.
Context `{Raster}.

(** X16. Once the command line is parsed, [main] runs the batch with
    shadow enabled unless [--no-shadow] was given.  When the batch returns,
    [main] returns and its output is one line [Created: <path>] per created
    file followed by the summary [Processed <n> image(s)], where [n] is the
    number of these files.  When the batch raises, [main] raises the same
    exception and prints no summary; the lines of the files created before
    the failure stay printed. *)
Theorem main_reports_the_count (parse_args : M Namespace.t)
    (args : Namespace.t) (s s0 : state) :
  parse_args s = (inr args, s0) ->
  let batch :=
    process_batch (Namespace.input args) (Namespace.output args)
      (Namespace.title args) (negb (Namespace.no_shadow args))
      (Namespace.radius args) (Namespace.keep_name args) s0 in
  (forall created s1, batch = (inr created, s1) ->
     main parse_args s
     = (inr tt,
        mkState (heap s1) (files s1)
          (stdout s0 ++ map created_line created
           ++ [String "010" "Processed " +:+ pretty (length created)
               +:+ " image(s)"])
          (stderr s1) (calls s1))) /\
  (forall e s1, batch = (inl e, s1) ->
     main parse_args s = (inl e, s1) /\
     exists created, stdout s1 = (stdout s0 ++ map created_line created)%list).
Proof.
  intros Hparse batch.
  destruct (process_batch_prints (Namespace.input args) (Namespace.output args)
              (Namespace.title args) (negb (Namespace.no_shadow args))
              (Namespace.radius args) (Namespace.keep_name args) s0)
    as (printed & Hso & Hres).
  fold batch in Hso, Hres. split.
  - intros created s1 Hbatch. rewrite Hbatch in Hso, Hres. cbn [fst snd] in *.
    rewrite <- (Hres created eq_refl) in Hso.
    unfold main, bind. rewrite Hparse. fold batch. rewrite Hbatch.
    unfold print. rewrite Hso, <- app_assoc. reflexivity.
  - intros e s1 Hbatch. rewrite Hbatch in Hso. cbn [snd] in Hso. split.
    + unfold main, bind. rewrite Hparse. fold batch. rewrite Hbatch.
      reflexivity.
    + exists printed. exact Hso.
Qed.

End MainRuns.

(** * Runs on concrete inputs *)

(** Hypotheses on a concrete state are settled by evaluation. *)
Ltac by_evaluation :=
  unfold ready; repeat split; vm_compute; first [reflexivity | discriminate].

(** What [Demo.render] gives on a readable source. *)
Lemma render_saved image title shadow corner_radius src :
  ready Demo.start image Demo.output src Demo.fs_out ->
  0 <= corner_radius ->
  Demo.render image title shadow corner_radius
  = (inr Demo.output,
     Some (final_buffer (H := Reference.raster) Demo.fs src title shadow
             corner_radius)).
Proof.
  intros Hready Hr.
  destruct (frame_saved (H := Reference.raster) image Demo.output title shadow
              corner_radius src Demo.fs_out Demo.start Hready Hr)
    as (s' & Hrun & Hfile & _).
  unfold Demo.render, Demo.saved. rewrite Hrun. cbn [fst snd].
  rewrite Hfile. reflexivity.
Qed.

(** C1 fails on a source made of transparent pixels: composited over the
    accumulated result, as the first three layers are, it would leave the
    white background in view; the script pastes it, and the pixel of the
    output is the transparent pixel of the source.  On a single pixel: half
    transparent over white is an opaque mixture, pasted it is itself. *)
Lemma source_is_pasted_not_composited :
  ready Demo.start ["clear.png"] Demo.output Demo.clear_source Demo.fs_out /\
  (exists out,
     Demo.render ["clear.png"] None true 4 = (inr Demo.output, Some out) /\
     in_content true Demo.clear_source 26 58 = true /\
     getpixel out 26 58 = transparent /\
     getpixel (spec_final_buffer (H := Reference.raster) Demo.fs
                 Demo.clear_source None true 4) 26 58 = white /\
     getpixel out 26 58
     <> getpixel (spec_final_buffer (H := Reference.raster) Demo.fs
                    Demo.clear_source None true 4) 26 58) /\
  over white (Pixel 200 100 50 128) = Pixel 227 177 152 255 /\
  blend 255 white (Pixel 200 100 50 128) = Pixel 200 100 50 128.
Proof.
  split; [by_evaluation|]. split; [| split; vm_compute; reflexivity].
  eexists. split; [| split; [| split; [| split]]].
  - apply render_saved; [by_evaluation | lia].
  - reflexivity.
  - vm_compute. reflexivity.
  - vm_compute. reflexivity.
  - vm_compute. discriminate.
Qed.

Lemma layers_composited_in_order_witness :
  ready Demo.start ["in.png"] Demo.output Demo.opaque_source Demo.fs_out /\
  exists s',
    create_browser_frame (H := Reference.raster) ["in.png"] Demo.output
      (Some "Antelope Cloud") true 10 Demo.start = (inr Demo.output, s').
Proof.
  assert (Hready : ready Demo.start ["in.png"] Demo.output Demo.opaque_source
                     Demo.fs_out) by by_evaluation.
  split; [exact Hready|].
  destruct (layers_composited_in_order (H := Reference.raster) ["in.png"]
              Demo.output (Some "Antelope Cloud") true 10 Demo.opaque_source
              Demo.fs_out Demo.start Hready ltac:(lia))
    as [(s' & Hrun & _) _].
  exists s'. exact Hrun.
Defined.

Lemma canvas_dimensions_witness :
  exists out s',
    create_browser_frame (H := Reference.raster) ["in.png"] Demo.output None
      true 10 Demo.start = (inr Demo.output, s') /\
    files s' !! Demo.output = Some (NFile (FImage out)) /\
    im_size out = (12 + 2 * 20, 12 + 32 + 2 * 20).
Proof.
  apply (canvas_dimensions (H := Reference.raster) ["in.png"] Demo.output None
           true 10 Demo.opaque_source Demo.fs_out Demo.start);
    [by_evaluation | lia].
Defined.

(** C3 fails on a source made of transparent pixels: a pixel of the content
    area is not opaque in the output. *)
Lemma white_backing_does_not_show_through :
  exists out,
    Demo.render ["clear.png"] None true 4 = (inr Demo.output, Some out) /\
    in_content true Demo.clear_source 26 58 = true /\
    alpha (getpixel out 26 58) <> 255.
Proof.
  eexists. split; [| split].
  - apply render_saved; [by_evaluation | lia].
  - reflexivity.
  - vm_compute. discriminate.
Qed.

Lemma content_keeps_the_source_alpha_witness :
  ready Demo.start ["clear.png"] Demo.output Demo.clear_source Demo.fs_out /\
  alpha
    (getpixel
       (final_buffer (H := Reference.raster) Demo.fs Demo.clear_source None
          true 4) 26 58) = 0.
Proof.
  assert (Hready : ready Demo.start ["clear.png"] Demo.output
                     Demo.clear_source Demo.fs_out) by by_evaluation.
  split; [exact Hready|].
  destruct (content_keeps_the_source_alpha (H := Reference.raster)
              ["clear.png"] Demo.output None true 4 Demo.clear_source
              Demo.fs_out Demo.start Hready ltac:(lia)) as [_ Hpx].
  destruct (Hpx 26 58 eq_refl) as (_ & Hclear & _).
  apply Hclear; vm_compute; reflexivity.
Defined.

(** C4 fails on a directory whose first image cannot be decoded: the batch
    raises and the second image, which is readable, gets no output. *)
Lemma one_bad_image_aborts_the_batch :
  let r :=
    process_batch (H := Reference.raster) ["shots"] ["out"] None true 4 false
      Demo.start in
  recognized ["shots"; "b.png"] = true /\
  Demo.saved Demo.start ["shots"; "b.png"] = Some Demo.opaque_source /\
  fst r = inl UnidentifiedImageError /\
  files (snd r) !! ["out"; "b_framed.png"] = None /\
  stdout (snd r) = [].
Proof. vm_compute. repeat split; reflexivity. Qed.

Lemma batch_stops_at_first_undecodable_witness :
  sorted (fs_iterdir Demo.fs_out ["mixed"])
  = [["mixed"; "a.png"]; ["mixed"; "b.png"]; ["mixed"; "c.png"]] /\
  exists s2,
    process_batch (H := Reference.raster) ["mixed"] ["out"] None true 4 false
      Demo.start = (inl UnidentifiedImageError, s2) /\
    files s2 !! ["out"; "c_framed.png"] = None /\
    stdout s2 = ["Created: out/a_framed.png"].
Proof.
  assert (Hsorted : sorted (fs_iterdir Demo.fs_out ["mixed"])
                    = [["mixed"; "a.png"]; ["mixed"; "b.png"];
                       ["mixed"; "c.png"]]) by (vm_compute; reflexivity).
  split; [exact Hsorted|].
  destruct (batch_stops_at_first_undecodable (H := Reference.raster) ["mixed"]
              ["out"] None true 4 false Demo.fs_out [["mixed"; "a.png"]]
              ["mixed"; "b.png"] [["mixed"; "c.png"]] [["out"; "a_framed.png"]]
              Demo.start)
    as (s2 & Hrun & Hfiles & Hout & _).
  - vm_compute. reflexivity.
  - vm_compute. reflexivity.
  - reflexivity.
  - exact Hsorted.
  - vm_compute. reflexivity.
  - vm_compute. reflexivity.
  - vm_compute. reflexivity.
  - exists s2. split; [exact Hrun|]. rewrite Hfiles, Hout.
    split; vm_compute; reflexivity.
Defined.

(** C5 fails in the rounded corner of the frame rectangle: with shadow
    enabled the shadow shows there, with shadow disabled the pixel is
    clear. *)
Lemma shadow_shows_in_the_frame_corner :
  exists on off,
    Demo.render ["in.png"] None true 4 = (inr Demo.output, Some on) /\
    Demo.render ["in.png"] None false 4 = (inr Demo.output, Some off) /\
    (0 <= 11 < width Demo.opaque_source /\
     0 <= 43 < height Demo.opaque_source + TITLE_BAR_HEIGHT) /\
    getpixel on (11 + PADDING) (43 + PADDING) <> getpixel off 11 43.
Proof.
  do 2 eexists. split; [| split; [| split]].
  - apply render_saved; [by_evaluation | lia].
  - apply render_saved; [by_evaluation | lia].
  - vm_compute. repeat split; discriminate.
  - vm_compute. discriminate.
Qed.

Lemma shadow_only_under_the_background_witness :
  ready Demo.start ["in.png"] Demo.output Demo.opaque_source Demo.fs_out /\
  exists on off,
    Demo.render ["in.png"] None true 4 = (inr Demo.output, Some on) /\
    Demo.render ["in.png"] None false 4 = (inr Demo.output, Some off) /\
    getpixel on (6 + PADDING) (38 + PADDING) = getpixel off 6 38.
Proof.
  assert (Hready : ready Demo.start ["in.png"] Demo.output Demo.opaque_source
                     Demo.fs_out) by by_evaluation.
  split; [exact Hready|].
  destruct (shadow_only_under_the_background (H := Reference.raster)
              ["in.png"] Demo.output None 4 Demo.opaque_source Demo.fs_out
              Demo.start Hready ltac:(lia))
    as [(_ & s0 & Hrun0 & Hfile0) (on & s1 & Hrun1 & Hfile1 & _ & Hsame)].
  eexists on, _. split; [| split].
  - unfold Demo.render, Demo.saved. rewrite Hrun1. cbn [fst snd].
    rewrite Hfile1. reflexivity.
  - unfold Demo.render, Demo.saved. rewrite Hrun0. cbn [fst snd].
    rewrite Hfile0. reflexivity.
  - apply Hsame.
    + vm_compute. split; [discriminate | reflexivity].
    + vm_compute. split; [discriminate | reflexivity].
    + vm_compute. reflexivity.
    + vm_compute. reflexivity.
    + vm_compute. reflexivity.
Defined.

(** C6 fails on a negative radius: rendering raises [ValueError] and saves
    nothing. *)
Lemma negative_radius_raises :
  ready Demo.start ["in.png"] Demo.output Demo.opaque_source Demo.fs_out /\
  Demo.render ["in.png"] None true (-1) = (inl ValueError, None) /\
  Demo.render ["in.png"] None false (-1) = (inl ValueError, None) /\
  exists im xy,
    In (Call_rounded_rectangle im xy (-1 * SUPERSAMPLE_SCALE))
      (calls
         (snd (create_browser_frame (H := Reference.raster) ["in.png"]
                 Demo.output None false (-1) Demo.start))).
Proof.
  split; [by_evaluation | split; [| split]]; try (vm_compute; reflexivity).
  do 2 eexists. vm_compute. repeat (first [left; reflexivity | right]).
Qed.

Lemma radius_is_drawn_as_given_witness :
  ready Demo.start ["in.png"] Demo.output Demo.opaque_source Demo.fs_out /\
  exists out s',
    create_browser_frame (H := Reference.raster) ["in.png"] Demo.output None
      true 100 Demo.start = (inr Demo.output, s') /\
    files s' !! Demo.output = Some (NFile (FImage out)) /\
    im_size out = canvas_size true 12 12.
Proof.
  assert (Hready : ready Demo.start ["in.png"] Demo.output Demo.opaque_source
                     Demo.fs_out) by by_evaluation.
  split; [exact Hready|].
  destruct (radius_is_drawn_as_given (H := Reference.raster) ["in.png"]
              Demo.output None true 100 Demo.opaque_source Demo.fs_out
              Demo.start Hready) as (Hok & _ & _).
  apply Hok; [lia | split; vm_compute; discriminate
             | split; vm_compute; discriminate].
Defined.

Lemma rendering_is_deterministic_witness :
  exists out s1' s2',
    create_browser_frame (H := Reference.raster) ["in.png"] Demo.output
      (Some "Antelope Cloud") true 10 Demo.start = (inr Demo.output, s1') /\
    create_browser_frame (H := Reference.raster) ["in.png"] Demo.output
      (Some "Antelope Cloud") true 10 Demo.later = (inr Demo.output, s2') /\
    files s1' !! Demo.output = Some (NFile (FImage out)) /\
    files s2' !! Demo.output = Some (NFile (FImage out)).
Proof.
  apply (rendering_is_deterministic (H := Reference.raster) ["in.png"]
           Demo.output (Some "Antelope Cloud") true 10 Demo.opaque_source
           Demo.fs_out (files Demo.later) Demo.start Demo.later).
  - by_evaluation.
  - by_evaluation.
  - lia.
  - intros size. vm_compute. reflexivity.
Defined.

Lemma zero_radius_is_a_plain_rectangle_witness :
  ready Demo.start ["in.png"] Demo.output Demo.opaque_source Demo.fs_out /\
  hi_bg (H := Reference.raster) true 12 12 0
  = fill_shape (rectangle_cover (frame_rect_hi true 12 12)) white
      (new_buffer (hi_size true 12 12) transparent).
Proof.
  assert (Hready : ready Demo.start ["in.png"] Demo.output Demo.opaque_source
                     Demo.fs_out) by by_evaluation.
  split; [exact Hready|].
  apply (zero_radius_is_a_plain_rectangle (H := Reference.raster) ["in.png"]
           Demo.output None true Demo.opaque_source Demo.fs_out Demo.start
           Hready).
Defined.

(** ** Runs of the further properties *)

Lemma hex_to_rgb_reads_three_bytes_witness :
  hex_to_rgb "#ff5f57" Demo.start = (inr (255, 95, 87), Demo.start) /\
  hex_to_rgb "28C840ff" Demo.start = (inr (40, 200, 64), Demo.start).
Proof.
  split.
  - exact (proj1
             (hex_to_rgb_reads_three_bytes "f" "f" "5" "f" "5" "7"
                15 15 5 15 5 7 "" Demo.start
                eq_refl eq_refl eq_refl eq_refl eq_refl eq_refl) 1%nat).
  - exact (proj1
             (hex_to_rgb_reads_three_bytes "2" "8" "C" "8" "4" "0"
                2 8 12 8 4 0 "ff" Demo.start
                eq_refl eq_refl eq_refl eq_refl eq_refl eq_refl) 0%nat).
Defined.

Lemma hex_to_rgb_short_string_witness :
  hex_to_rgb "#fff" Demo.start = (inl ValueError, Demo.start).
Proof. apply hex_to_rgb_short_string. cbn. lia. Defined.

Lemma hex_to_rgb_five_digits_witness :
  hex_to_rgb "#12345" Demo.start = (inr (18, 52, 5), Demo.start).
Proof.
  exact (hex_to_rgb_five_digits "1" "2" "3" "4" "5" 1 2 3 4 5 Demo.start
           eq_refl eq_refl eq_refl eq_refl eq_refl).
Defined.

Lemma font_fallback_never_fails_witness :
  resolve_font Gallery.fs (13 * SUPERSAMPLE_SCALE)
  = TrueType "Helvetica" (13 * SUPERSAMPLE_SCALE) /\
  font_calls Gallery.fs
  = [Call_truetype SF_PRO (13 * SUPERSAMPLE_SCALE);
     Call_truetype HELVETICA (13 * SUPERSAMPLE_SCALE)].
Proof.
  destruct (font_fallback_never_fails Gallery.start)
    as (_ & _ & Hsecond & _).
  apply (Hsecond "Helvetica").
  - intros d. vm_compute. discriminate.
  - vm_compute. reflexivity.
Defined.

Lemma title_bar_has_the_requested_size_witness :
  exists r b s',
    create_title_bar_supersampled (H := Reference.raster) 12 TITLE_BAR_HEIGHT
      10 (Some "Antelope Cloud") Gallery.start = (inr r, s') /\
    heap s' !! r = Some (ImRGBA b) /\ im_size b = (12, TITLE_BAR_HEIGHT).
Proof.
  destruct (title_bar_has_the_requested_size (H := Reference.raster) 12
              TITLE_BAR_HEIGHT 10 (Some "Antelope Cloud") Gallery.start)
    as (r & b & s' & Hrun & Hb & Hsize & _);
    [lia | unfold TITLE_BAR_HEIGHT; lia | lia | vm_compute; discriminate
    | vm_compute; discriminate | split; vm_compute; discriminate |].
  exists r, b, s'. auto.
Defined.

Lemma create_browser_frame_fails_in_order_witness :
  outcome (create_browser_frame (H := Reference.raster) ["nope.png"]
             Demo.output None true 10 Demo.start)
  = (inl FileNotFoundError, Demo.fs, [], []) /\
  outcome (create_browser_frame (H := Reference.raster) ["in.png"]
             Demo.output None true (-1) Demo.start)
  = (inl ValueError, Demo.fs, [], []).
Proof.
  split.
  - rewrite (create_browser_frame_fails_in_order (H := Reference.raster)
               ["nope.png"] Demo.output None true 10 Demo.start).
    + vm_compute. reflexivity.
    + split; vm_compute; discriminate.
    + intros src Hsrc. discriminate Hsrc.
  - rewrite (create_browser_frame_fails_in_order (H := Reference.raster)
               ["in.png"] Demo.output None true (-1) Demo.start).
    + vm_compute. reflexivity.
    + split; vm_compute; discriminate.
    + intros src Hsrc.
      assert (E : files Demo.start !! ["in.png"]
                  = Some (NFile (FImage Demo.opaque_source)))
        by reflexivity.
      rewrite E in Hsrc. injection Hsrc as <-.
      split; vm_compute; discriminate.
Defined.

Lemma framing_twice_adds_two_frames_witness :
  ready Demo.start ["in.png"] Demo.output Demo.opaque_source Demo.fs_out /\
  exists s1 s2 twice,
    create_browser_frame (H := Reference.raster) ["in.png"] Demo.output None
      true 10 Demo.start = (inr Demo.output, s1) /\
    create_browser_frame (H := Reference.raster) Demo.output Demo.output None
      false 10 s1 = (inr Demo.output, s2) /\
    files s2 !! Demo.output = Some (NFile (FImage twice)) /\
    im_size twice = (12 + 40, 12 + 32 + 40 + 32).
Proof.
  assert (Hready : ready Demo.start ["in.png"] Demo.output Demo.opaque_source
                     Demo.fs_out) by by_evaluation.
  split; [exact Hready|].
  destruct (framing_twice_adds_two_frames (H := Reference.raster) ["in.png"]
              Demo.output None None true false 10 10 Demo.opaque_source
              Demo.fs_out Demo.start Hready ltac:(lia) ltac:(lia))
    as (s1 & s2 & once & twice & Hrun1 & _ & Hrun2 & Hfile2 & _ & Hsize1
        & Hsize2).
  exists s1, s2, twice. split; [exact Hrun1|]. split; [exact Hrun2|].
  split; [exact Hfile2|].
  rewrite Hsize2. unfold width, height. rewrite Hsize1. reflexivity.
Defined.

Lemma recognized_by_last_extension_witness :
  recognized ["pics"; "b.JPG"] = true /\ stem ["pics"; "b.JPG"] = "b" /\
  suffix ["pics"; "b.JPG"] = ".JPG".
Proof.
  apply (proj1 recognized_by_last_extension ["pics"; "b.JPG"] "b" ".JPG").
  - reflexivity.
  - discriminate.
  - vm_compute. apply list_elem_of_In. cbn. auto.
Defined.

Lemma missing_input_exits_with_status_1_witness :
  (exists s',
     main (H := Reference.raster) (Gallery.parse_args ["nowhere"] ["framed"])
       Gallery.start = (inl (SystemExit 1), s') /\
     stdout s' = [] /\ stderr s' = ["Error: nowhere does not exist"] /\
     files s' = Gallery.fs) /\
  (exists s',
     main (H := Reference.raster)
       (Gallery.parse_args ["/"; "tmp"; "nowhere"] ["framed"])
       Gallery.start = (inl (SystemExit 1), s') /\
     stderr s' = ["Error: /tmp/nowhere does not exist"]).
Proof.
  split.
  - destruct (missing_input_exits_with_status_1 (H := Reference.raster)
                ["nowhere"] ["framed"] None false CORNER_RADIUS false
                (Gallery.parse_args ["nowhere"] ["framed"]) Gallery.start
                Gallery.start eq_refl eq_refl eq_refl) as [_ Hmain].
    eexists. split; [exact Hmain|]. repeat split.
  - destruct (missing_input_exits_with_status_1 (H := Reference.raster)
                ["/"; "tmp"; "nowhere"] ["framed"] None false CORNER_RADIUS
                false
                (Gallery.parse_args ["/"; "tmp"; "nowhere"] ["framed"])
                Gallery.start Gallery.start eq_refl eq_refl eq_refl)
      as [_ Hmain].
    eexists. split; [exact Hmain|]. reflexivity.
Defined.

Lemma single_file_output_name_witness :
  exists s',
    process_batch (H := Reference.raster) ["solo.bmp"] ["framed"] None true 10
      false Gallery.start = (inr [["framed"; "solo_framed.png"]], s') /\
    stdout s' = ["Created: framed/solo_framed.png"].
Proof.
  destruct (single_file_output_name (H := Reference.raster) ["solo.bmp"]
              ["framed"] None true 10 false Demo.opaque_source Gallery.fs
              Gallery.start) as (s' & Hrun & _ & Hso & _).
  - reflexivity.
  - by_evaluation.
  - lia.
  - split; vm_compute; discriminate.
  - split; vm_compute; discriminate.
  - exists s'. split; [exact Hrun | exact Hso].
Defined.

Lemma gallery_images :
  List.filter recognized (sorted (fs_iterdir Gallery.fs ["pics"]))
  = [["pics"; "a.png"]; ["pics"; "b.JPG"]].
Proof. vm_compute. reflexivity. Qed.

Lemma gallery_ready (e : Path) :
  In e (List.filter recognized (sorted (fs_iterdir Gallery.fs ["pics"]))) ->
  (exists src, Gallery.fs !! e = Some (NFile (FImage src)) /\
               0 < width src /\ 0 < height src) /\
  fs_is_dir Gallery.fs (output_file ["framed"] "_framed" e) = false.
Proof.
  rewrite gallery_images. intros [<-|[<-|[]]].
  - split; [exists Demo.opaque_source | reflexivity].
    repeat split; vm_compute; reflexivity.
  - split; [exists Demo.clear_source | reflexivity].
    repeat split; vm_compute; reflexivity.
Qed.



Lemma output_directory_is_a_file_witness :
  process_batch (H := Reference.raster) ["pics"] ["solo.bmp"] None true 10
    false Gallery.start = (inl FileExistsError, Gallery.start).
Proof.
  apply (output_directory_is_a_file (H := Reference.raster) ["pics"]
           ["solo.bmp"] None true 10 false (FImage Demo.opaque_source)
           Gallery.start).
  - reflexivity.
  - reflexivity.
  - discriminate.
  - intros d [].
  - reflexivity.
Defined.


Lemma main_reports_the_count_witness :
  exists s',
    main (H := Reference.raster) (Gallery.parse_args ["pics"] ["framed"])
      Gallery.start = (inr tt, s') /\
    stdout s' = ["Created: framed/a_framed.png";
                 "Created: framed/b_framed.png";
                 String "010" "Processed 2 image(s)"].
Proof.
  destruct (process_batch_directory (H := Reference.raster) ["pics"]
              ["framed"] None true CORNER_RADIUS false Gallery.fs
              Gallery.start eq_refl eq_refl eq_refl ltac:(discriminate)
              ltac:(unfold CORNER_RADIUS; lia) gallery_ready)
    as (s1 & Hrun & _).
  rewrite gallery_images in Hrun.
  destruct (main_reports_the_count (H := Reference.raster)
              (Gallery.parse_args ["pics"] ["framed"])
              (Namespace.mk ["pics"] ["framed"] None false CORNER_RADIUS false)
              Gallery.start Gallery.start eq_refl) as [Hok _].
  eexists. split; [exact (Hok _ _ Hrun)|]. reflexivity.
Defined.
